(** * reactBlog: the cache-augmented data-access layer and the client
      engagement state, embedded and verified.

    The development follows the JavaScript sources:
    - [utils/dataService.js]   the keyed cache with a time-to-live and
                               [createCacheableFetch];
    - [utils/mockData.js]      the static fallback dataset;
    - [services/supabase.js]   the configuration gate and the guest identity;
    - [services/api.js]        the categories, posts and engagement services;
    - [pages/PostPage.jsx]     view tracking and the optimistic like toggle;
    - [hooks]                  [usePostEngagement].

    JavaScript values are a small universal type, asynchronous functions are
    state-passing functions that either return or throw, and the remote store
    is an external collaborator that answers request descriptors. *)

From Stdlib Require Import ZArith String Ascii List Bool Lia.
From stdpp Require Import base option list gmap strings pretty.

Set Warnings "-register-all".

(** ** JavaScript values *)

Module Js.

(** Numbers that occur in this code are integers (counts, limits, clock
    readings in milliseconds), so [JNum] carries a [Z]. *)
Inductive JsVal : Type :=
| JUndefined
| JNull
| JBool (b : bool)
| JNum (n : Z)
| JStr (s : string)
| JArr (items : list JsVal)
| JObj (fields : list (string * JsVal)).

(** [if (v)], [!v], [a || b], [Boolean(v)]. *)
Definition truthy (v : JsVal) : bool :=
  match v with
  | JUndefined | JNull => false
  | JBool b => b
  | JNum n => negb (n =? 0)%Z
  | JStr s => match s with EmptyString => false | String _ _ => true end
  | JArr _ | JObj _ => true
  end.

(** [a || b] *)
Definition js_or (a b : JsVal) : JsVal := if truthy a then a else b.

(** [a ?? b] *)
Definition nullish (v : JsVal) : bool :=
  match v with JUndefined | JNull => true | _ => false end.

Definition js_coalesce (a b : JsVal) : JsVal := if nullish a then b else a.

(** [typeof v === 'number'] *)
Definition is_number (v : JsVal) : bool :=
  match v with JNum _ => true | _ => false end.

(** [a === b] on the values this code compares. Arrays and objects compare by
    reference; every array or object compared here is a fresh one (parsed
    from storage or received from the store), so two of them are never the
    same reference. *)
Definition strict_eq (a b : JsVal) : bool :=
  match a, b with
  | JUndefined, JUndefined => true
  | JNull, JNull => true
  | JBool x, JBool y => Bool.eqb x y
  | JNum x, JNum y => (x =? y)%Z
  | JStr x, JStr y => String.eqb x y
  | _, _ => false
  end.

(** [arr.includes(x)]: SameValueZero, which is [===] on integers, strings,
    booleans, null and undefined. *)
Definition includes (arr : list JsVal) (x : JsVal) : bool :=
  existsb (fun y => strict_eq y x) arr.

(** [arr.filter(id => id !== x)] *)
Definition without (arr : list JsVal) (x : JsVal) : list JsVal :=
  List.filter (fun y => negb (strict_eq y x)) arr.

(** [arr.push(x)] *)
Definition push (arr : list JsVal) (x : JsVal) : list JsVal := arr ++ [x].

(** An asynchronous or throwing computation settles in one of two ways. *)
Inductive Outcome (A : Type) : Type :=
| Return (a : A)
| Throw (error : JsVal).
Arguments Return {A} a.
Arguments Throw {A} error.

(** [a + b] on two numbers. The operands added in this code are integer
    counters; no other operand type occurs. *)
Definition js_add (a b : JsVal) : JsVal :=
  match a, b with
  | JNum x, JNum y => JNum (x + y)
  | _, _ => JUndefined
  end.

(** [a && b] *)
Definition js_and (a b : JsVal) : JsVal := if truthy a then b else a.

Definition TypeError (message : string) : JsVal :=
  JObj [("name", JStr "TypeError"); ("message", JStr message)].

Definition SyntaxError (message : string) : JsVal :=
  JObj [("name", JStr "SyntaxError"); ("message", JStr message)].

Fixpoint assoc (k : string) (fields : list (string * JsVal)) : option JsVal :=
  match fields with
  | [] => None
  | (k', v) :: rest => if String.eqb k' k then Some v else assoc k rest
  end.

(** The own property [k] of [v], [undefined] when there is none. *)
Definition field (v : JsVal) (k : string) : JsVal :=
  match v with
  | JObj fields => default JUndefined (assoc k fields)
  | _ => JUndefined
  end.

(** [v.k] for a data property [k]: reading a property of [null] or
    [undefined] throws. *)
Definition prop (v : JsVal) (k : string) : Outcome JsVal :=
  if nullish v then Throw (TypeError "Cannot read properties of null or undefined")
  else Return (field v k).

(** [v?.k] *)
Definition opt_prop (v : JsVal) (k : string) : JsVal :=
  if nullish v then JUndefined else field v k.

(** A value parsed from storage on which the code goes on to call [push]
    or [filter], or which it spreads: these are operations of arrays, and
    on anything else the call throws. [includes], which a string has too,
    is [js_includes] below. The theorems about flows that read a stored
    list through [as_array] assume that the stored item parses to an
    array, as this code writes it, or state what holds whether or not the
    call throws. *)
Definition as_array (v : JsVal) : Outcome (list JsVal) :=
  match v with
  | JArr items => Return items
  | _ => Throw (TypeError "not an array")
  end.

(** [String(v)], the text that [String.prototype.includes] makes of its
    argument. An array is the texts of its elements joined by commas, a
    null or undefined element giving the empty text. A plain object is
    ``[object Object]''; an object with an own data property [toString]
    has no callable conversion left, and the coercion throws. Numbers are
    the integers of this model, printed in decimal. *)
Fixpoint to_string (v : JsVal) : Outcome string :=
  match v with
  | JUndefined => Return "undefined"
  | JNull => Return "null"
  | JBool true => Return "true"
  | JBool false => Return "false"
  | JNum n => Return (pretty n)
  | JStr s => Return s
  | JArr items =>
      (fix join (l : list JsVal) : Outcome string :=
         match l with
         | [] => Return ""
         | x :: rest =>
             match (if nullish x then Return "" else to_string x) with
             | Throw e => Throw e
             | Return t =>
                 match rest with
                 | [] => Return t
                 | _ :: _ =>
                     match join rest with
                     | Return u => Return (t +:+ "," +:+ u)
                     | Throw e => Throw e
                     end
                 end
             end
         end) items
  | JObj fields =>
      match assoc "toString" fields with
      | Some _ => Throw (TypeError "Cannot convert object to primitive value")
      | None => Return "[object Object]"
      end
  end.

(** Whether [t] occurs in [s] as a substring. *)
Fixpoint occurs_in (t s : string) : bool :=
  String.prefix t s ||
  match s with
  | EmptyString => false
  | String _ rest => occurs_in t rest
  end.

(** [v.includes(x)] on a value parsed from storage: membership for an
    array, a substring test for a string; [null] and [undefined] have no
    properties, and a number, a boolean or a parsed object has no method
    [includes], so the call throws. *)
Definition js_includes (v x : JsVal) : Outcome bool :=
  match v with
  | JArr items => Return (includes items x)
  | JStr s =>
      match to_string x with
      | Return t => Return (occurs_in t s)
      | Throw e => Throw e
      end
  | JUndefined | JNull => Throw (TypeError "Cannot read properties of null or undefined")
  | JBool _ | JNum _ | JObj _ => Throw (TypeError "includes is not a function")
  end.

(** [arr.slice(start, end)] *)
Definition js_slice (arr : list JsVal) (start finish : Z) : list JsVal :=
  let len := Z.of_nat (length arr) in
  let k := if (start <? 0)%Z then Z.max (len + start) 0 else Z.min start len in
  let final := if (finish <? 0)%Z then Z.max (len + finish) 0 else Z.min finish len in
  let count := Z.max (final - k) 0 in
  firstn (Z.to_nat count) (skipn (Z.to_nat k) arr).

(** [arr.find(pred)] *)
Definition js_find (pred : JsVal → bool) (arr : list JsVal) : JsVal :=
  default JUndefined (List.find pred arr).

(** The value [JSON.parse(JSON.stringify(v))]: inside arrays [undefined]
    becomes [null], and members whose value is [undefined] are dropped. *)
Fixpoint json_roundtrip (v : JsVal) : JsVal :=
  match v with
  | JArr items =>
      JArr (map (λ x, match x with
                      | JUndefined => JNull
                      | _ => json_roundtrip x
                      end) items)
  | JObj fields =>
      JObj ((fix members (l : list (string * JsVal)) : list (string * JsVal) :=
               match l with
               | [] => []
               | (k, JUndefined) :: rest => members rest
               | (k, x) :: rest => (k, json_roundtrip x) :: members rest
               end) fields)
  | _ => v
  end.

Definition quote : string := String (ascii_of_nat 34) EmptyString.

(** The text [JSON.stringify(v)] for values whose strings hold no character
    that needs an escape. *)
Fixpoint json_text (v : JsVal) : string :=
  match v with
  | JUndefined | JNull => "null"
  | JBool true => "true"
  | JBool false => "false"
  | JNum n => pretty n
  | JStr s => quote +:+ s +:+ quote
  | JArr items =>
      "[" +:+
      (fix elements (l : list JsVal) : string :=
         match l with
         | [] => ""
         | [x] => json_text x
         | x :: rest => json_text x +:+ "," +:+ elements rest
         end) items +:+ "]"
  | JObj fields =>
      "{" +:+
      (fix members (l : list (string * JsVal)) : string :=
         match l with
         | [] => ""
         | [(k, x)] => quote +:+ k +:+ quote +:+ ":" +:+ json_text x
         | (k, x) :: rest =>
             quote +:+ k +:+ quote +:+ ":" +:+ json_text x +:+ "," +:+ members rest
         end) fields +:+ "}"
  end.

Lemma strict_eq_str (x y : string) : strict_eq (JStr x) (JStr y) = true <-> x = y.
Proof. simpl. apply String.eqb_eq. Qed.

Lemma includes_str (ids : list string) (x : string) :
  includes (map JStr ids) (JStr x) = true <-> In x ids.
Proof.
  unfold includes. rewrite existsb_exists. split.
  - intros [y [Hy Heq]]. apply in_map_iff in Hy as [z [<- Hz]].
    apply strict_eq_str in Heq. now subst.
  - intros Hin. exists (JStr x). split.
    + now apply in_map.
    + now apply strict_eq_str.
Qed.

Lemma without_absent (arr : list JsVal) (x : JsVal) :
  includes arr x = false -> without arr x = arr.
Proof.
  unfold includes, without. induction arr as [|y arr IH]; simpl; [easy|].
  intros H. apply orb_false_iff in H as [Hy Hrest].
  rewrite Hy. simpl. now rewrite IH.
Qed.

Lemma without_push_absent (arr : list JsVal) (x : JsVal) :
  strict_eq x x = true -> includes arr x = false -> without (push arr x) x = arr.
Proof.
  intros Hx Habs. unfold without, push. rewrite List.filter_app. simpl.
  rewrite Hx. simpl. rewrite app_nil_r. now apply without_absent.
Qed.

Lemma json_roundtrip_ids (ids : list string) :
  json_roundtrip (JArr (map JStr ids)) = JArr (map JStr ids).
Proof.
  simpl. f_equal. induction ids as [|x ids IH]; simpl; [done|]. by rewrite IH.
Qed.

Lemma json_roundtrip_push (l : list JsVal) (x : string) :
  json_roundtrip (JArr l) = JArr l →
  json_roundtrip (JArr (push l (JStr x))) = JArr (push l (JStr x)).
Proof.
  simpl. intros H. injection H as H. unfold push. by rewrite map_app, H.
Qed.

End Js.
Import Js.

(** ** utils/dataService.js: the cache and the cacheable fetch *)

Module DataService.

(** [const cache = { data: new Map(), timestamps: new Map(), ... }] *)
Record Cache : Type := mkCache {
  data : gmap string JsVal;
  timestamps : gmap string Z
}.

Definition empty_cache : Cache := mkCache ∅ ∅.

(** [this.timestamps.get(key)] is [undefined] for a missing key, and
    [!timestamp] also holds for a stored reading of 0. *)
Definition no_timestamp (t : option Z) : bool :=
  match t with
  | None => true
  | Some ts => (ts =? 0)%Z
  end.

(** [cache.get(key, maxAge)], with the reading of [Date.now()] as [now].
    The result is the returned value and the cache after the call (an
    expired entry is deleted). *)
Definition cache_get (key : string) (maxAge now : Z) (c : Cache) : JsVal * Cache :=
  let timestamp := timestamps c !! key in
  if no_timestamp timestamp then (JNull, c)
  else
    let age := (now - default 0%Z timestamp)%Z in
    if (age >? maxAge)%Z then
      (JNull, mkCache (delete key (data c)) (delete key (timestamps c)))
    else
      (default JUndefined (data c !! key), c).

(** [cache.set(key, data)] *)
Definition cache_set (key : string) (d : JsVal) (now : Z) (c : Cache) : Cache :=
  mkCache (<[key := d]> (data c)) (<[key := now]> (timestamps c)).

(** The keys [this.data.forEach] visits. *)
Definition data_keys (c : Cache) : list string := (map_to_list (data c)).*1.

Definition delete_entry (c : Cache) (key : string) : Cache :=
  mkCache (delete key (data c)) (delete key (timestamps c)).

(** [cache.invalidate(keyOrPrefix, isPrefix)] *)
Definition cache_invalidate (keyOrPrefix : string) (isPrefix : bool) (c : Cache) : Cache :=
  if isPrefix then
    let keysToDelete := List.filter (fun key => String.prefix keyOrPrefix key) (data_keys c) in
    foldl delete_entry c keysToDelete
  else
    delete_entry c keyOrPrefix.

(** [cache.clear()] *)
Definition cache_clear (c : Cache) : Cache := empty_cache.

(** [invalidateCache] and [clearCache] act on the module's single cache. *)
Definition invalidateCache (keyOrPrefix : string) (isPrefix : bool) (c : Cache) : Cache :=
  cache_invalidate keyOrPrefix isPrefix c.

Definition clearCache (c : Cache) : Cache := cache_clear c.

(** Every entry has a payload and a timestamp. *)
Definition cache_wf (c : Cache) : Prop :=
  ∀ key, is_Some (data c !! key) ↔ is_Some (timestamps c !! key).

Section CacheableFetch.

(** What a fetch function talks to, apart from the cache: the clock and the
    rest of the world (the remote store). *)
Context {E : Type}.

Record Env : Type := mkEnv {
  now : Z;
  ext : E
}.

Definition Async (A : Type) : Type := Env → Outcome A * Env.

(** The state a wrapped fetch runs in. [fetch_calls] counts the invocations
    of the underlying fetch function. *)
Record St : Type := mkSt {
  cache : Cache;
  env : Env;
  fetch_calls : nat
}.

(** [JSON.stringify] belongs to the runtime. *)
Variable JSON_stringify : JsVal → string.

Variable fetchFn : list JsVal → Async JsVal.
Variable cacheKey : string.
Variable cacheMaxAge : Z.
Variable fallbackFn : option (list JsVal → Async JsVal).

Definition cacheKeyWithArgs (args : list JsVal) : string :=
  cacheKey +:+ ":" +:+ JSON_stringify (JArr args).

(** The function [createCacheableFetch(fetchFn, cacheKey, cacheMaxAge,
    fallbackFn)] returns. *)
Definition createCacheableFetch (args : list JsVal) (st : St) : Outcome JsVal * St :=
  let key := cacheKeyWithArgs args in
  let '(cachedData, c1) := cache_get key cacheMaxAge (now (env st)) (cache st) in
  if truthy cachedData then
    (Return cachedData, mkSt c1 (env st) (fetch_calls st))
  else
    match fetchFn args (env st) with
    | (Return d, env1) =>
        (Return d, mkSt (cache_set key d (now env1) c1) env1 (S (fetch_calls st)))
    | (Throw error, env1) =>
        match fallbackFn with
        | Some fb =>
            let '(r, env2) := fb args env1 in
            (r, mkSt c1 env2 (S (fetch_calls st)))
        | None => (Throw error, mkSt c1 env1 (S (fetch_calls st)))
        end
    end.

(** Time passes and the world changes between two calls. *)
Definition later (e : Env) (st : St) : St := mkSt (cache st) e (fetch_calls st).

(** What a cache miss produces: the fetch, or the fallback when it throws. *)
Definition fresh_outcome (args : list JsVal) (e : Env) : Outcome JsVal :=
  match fetchFn args e with
  | (Return d, _) => Return d
  | (Throw error, e1) =>
      match fallbackFn with
      | Some fb => (fb args e1).1
      | None => Throw error
      end
  end.

(** *** Properties of the wrapped fetch *)

Lemma cache_get_live (key : string) (maxAge t ts : Z) (d : JsVal) (c : Cache) :
  timestamps c !! key = Some ts → ts ≠ 0%Z → (t - ts ≤ maxAge)%Z →
  data c !! key = Some d →
  cache_get key maxAge t c = (d, c).
Proof.
  intros Hts Hnz Hage Hd. unfold cache_get. rewrite Hts. simpl.
  destruct (Z.eqb_spec ts 0) as [->|_]; [done|].
  destruct (Z.gtb_spec (t - ts) maxAge) as [Hgt|_]; [lia|].
  by rewrite Hd.
Qed.

Lemma cache_get_expired (key : string) (maxAge t ts : Z) (c : Cache) :
  timestamps c !! key = Some ts → (t - ts > maxAge)%Z →
  (cache_get key maxAge t c).1 = JNull.
Proof.
  intros Hts Hage. unfold cache_get. rewrite Hts. simpl.
  destruct (ts =? 0)%Z; [done|].
  destruct (Z.gtb_spec (t - ts) maxAge) as [_|Hle]; [done|lia].
Qed.

Lemma cache_get_set (key : string) (d : JsVal) (ts : Z) (c : Cache) :
  data (cache_set key d ts c) !! key = Some d ∧
  timestamps (cache_set key d ts c) !! key = Some ts.
Proof. unfold cache_set. simpl. by rewrite !lookup_insert_eq. Qed.

Lemma miss_invokes_fetch (args : list JsVal) (st : St) :
  truthy (cache_get (cacheKeyWithArgs args) cacheMaxAge (now (env st)) (cache st)).1 = false →
  (createCacheableFetch args st).1 = fresh_outcome args (env st) ∧
  fetch_calls (createCacheableFetch args st).2 = S (fetch_calls st).
Proof.
  intros Hmiss. unfold createCacheableFetch, fresh_outcome.
  destruct (cache_get _ _ _ _) as [cachedData c1]. simpl in Hmiss. rewrite Hmiss.
  destruct (fetchFn args (env st)) as [[d|error] env1]; [done|].
  destruct fallbackFn as [fb|]; [|done].
  by destruct (fb args env1).
Qed.

Lemma hit_skips_fetch (args : list JsVal) (st : St) :
  truthy (cache_get (cacheKeyWithArgs args) cacheMaxAge (now (env st)) (cache st)).1 = true →
  (createCacheableFetch args st).1 =
    Return (cache_get (cacheKeyWithArgs args) cacheMaxAge (now (env st)) (cache st)).1 ∧
  fetch_calls (createCacheableFetch args st).2 = fetch_calls st.
Proof.
  intros Hhit. unfold createCacheableFetch.
  destruct (cache_get _ _ _ _) as [cachedData c1]. simpl in Hhit. by rewrite Hhit.
Qed.

(** C1 (amended): after a miss whose fetch returned [d], an identical call
    within [cacheMaxAge] of the store time returns [d] without invoking the
    fetch function, provided [d] is truthy and the store time is not 0; and
    an identical call more than [cacheMaxAge] after the store time invokes
    the fetch function again and returns what that invocation (or the
    fallback) produces, whatever [d] was. *)
Theorem cacheable_fetch_age_window (args : list JsVal) (st : St) (d : JsVal) (env1 : Env) :
  truthy (cache_get (cacheKeyWithArgs args) cacheMaxAge (now (env st)) (cache st)).1 = false →
  fetchFn args (env st) = (Return d, env1) →
  let st1 := (createCacheableFetch args st).2 in
  createCacheableFetch args st = (Return d, st1) ∧
  fetch_calls st1 = S (fetch_calls st) ∧
  (∀ e2 : Env,
      truthy d = true → now env1 ≠ 0%Z → (now e2 - now env1 ≤ cacheMaxAge)%Z →
      createCacheableFetch args (later e2 st1) = (Return d, later e2 st1)) ∧
  (∀ e2 : Env,
      (now e2 - now env1 > cacheMaxAge)%Z →
      (createCacheableFetch args (later e2 st1)).1 = fresh_outcome args e2 ∧
      fetch_calls (createCacheableFetch args (later e2 st1)).2 = S (fetch_calls st1)).
Proof.
  intros Hmiss Hfetch st1.
  assert (Hst1 : st1 = mkSt (cache_set (cacheKeyWithArgs args) d (now env1)
                    (cache_get (cacheKeyWithArgs args) cacheMaxAge (now (env st)) (cache st)).2)
                    env1 (S (fetch_calls st))).
  { subst st1. unfold createCacheableFetch.
    destruct (cache_get _ _ _ _) as [cachedData c1]. simpl in Hmiss. rewrite Hmiss.
    by rewrite Hfetch. }
  assert (Hcall : createCacheableFetch args st = (Return d, st1)).
  { rewrite Hst1. unfold createCacheableFetch.
    destruct (cache_get _ _ _ _) as [cachedData c1]. simpl in Hmiss. rewrite Hmiss.
    by rewrite Hfetch. }
  split; [exact Hcall|]. split; [by rewrite Hst1|].
  destruct (cache_get_set (cacheKeyWithArgs args) d (now env1)
              (cache_get (cacheKeyWithArgs args) cacheMaxAge (now (env st)) (cache st)).2)
    as [Hd Hts].
  split.
  - intros e2 Htruthy Hnz Hage.
    unfold createCacheableFetch, later. simpl. rewrite Hst1. simpl.
    rewrite (cache_get_live _ _ _ (now env1) d); [|done..].
    by rewrite Htruthy.
  - intros e2 Hage. apply (miss_invokes_fetch args (later e2 st1)).
    unfold later. simpl. rewrite Hst1. simpl.
    by rewrite (cache_get_expired _ _ _ (now env1)).
Qed.

End CacheableFetch.

(** *** The cache keeps a payload and a timestamp per entry *)

Lemma empty_cache_wf : cache_wf empty_cache.
Proof. intros key. simpl. by rewrite !lookup_empty. Qed.

Lemma cache_set_wf (key : string) (d : JsVal) (t : Z) (c : Cache) :
  cache_wf c → cache_wf (cache_set key d t c).
Proof.
  intros Hwf k. simpl. destruct (decide (key = k)) as [->|Hne].
  - rewrite !lookup_insert_eq. split; eauto.
  - rewrite !lookup_insert_ne by done. apply Hwf.
Qed.

Lemma cache_get_wf (key : string) (maxAge t : Z) (c : Cache) :
  cache_wf c → cache_wf (cache_get key maxAge t c).2.
Proof.
  intros Hwf. unfold cache_get. destruct (no_timestamp _); [done|].
  destruct (_ >? _)%Z; [|done]. intros k. simpl.
  destruct (decide (key = k)) as [->|Hne].
  - rewrite !lookup_delete_eq. split; intros [? ?]; done.
  - rewrite !lookup_delete_ne by done. apply Hwf.
Qed.

(** *** Prefix invalidation *)

Lemma prefix_iff_app (p key : string) :
  String.prefix p key = true ↔ ∃ rest, key = p +:+ rest.
Proof.
  revert key. induction p as [|a p IH]; intros key.
  - split; [intros _; by exists key|by destruct key].
  - destruct key as [|b key]; simpl.
    + split; [done|]. intros [rest Hrest]. discriminate Hrest.
    + destruct (ascii_dec a b) as [->|Hne].
      * rewrite IH. split; intros [rest Hrest]; exists rest.
        -- by rewrite Hrest.
        -- by injection Hrest.
      * split; [done|]. intros [rest Hrest]. injection Hrest as Hab _. by destruct Hne.
Qed.

Lemma elem_of_data_keys (c : Cache) (key : string) :
  key ∈ data_keys c ↔ is_Some (data c !! key).
Proof.
  unfold data_keys. rewrite list_elem_of_fmap. split.
  - intros [[k v] [-> Hin]]. apply elem_of_map_to_list in Hin. by exists v.
  - intros [v Hv]. exists (key, v). split; [done|]. by apply elem_of_map_to_list.
Qed.

Lemma foldl_delete_entry_data (keys : list string) (c : Cache) (key : string) :
  data (foldl delete_entry c keys) !! key =
    if decide (key ∈ keys) then None else data c !! key.
Proof.
  revert c. induction keys as [|k keys IH]; intros c; cbn [foldl].
  - rewrite decide_False; [done|]. apply not_elem_of_nil.
  - rewrite IH. cbn [delete_entry data timestamps].
    destruct (decide (key ∈ keys)) as [Hin|Hin].
    + rewrite decide_True; [done|]. by apply elem_of_cons; right.
    + destruct (decide (key = k)) as [->|Hne].
      * rewrite decide_True; [|by apply elem_of_cons; left].
        by rewrite lookup_delete_eq.
      * rewrite decide_False; [by rewrite lookup_delete_ne|].
        intros [?|?]%elem_of_cons; done.
Qed.

Lemma foldl_delete_entry_timestamps (keys : list string) (c : Cache) (key : string) :
  timestamps (foldl delete_entry c keys) !! key =
    if decide (key ∈ keys) then None else timestamps c !! key.
Proof.
  revert c. induction keys as [|k keys IH]; intros c; cbn [foldl].
  - rewrite decide_False; [done|]. apply not_elem_of_nil.
  - rewrite IH. cbn [delete_entry data timestamps].
    destruct (decide (key ∈ keys)) as [Hin|Hin].
    + rewrite decide_True; [done|]. by apply elem_of_cons; right.
    + destruct (decide (key = k)) as [->|Hne].
      * rewrite decide_True; [|by apply elem_of_cons; left].
        by rewrite lookup_delete_eq.
      * rewrite decide_False; [by rewrite lookup_delete_ne|].
        intros [?|?]%elem_of_cons; done.
Qed.

Lemma elem_of_keysToDelete (p : string) (c : Cache) (key : string) :
  key ∈ List.filter (λ k, String.prefix p k) (data_keys c) ↔
  String.prefix p key = true ∧ is_Some (data c !! key).
Proof.
  rewrite list_elem_of_In, filter_In, <- list_elem_of_In, elem_of_data_keys. tauto.
Qed.

(** C3: prefix invalidation deletes the payload and the timestamp of every
    entry whose key starts with the prefix, and leaves every other key's
    payload and timestamp as they were. *)
Theorem prefix_invalidation_exact (p : string) (c : Cache) (key : string) :
  let c' := invalidateCache p true c in
  (String.prefix p key = true →
     data c' !! key = None ∧
     (is_Some (data c !! key) → timestamps c' !! key = None) ∧
     (cache_wf c → timestamps c' !! key = None)) ∧
  (String.prefix p key = false →
     data c' !! key = data c !! key ∧
     timestamps c' !! key = timestamps c !! key) ∧
  (cache_wf c → cache_wf c').
Proof.
  assert (Hdata : ∀ k, data (invalidateCache p true c) !! k =
            if String.prefix p k then None else data c !! k).
  { intros k. unfold invalidateCache, cache_invalidate.
    rewrite foldl_delete_entry_data. case_decide as Hin.
    - apply elem_of_keysToDelete in Hin as [-> _]. done.
    - destruct (String.prefix p k) eqn:Hp; [|done].
      destruct (data c !! k) eqn:Hk; [|done].
      exfalso. apply Hin, elem_of_keysToDelete. eauto. }
  assert (Hts : ∀ k, timestamps (invalidateCache p true c) !! k =
            if String.prefix p k && bool_decide (is_Some (data c !! k))
            then None else timestamps c !! k).
  { intros k. unfold invalidateCache, cache_invalidate.
    rewrite foldl_delete_entry_timestamps. case_decide as Hin.
    - apply elem_of_keysToDelete in Hin as [-> Hsome].
      by rewrite bool_decide_eq_true_2.
    - destruct (String.prefix p k) eqn:Hp; [|done]. simpl.
      case_bool_decide as Hsome; [|done].
      exfalso. apply Hin, elem_of_keysToDelete. eauto. }
  intros c'. subst c'. split; [|split].
  - intros Hp. rewrite Hdata, Hts, Hp. simpl. split; [done|]. split.
    + intros Hsome. by rewrite bool_decide_eq_true_2.
    + intros Hwf. case_bool_decide as Hsome; [done|].
      destruct (timestamps c !! key) eqn:Hk; [|done].
      exfalso. apply Hsome, Hwf. eauto.
  - intros Hp. by rewrite Hdata, Hts, Hp.
  - intros Hwf k. rewrite Hdata, Hts.
    destruct (String.prefix p k); simpl; [|apply Hwf].
    case_bool_decide as Hsome.
    + split; intros [? ?]; done.
    + split; [intros [? ?]; done|]. intros Ht. exfalso. by apply Hsome, Hwf.
Qed.

(** *** Concrete runs *)

(** A fetch function that finds no row and resolves to [null]. *)
Definition fetch_null (args : list JsVal) : Async (E:=unit) JsVal :=
  λ e, (Return JNull, e).

(** A fetch function that resolves to one page of rows. *)
Definition fetch_page (args : list JsVal) : Async (E:=unit) JsVal :=
  λ e, (Return (JArr [JStr "row"]), e).

Definition start (t : Z) : St (E:=unit) := mkSt empty_cache (mkEnv t tt) 0.

Example full_key_of_published_page :
  cacheKeyWithArgs json_text "posts:published" [JNum 6; JNum 0] = "posts:published:[6,0]".
Proof. vm_compute. reflexivity. Qed.

(** A page fetched at time 1000 is served from the cache at time 61000 (age
    60000, not over the maximum) and fetched again at time 61001. *)
Example page_is_served_then_refetched :
  let call := createCacheableFetch json_text fetch_page "posts:published" 60000 None
                [JNum 6; JNum 0] in
  let st1 := (call (start 1000)).2 in
  fetch_calls st1 = 1 ∧
  fetch_calls (call (later (mkEnv 61000 tt) st1)).2 = 1 ∧
  fetch_calls (call (later (mkEnv 61001 tt) st1)).2 = 2.
Proof. vm_compute. repeat split; reflexivity. Qed.

(** The cached page [posts:published:[6,0]] is gone after the prefix
    [posts:published] is invalidated: the next identical call fetches. *)
Example invalidated_page_is_refetched :
  let call := createCacheableFetch json_text fetch_page "posts:published" 60000 None
                [JNum 6; JNum 0] in
  let st1 := (call (start 1000)).2 in
  let st2 := mkSt (invalidateCache "posts:published" true (cache st1)) (mkEnv 1001 tt)
               (fetch_calls st1) in
  data (cache st1) !! "posts:published:[6,0]" = Some (JArr [JStr "row"]) ∧
  data (cache st2) !! "posts:published:[6,0]" = None ∧
  fetch_calls (call st2).2 = 2.
Proof. vm_compute. repeat split; reflexivity. Qed.

(** C1 (as stated) fails: a fetch that resolves to [null], stored at time
    1000, is invoked again by the identical call at time 1001 although 60000
    ms have not elapsed. *)
Lemma falsy_payload_is_fetched_twice :
  let call := createCacheableFetch json_text fetch_null "posts:bySlug" 60000 None
                [JStr "nonexistent-slug"] in
  let st1 := (call (start 1000)).2 in
  let st2 := (call (later (mkEnv 1001 tt) st1)).2 in
  (call (start 1000)).1 = Return JNull ∧
  timestamps (cache st1) !!
    ("posts:bySlug:[" +:+ quote +:+ "nonexistent-slug" +:+ quote +:+ "]") = Some 1000%Z ∧
  (1001 - 1000 ≤ 60000)%Z ∧
  fetch_calls st1 = 1 ∧
  fetch_calls st2 = 2.
Proof. vm_compute. repeat split; try reflexivity. discriminate. Qed.

Lemma cacheable_fetch_age_window_witness :
  let call := createCacheableFetch json_text fetch_page "posts:published" 60000 None
                [JNum 6; JNum 0] in
  let st1 := (call (start 1000)).2 in
  call (start 1000) = (Return (JArr [JStr "row"]), st1) ∧
  fetch_calls st1 = 1 ∧
  (∀ e2 : Env,
      truthy (JArr [JStr "row"]) = true → 1000%Z ≠ 0%Z → (now e2 - 1000 ≤ 60000)%Z →
      call (later e2 st1) = (Return (JArr [JStr "row"]), later e2 st1)) ∧
  (∀ e2 : Env,
      (now e2 - 1000 > 60000)%Z →
      (call (later e2 st1)).1 =
        fresh_outcome fetch_page None [JNum 6; JNum 0] e2 ∧
      fetch_calls (call (later e2 st1)).2 = S (fetch_calls st1)).
Proof.
  apply (cacheable_fetch_age_window json_text fetch_page "posts:published" 60000 None
           [JNum 6; JNum 0] (start 1000) (JArr [JStr "row"]) (mkEnv 1000 tt)).
  - vm_compute. reflexivity.
  - reflexivity.
Defined.

End DataService.

(** ** utils/mockData.js: the static fallback dataset *)

Module MockData.

Definition category (id name slug created_at : string) : JsVal :=
  JObj [("id", JStr id); ("name", JStr name); ("slug", JStr slug);
        ("created_at", JStr created_at)].

Definition mockCategories : list JsVal :=
  [ category "1649b2bb-031b-416f-9277-a8ada9b1dfea" "Technology" "technology"
      "2024-01-01T00:00:00Z";
    category "d7efdb3b-6c15-42e6-9f37-5e7af86f4ff1" "Travel" "travel"
      "2024-01-01T00:00:00Z";
    category "de7e1f92-e3f1-4b91-8eb3-a5a6fba90c0d" "Lifestyle" "lifestyle"
      "2024-01-01T00:00:00Z";
    category "b9b5f12d-d4a5-4e3e-a4bc-3d0e30db0c18" "Design" "design"
      "2024-01-01T00:00:00Z";
    category "c5b8a573-ec83-4c0a-848c-ebc1c22a27a8" "Programming" "programming"
      "2024-01-01T00:00:00Z" ].

(** A post of the dataset. The [content] property (the Markdown body, a
    long template literal) is left out: no function of the data-access layer
    reads it. The embedded [categories] object carries id, name and slug. *)
Definition post (id title slug excerpt cover_path category_id : string)
    (published : bool) (published_at : string) (views likes : Z)
    (cat_name cat_slug : string) : JsVal :=
  JObj [("id", JStr id); ("title", JStr title); ("slug", JStr slug);
        ("excerpt", JStr excerpt); ("cover_path", JStr cover_path);
        ("category_id", JStr category_id); ("published", JBool published);
        ("published_at", JStr published_at); ("views", JNum views);
        ("likes", JNum likes);
        ("categories",
          JObj [("id", JStr category_id); ("name", JStr cat_name);
                ("slug", JStr cat_slug)])].

Definition mockPosts : list JsVal :=
  [ post "1649b2bb-031b-416f-9277-a8ada9b1dfeb"
      "Getting Started with React 19"
      "getting-started-with-react-19"
      "Learn the new features and improvements in React 19, including the new compiler and concurrent features that make your apps faster and more efficient."
      "https://picsum.photos/seed/react19/800/600"
      "1649b2bb-031b-416f-9277-a8ada9b1dfea"
      true "2024-09-10T12:00:00Z" 150 23 "Technology" "technology";
    post "d7efdb3b-6c15-42e6-9f37-5e7af86f4ff2"
      "Best Travel Destinations for 2024"
      "best-travel-destinations-2024"
      "Discover the most amazing places to visit in 2024, from hidden gems to popular hotspots. Complete with travel tips and budget recommendations."
      "https://picsum.photos/seed/thailand/800/600"
      "d7efdb3b-6c15-42e6-9f37-5e7af86f4ff1"
      true "2024-09-09T12:00:00Z" 89 12 "Travel" "travel";
    post "f9d68a5a-1a43-4d55-9eaf-e0f4337f1c0f"
      "The Art of Minimalist Web Design"
      "art-of-minimalist-web-design"
      "Explore the principles of minimalist web design and learn how to create clean, functional, and beautiful websites that focus on user experience."
      "https://picsum.photos/seed/design/800/600"
      "b9b5f12d-d4a5-4e3e-a4bc-3d0e30db0c18"
      true "2024-09-08T12:00:00Z" 67 8 "Design" "design";
    post "c5b8a573-ec83-4c0a-848c-ebc1c22a27a9"
      "Mastering Modern JavaScript: ES2024 Features"
      "mastering-modern-javascript-es2024"
      "Discover the latest JavaScript features in ES2024 and learn how to write more efficient, readable, and powerful code with practical examples."
      "https://picsum.photos/seed/javascript/800/600"
      "c5b8a573-ec83-4c0a-848c-ebc1c22a27a8"
      true "2024-09-07T12:00:00Z" 203 34 "Programming" "programming" ].

End MockData.

(** ** The browser and the remote store, as seen by the data-access layer

    Console output ([console.warn], [console.error]) has no effect on what
    the functions return or store and is left out. Functions with default
    parameters are embedded with every parameter explicit. *)

Module Runtime.

(** A value held by [localStorage] or [sessionStorage]: a string. It is
    either the JSON text of a value, or some other text ([JSON.parse]
    throws on it): a guest identifier, or corrupted data. *)
Inductive Text : Type :=
| JsonText (v : JsVal)
| Plain (s : string).

Definition text_string (t : Text) : string :=
  match t with
  | JsonText v => json_text v
  | Plain s => s
  end.

Abbreviation Storage := (gmap string Text).

(** [JSON.parse(item || '[]')], for [item] the result of [getItem]: [null]
    (no such key) and the empty string are falsy. *)
Definition parse_or_empty (item : option Text) : Outcome JsVal :=
  match item with
  | None => Return (JArr [])
  | Some (JsonText v) => Return v
  | Some (Plain EmptyString) => Return (JArr [])
  | Some (Plain _) => Throw (SyntaxError "Unexpected token")
  end.

(** [JSON.stringify(v)]: the JSON text of [v], which parses back to
    [json_roundtrip v]. *)
Definition JSON_stringify (v : JsVal) : Text := JsonText (json_roundtrip v).

(** *** Requests to the remote store

    The query builder of the store's client library is embedded as the
    request it builds. *)
Inductive Filter : Type :=
| Eq (column : string) (value : JsVal)
| Neq (column : string) (value : JsVal).

Inductive Rows : Type := Many | Single | MaybeSingle.

Record Select : Type := mkSelect {
  columns : string;
  filters : list Filter;
  order : option (string * bool);      (* column, ascending *)
  range : option (Z * Z);              (* from, to: both inclusive *)
  limit : option Z;
  rows : Rows;
  count_exact_head : bool
}.

Inductive Request : Type :=
| ReqSelect (table : string) (q : Select)
| ReqInsert (table : string) (values : list JsVal)
| ReqUpdate (table : string) (values : JsVal) (where_ : list Filter)
| ReqDelete (table : string) (where_ : list Filter).

(** What an awaited request resolves to: [{ data, error, count }]. *)
Record Response : Type := mkResponse {
  data : JsVal;
  error : JsVal;
  count : JsVal
}.

(** The world a service call runs in. [R] is the state of the remote store.
    [uuids] is what [crypto.randomUUID()] will return, call after call (none
    left: the call throws, as where [crypto.randomUUID] is missing);
    [randoms] is what [Math.floor(Math.random() * 50)] will return.
    [requests] and [increment_calls] record, for the statements below, the
    requests sent to the store and the post ids [postsService.incrementViews]
    was called with. *)
Record World {R : Type} : Type := mkWorld {
  VITE_SUPABASE_URL : JsVal;
  VITE_SUPABASE_ANON_KEY : JsVal;
  localStorage : Storage;
  sessionStorage : Storage;
  remote : R;
  uuids : list string;
  randoms : list Z;
  requests : list Request;
  increment_calls : list JsVal
}.
Arguments World R : clear implicits.
Arguments mkWorld {R}.

Section Monad.
Context {R : Type}.

(** An asynchronous function body: it runs in a world and settles. *)
Definition M (A : Type) : Type := World R → Outcome A * World R.

Definition ret {A} (a : A) : M A := λ w, (Return a, w).

Definition throw {A} (e : JsVal) : M A := λ w, (Throw e, w).

Definition bind {A B} (m : M A) (k : A → M B) : M B :=
  λ w, match m w with
       | (Return a, w') => k a w'
       | (Throw e, w') => (Throw e, w')
       end.

(** [try { body } catch (error) { handler }] *)
Definition try_catch {A} (body : M A) (handler : JsVal → M A) : M A :=
  λ w, match body w with
       | (Return a, w') => (Return a, w')
       | (Throw e, w') => handler e w'
       end.

(** A synchronous expression that may throw. *)
Definition lift {A} (o : Outcome A) : M A := λ w, (o, w).

Definition get_world : M (World R) := λ w, (Return w, w).

(** [localStorage.getItem(key)] and [localStorage.setItem(key, text)] *)
Definition localStorage_getItem (key : string) : M (option Text) :=
  λ w, (Return (localStorage w !! key), w).

Definition localStorage_setItem (key : string) (text : Text) : M unit :=
  λ w, (Return tt,
        mkWorld (VITE_SUPABASE_URL w) (VITE_SUPABASE_ANON_KEY w)
          (<[key := text]> (localStorage w)) (sessionStorage w)
          (remote w) (uuids w) (randoms w) (requests w) (increment_calls w)).

(** [sessionStorage.getItem(key)] and [sessionStorage.setItem(key, text)] *)
Definition sessionStorage_getItem (key : string) : M (option Text) :=
  λ w, (Return (sessionStorage w !! key), w).

Definition sessionStorage_setItem (key : string) (text : Text) : M unit :=
  λ w, (Return tt,
        mkWorld (VITE_SUPABASE_URL w) (VITE_SUPABASE_ANON_KEY w) (localStorage w)
          (<[key := text]> (sessionStorage w))
          (remote w) (uuids w) (randoms w) (requests w) (increment_calls w)).

(** [crypto.randomUUID()] *)
Definition randomUUID : M string :=
  λ w, match uuids w with
       | [] => (Throw (TypeError "crypto.randomUUID is not a function"), w)
       | u :: rest =>
           (Return u,
            mkWorld (VITE_SUPABASE_URL w) (VITE_SUPABASE_ANON_KEY w) (localStorage w)
              (sessionStorage w) (remote w) rest (randoms w) (requests w)
              (increment_calls w))
       end.

(** [Math.floor(Math.random() * n)] for a positive integer [n]. *)
Definition random_below (n : Z) : M Z :=
  λ w, match randoms w with
       | [] => (Return 0%Z, w)
       | r :: rest =>
           (Return (r mod n)%Z,
            mkWorld (VITE_SUPABASE_URL w) (VITE_SUPABASE_ANON_KEY w) (localStorage w)
              (sessionStorage w) (remote w) (uuids w) rest (requests w)
              (increment_calls w))
       end.

Definition note_increment (postId : JsVal) : M unit :=
  λ w, (Return tt,
        mkWorld (VITE_SUPABASE_URL w) (VITE_SUPABASE_ANON_KEY w) (localStorage w)
          (sessionStorage w) (remote w) (uuids w) (randoms w) (requests w)
          (increment_calls w ++ [postId])).

(** The remote store: it answers a request with a response, possibly
    changing its state, or the awaited call rejects. *)
Definition Store : Type := Request → R → Outcome Response * R.

(** [await supabase.from(...)...] *)
Definition await_request (supabase : Store) (req : Request) : M Response :=
  λ w, let '(o, r') := supabase req (remote w) in
       (o,
        mkWorld (VITE_SUPABASE_URL w) (VITE_SUPABASE_ANON_KEY w) (localStorage w)
          (sessionStorage w) r' (uuids w) (randoms w) (requests w ++ [req])
          (increment_calls w)).

End Monad.

#[export] Instance M_ret {R : Type} : MRet (@M R) := @ret R.
#[export] Instance M_bind {R : Type} : MBind (@M R) := λ A B k m, bind m k.

(** *** Reasoning about runs *)

Section Runs.
Context {R : Type}.

(** Every value [m] can return satisfies [Q]. *)
Definition yields {A} (Q : A → Prop) (m : M (R:=R) A) : Prop :=
  ∀ w a w', m w = (Return a, w') → Q a.

(** [m] never throws. *)
Definition resolves {A} (m : M (R:=R) A) : Prop :=
  ∀ w, ∃ a w', m w = (Return a, w').

(** Every run of [m] relates the world before to the world after by [P]. *)
Definition keeps {A} (P : World R → World R → Prop) (m : M (R:=R) A) : Prop :=
  ∀ w, P w (m w).2.

Lemma yields_ret {A} (Q : A → Prop) (a : A) : Q a → yields Q (mret a).
Proof. intros HQ w a' w' [= <- _]. exact HQ. Qed.

Lemma yields_throw {A} (Q : A → Prop) (e : JsVal) : yields Q (throw e).
Proof. intros w a w' [=]. Qed.

Lemma yields_bind {A B} (P : A → Prop) (Q : B → Prop) (m : M A) (k : A → M B) :
  yields P m → (∀ a, P a → yields Q (k a)) → yields Q (m ≫= k).
Proof.
  intros Hm Hk w b w'. unfold mbind, M_bind, bind.
  destruct (m w) as [[a|e] w1] eqn:Hrun; [|done].
  intros Hb. eapply Hk; [|exact Hb]. eapply Hm, Hrun.
Qed.

Lemma yields_bind_any {A B} (Q : B → Prop) (m : M A) (k : A → M B) :
  (∀ a, yields Q (k a)) → yields Q (m ≫= k).
Proof.
  intros Hk. apply (yields_bind (λ _, True)); [done|]. intros a _. apply Hk.
Qed.

Lemma yields_try_catch {A} (Q : A → Prop) (body : M A) (handler : JsVal → M A) :
  yields Q body → (∀ e, yields Q (handler e)) → yields Q (try_catch body handler).
Proof.
  intros Hb Hh w a w'. unfold try_catch.
  destruct (body w) as [[a1|e] w1] eqn:Hrun.
  - intros [= <- <-]. eapply Hb, Hrun.
  - apply Hh.
Qed.

Lemma resolves_ret {A} (a : A) : resolves (mret a).
Proof. intros w. by exists a, w. Qed.

Lemma resolves_try_catch {A} (body : M A) (handler : JsVal → M A) :
  (∀ e, resolves (handler e)) → resolves (try_catch body handler).
Proof.
  intros Hh w. unfold try_catch. destruct (body w) as [[a|e] w1]; [by eauto|].
  apply Hh.
Qed.

Lemma resolves_bind {A B} (m : M A) (k : A → M B) :
  resolves m → (∀ a, resolves (k a)) → resolves (m ≫= k).
Proof.
  intros Hm Hk w. unfold mbind, M_bind, bind.
  destruct (Hm w) as (a & w1 & ->). apply Hk.
Qed.

Lemma resolves_get_world : resolves (get_world (R:=R)).
Proof. intros w. by exists w, w. Qed.

Section Keeps.
Variable P : World R → World R → Prop.
Hypothesis P_refl : ∀ w, P w w.
Hypothesis P_trans : ∀ w1 w2 w3, P w1 w2 → P w2 w3 → P w1 w3.

Lemma keeps_ret {A} (a : A) : keeps P (mret a).
Proof. intros w. apply P_refl. Qed.

Lemma keeps_throw {A} (e : JsVal) : keeps P (throw (A:=A) e).
Proof. intros w. apply P_refl. Qed.

Lemma keeps_lift {A} (o : Outcome A) : keeps P (lift o).
Proof. intros w. apply P_refl. Qed.

Lemma keeps_get_world : keeps P get_world.
Proof. intros w. apply P_refl. Qed.

Lemma keeps_bind {A B} (m : M A) (k : A → M B) :
  keeps P m → (∀ a, keeps P (k a)) → keeps P (m ≫= k).
Proof.
  intros Hm Hk w. unfold mbind, M_bind, bind.
  specialize (Hm w). destruct (m w) as [[a|e] w1]; simpl in *; [|done].
  eapply P_trans; [exact Hm|apply Hk].
Qed.

Lemma keeps_try_catch {A} (body : M A) (handler : JsVal → M A) :
  keeps P body → (∀ e, keeps P (handler e)) → keeps P (try_catch body handler).
Proof.
  intros Hb Hh w. unfold try_catch.
  specialize (Hb w). destruct (body w) as [[a|e] w1]; simpl in *; [done|].
  eapply P_trans; [exact Hb|apply Hh].
Qed.

End Keeps.

End Runs.

End Runtime.

(** ** services/supabase.js and services/api.js *)

Module Api.
Import Runtime MockData.

Section Services.
Context {R : Type}.

(** The client of the remote store. *)
Variable supabase : Store (R:=R).

(** [isSupabaseConfigured()] *)
Definition isSupabaseConfigured (w : World R) : JsVal :=
  js_and (VITE_SUPABASE_URL w) (VITE_SUPABASE_ANON_KEY w).

Definition configured (w : World R) : bool := truthy (isSupabaseConfigured w).

Definition guest (guestId : string) : JsVal :=
  JObj [("user", JObj [("id", JStr guestId)])].

(** [signInAnonymously()] of services/supabase.js *)
Definition signInAnonymously : M (R:=R) JsVal :=
  w ← get_world;
  if negb (truthy (VITE_SUPABASE_URL w)) || negb (truthy (VITE_SUPABASE_ANON_KEY w))
  then mret JNull
  else
    try_catch
      (item ← localStorage_getItem "blog_guest_id";
       match text_string <$> item with
       | Some (String a rest) => mret (guest (String a rest))
       | _ =>
           guestId ← randomUUID;
           localStorage_setItem "blog_guest_id" (Plain guestId);;
           mret (guest guestId)
       end)
      (λ _, mret JNull).

Definition select_all_categories : Request :=
  ReqSelect "categories"
    (mkSelect "*" [] (Some ("name", true)) None None Many false).

(** [categoriesService.getAll()] *)
Definition categories_getAll : M (R:=R) JsVal :=
  w ← get_world;
  if negb (configured w) then mret (JArr mockCategories)
  else
    try_catch
      (r ← await_request supabase select_all_categories;
       if truthy (error r) then throw (error r)
       else mret (js_or (data r) (JArr [])))
      (λ _, mret (JArr mockCategories)).

Definition select_published (limit offset : Z) : Request :=
  ReqSelect "posts"
    (mkSelect "*, categories (*)" [] (Some ("published_at", false))
       (Some (offset, offset + limit - 1)%Z) None Many false).

(** [postsService.getPublished(limit, offset)] *)
Definition posts_getPublished (limit offset : Z) : M (R:=R) JsVal :=
  w ← get_world;
  if negb (configured w) then mret (JArr (js_slice mockPosts offset (offset + limit)))
  else
    try_catch
      (r ← await_request supabase (select_published limit offset);
       if truthy (error r) then throw (error r)
       else mret (js_or (data r) (JArr [])))
      (λ _, mret (JArr (js_slice mockPosts offset (offset + limit)))).

Definition select_post_by_slug (slug : JsVal) : Request :=
  ReqSelect "posts"
    (mkSelect "*, categories (*)" [Eq "slug" slug] None None None Single false).

(** [mockPosts.find(post => post.slug === slug) || null] *)
Definition mock_post_by_slug (slug : JsVal) : JsVal :=
  js_or (js_find (λ post, strict_eq (field post "slug") slug) mockPosts) JNull.

(** [postsService.getBySlug(slug)] *)
Definition posts_getBySlug (slug : JsVal) : M (R:=R) JsVal :=
  w ← get_world;
  if negb (configured w) then mret (mock_post_by_slug slug)
  else
    try_catch
      (r ← await_request supabase (select_post_by_slug slug);
       if truthy (error r) then throw (error r)
       else mret (data r))
      (λ _, mret (mock_post_by_slug slug)).

Definition select_views (postId : JsVal) : Request :=
  ReqSelect "posts" (mkSelect "views" [Eq "id" postId] None None None Single false).

Definition update_views (postId views : JsVal) : Request :=
  ReqUpdate "posts" (JObj [("views", views)]) [Eq "id" postId].

(** [postsService.incrementViews(postId)] *)
Definition posts_incrementViews (postId : JsVal) : M (R:=R) JsVal :=
  note_increment postId;;
  w ← get_world;
  if negb (configured w) then mret (JBool true)
  else
    try_catch
      (r ← await_request supabase (select_views postId);
       if truthy (error r) then throw (error r)
       else
         views ← lift (prop (data r) "views");
         u ← await_request supabase
               (update_views postId (js_add (js_or views (JNum 0)) (JNum 1)));
         if truthy (error u) then throw (error u)
         else mret (JBool true))
      (λ _, mret (JBool false)).

Definition delete_like (postId userId : JsVal) : Request :=
  ReqDelete "likes" [Eq "post_id" postId; Eq "user_id" userId].

Definition insert_like (postId userId : JsVal) : Request :=
  ReqInsert "likes" [JObj [("post_id", postId); ("user_id", userId)]].

Definition select_likes_counter (postId : JsVal) : Request :=
  ReqSelect "posts" (mkSelect "likes" [Eq "id" postId] None None None Single false).

Definition count_like_rows (postId : JsVal) : Request :=
  ReqSelect "likes" (mkSelect "id" [Eq "post_id" postId] None None None Many true).

(** [engagementService.toggleLike(postId, isLiked)] *)
Definition engagement_toggleLike (postId : JsVal) (isLiked : bool) : M (R:=R) JsVal :=
  w ← get_world;
  if negb (configured w) then mret (JBool true)
  else
    try_catch
      (authData ← signInAnonymously;
       let userId := opt_prop (opt_prop authData "user") "id" in
       if negb (truthy userId) then mret (JBool true)
       else
         (if isLiked then
            del ← await_request supabase (delete_like postId userId);
            if truthy (error del) then throw (error del) else mret tt
          else
            ins ← await_request supabase (insert_like postId userId);
            if truthy (error ins) && negb (strict_eq (field (error ins) "code") (JStr "23505"))
            then throw (error ins) else mret tt);;
         updated ← await_request supabase (select_likes_counter postId);
         if negb (truthy (error updated)) && truthy (data updated)
         then mret (js_coalesce (field (data updated) "likes") (JBool true))
         else
           counted ← await_request supabase (count_like_rows postId);
           if negb (truthy (error counted)) && is_number (count counted)
           then mret (count counted)
           else mret (JBool true))
      (λ _, mret (JBool true)).

(** [engagementService.getLikes(postId)] *)
Definition engagement_getLikes (postId : JsVal) : M (R:=R) JsVal :=
  w ← get_world;
  if negb (configured w) then n ← random_below 50; mret (JNum n)
  else
    try_catch
      (r ← await_request supabase (select_likes_counter postId);
       if negb (truthy (error r)) && truthy (data r)
       then mret (js_or (field (data r) "likes") (JNum 0))
       else
         counted ← await_request supabase (count_like_rows postId);
         if truthy (error counted) then throw (error counted)
         else mret (if is_number (count counted) then count counted else JNum 0))
      (λ _, mret (JNum 0)).

Definition select_like (postId userId : JsVal) : Request :=
  ReqSelect "likes"
    (mkSelect "id" [Eq "post_id" postId; Eq "user_id" userId] None None None
       MaybeSingle false).

(** [engagementService.hasLiked(postId, userId)] *)
Definition engagement_hasLiked (postId userId : JsVal) : M (R:=R) JsVal :=
  w ← get_world;
  if negb (configured w) || negb (truthy postId) || negb (truthy userId) then
    try_catch
      (item ← localStorage_getItem "likedPosts";
       likedPosts ← lift (parse_or_empty item);
       liked ← lift (js_includes likedPosts postId);
       mret (JBool liked))
      (λ _, mret (JBool false))
  else
    try_catch
      (r ← await_request supabase (select_like postId userId);
       if truthy (error r) then throw (error r)
       else mret (JBool (truthy (data r))))
      (λ _, mret (JBool false)).

End Services.

End Api.

(** ** A reference remote store

    The remote database is not code of this repository; what the services
    rely on is the schema of the SQL setup script: the tables [categories],
    [posts] and [likes], the uniqueness of (post_id, user_id) in [likes], the
    trigger that keeps [posts.likes] in step with the rows of [likes], and
    the row-level policies. This store answers the requests of the services
    over such tables. The row-level policy for selects on [posts] is a
    parameter (the setup script's policy is [published = true]). It serves
    to state what a request means and to run the services; the services
    above are defined over any store. *)

Module ReferenceStore.
Import Runtime.

Record Db : Type := mkDb {
  categories : list JsVal;
  posts : list JsVal;
  likes : list JsVal;
  posts_policy : JsVal → bool;    (* rows of [posts] a select may see *)
  online : bool;
  serial : Z                      (* the next generated row id *)
}.

(** Order of column values: booleans, numbers, strings by their own order;
    [null] after every value, as the database sorts it. *)
Definition rank (v : JsVal) : nat :=
  match v with
  | JBool _ => 0 | JNum _ => 1 | JStr _ => 2 | JArr _ => 3 | JObj _ => 4
  | JUndefined => 5 | JNull => 6
  end.

Definition value_leb (a b : JsVal) : bool :=
  match a, b with
  | JBool x, JBool y => implb x y
  | JNum x, JNum y => (x <=? y)%Z
  | JStr x, JStr y => String.leb x y
  | _, _ => rank a <=? rank b
  end.

(** [ORDER BY column ASC] or [DESC]: is [a] allowed before [b]? *)
Definition before (column : string) (ascending : bool) (a b : JsVal) : bool :=
  if ascending then value_leb (field a column) (field b column)
  else value_leb (field b column) (field a column).

Fixpoint insert_row (le : JsVal → JsVal → bool) (x : JsVal) (l : list JsVal) : list JsVal :=
  match l with
  | [] => [x]
  | y :: rest => if le x y then x :: y :: rest else y :: insert_row le x rest
  end.

Fixpoint sort_rows (le : JsVal → JsVal → bool) (l : list JsVal) : list JsVal :=
  match l with
  | [] => []
  | x :: rest => insert_row le x (sort_rows le rest)
  end.

Definition matches (f : Filter) (row : JsVal) : bool :=
  match f with
  | Eq column value => strict_eq (field row column) value
  | Neq column value => negb (strict_eq (field row column) value)
  end.

Definition with_field (row : JsVal) (k : string) (x : JsVal) : JsVal :=
  match row with
  | JObj fields =>
      JObj (List.filter (λ kv, negb (String.eqb (fst kv) k)) fields ++ [(k, x)])
  | _ => row
  end.

(** The category a post row references, [null] when there is none. *)
Definition category_of (cats : list JsVal) (post : JsVal) : JsVal :=
  js_or (js_find (λ c, strict_eq (field c "id") (field post "category_id")) cats) JNull.

(** The selected columns of a row. *)
Definition project (db : Db) (cols : string) (row : JsVal) : JsVal :=
  if String.eqb cols "*" then row
  else if String.eqb cols "*, categories (*)" then
    with_field row "categories" (category_of (categories db) row)
  else JObj [(cols, field row cols)].

Definition visible (db : Db) (table : string) : option (list JsVal) :=
  if String.eqb table "categories" then Some (categories db)
  else if String.eqb table "posts" then Some (List.filter (posts_policy db) (posts db))
  else if String.eqb table "likes" then Some (likes db)
  else None.

(** Rows [from .. to] of a result, both inclusive. *)
Definition in_range (r : option (Z * Z)) (l : list JsVal) : list JsVal :=
  match r with
  | None => l
  | Some (from, to) =>
      firstn (Z.to_nat (to - from + 1)) (skipn (Z.to_nat from) l)
  end.

Definition limited (n : option Z) (l : list JsVal) : list JsVal :=
  match n with
  | None => l
  | Some k => firstn (Z.to_nat k) l
  end.

Definition ordered (o : option (string * bool)) (l : list JsVal) : list JsVal :=
  match o with
  | None => l
  | Some (column, ascending) => sort_rows (before column ascending) l
  end.

Definition store_error (code message : string) : JsVal :=
  JObj [("code", JStr code); ("message", JStr message)].

Definition failed (e : JsVal) : Response := mkResponse JNull e JNull.

Definition bad_range (r : option (Z * Z)) : bool :=
  match r with
  | Some (from, _) => (from <? 0)%Z
  | None => false
  end.

Definition select (db : Db) (table : string) (q : Select) : Response :=
  match visible db table with
  | None => failed (store_error "42P01" "relation does not exist")
  | Some all =>
      if bad_range (range q) then failed (store_error "PGRST103" "range not satisfiable")
      else
        let found := List.filter (λ row, forallb (λ f, matches f row) (filters q)) all in
        let result :=
          map (project db (columns q))
            (limited (limit q) (in_range (range q) (ordered (order q) found))) in
        if count_exact_head q then
          mkResponse JNull JNull (JNum (Z.of_nat (length found)))
        else
          match rows q, result with
          | Many, _ => mkResponse (JArr result) JNull JNull
          | Single, [row] => mkResponse row JNull JNull
          | MaybeSingle, [row] => mkResponse row JNull JNull
          | MaybeSingle, [] => mkResponse JNull JNull JNull
          | _, _ => failed (store_error "PGRST116" "JSON object requested, multiple (or no) rows returned")
          end
  end.

Definition done : Response := mkResponse JNull JNull JNull.

(** The trigger [update_post_likes_count]: [likes = likes + delta] on the
    post a like row names. *)
Definition bump_likes (postId : JsVal) (delta : Z) (post : JsVal) : JsVal :=
  if strict_eq (field post "id") postId
  then with_field post "likes" (js_add (field post "likes") (JNum delta))
  else post.

Definition same_like (a b : JsVal) : bool :=
  strict_eq (field a "post_id") (field b "post_id") &&
  strict_eq (field a "user_id") (field b "user_id").

(** [INSERT INTO likes]: the pair must be new and the post must exist. *)
Definition insert_like_row (db : Db) (row : JsVal) : Response * Db :=
  if existsb (same_like row) (likes db) then
    (failed (store_error "23505" "duplicate key value violates unique constraint"), db)
  else if negb (existsb (λ p, strict_eq (field p "id") (field row "post_id")) (posts db)) then
    (failed (store_error "23503" "violates foreign key constraint"), db)
  else
    (done,
     mkDb (categories db)
       (map (bump_likes (field row "post_id") 1) (posts db))
       (likes db ++ [with_field row "id" (JNum (serial db))])
       (posts_policy db) (online db) (serial db + 1)).

Fixpoint insert_like_rows (db : Db) (values : list JsVal) : Response * Db :=
  match values with
  | [] => (done, db)
  | row :: rest =>
      match insert_like_row db row with
      | (r, db') => if truthy (error r) then (r, db) else insert_like_rows db' rest
      end
  end.

(** [DELETE FROM likes WHERE ...] *)
Definition delete_like_rows (db : Db) (where_ : list Filter) : Db :=
  let doomed := List.filter (λ row, forallb (λ f, matches f row) where_) (likes db) in
  mkDb (categories db)
    (fold_left (λ ps row, map (bump_likes (field row "post_id") (-1)) ps) doomed (posts db))
    (List.filter (λ row, negb (forallb (λ f, matches f row) where_)) (likes db))
    (posts_policy db) (online db) (serial db).

(** The store as a [Store]. Unreachable, every request resolves to an error
    response. Reachable, it answers selects; it inserts into and deletes
    from [likes]; the other writes meet no policy that allows them: an
    insert is refused, an update or delete touches no row. *)
Definition answer : Store (R:=Db) :=
  λ req db,
    if negb (online db) then (Return (failed (store_error "" "TypeError: Failed to fetch")), db)
    else
      match req with
      | ReqSelect table q => (Return (select db table q), db)
      | ReqInsert table values =>
          if String.eqb table "likes" then
            let '(r, db') := insert_like_rows db values in (Return r, db')
          else (Return (failed (store_error "42501" "row-level security policy")), db)
      | ReqDelete table where_ =>
          if String.eqb table "likes" then (Return done, delete_like_rows db where_)
          else (Return done, db)
      | ReqUpdate _ _ _ => (Return done, db)
      end.

End ReferenceStore.

(** ** Properties of the services *)

Module ApiFacts.
Import Runtime MockData Api.

Lemma strict_eq_true (a b : JsVal) : strict_eq a b = true → a = b.
Proof.
  destruct a, b; simpl; try done.
  - intros H. f_equal. by apply Bool.eqb_prop.
  - intros H. f_equal. by apply Z.eqb_eq.
  - intros H. f_equal. by apply String.eqb_eq.
Qed.

Lemma js_find_none (pred : JsVal → bool) (l : list JsVal) :
  (∀ x, x ∈ l → pred x = false) → js_find pred l = JUndefined.
Proof.
  intros H. unfold js_find. destruct (List.find pred l) as [x|] eqn:Hfind; [|done].
  apply find_some in Hfind as [Hin Hx]. apply list_elem_of_In in Hin.
  rewrite (H x Hin) in Hx. done.
Qed.

(** *** Order, windows and joins *)

(** Adjacent rows are in order. *)
Fixpoint sortedb (le : JsVal → JsVal → bool) (l : list JsVal) : bool :=
  match l with
  | [] => true
  | x :: rest =>
      match rest with
      | [] => true
      | y :: _ => le x y && sortedb le rest
      end
  end.

(** The rows at positions [offset, offset + limit). *)
Definition window (offset limit : Z) (l : list JsVal) : list JsVal :=
  firstn (Z.to_nat limit) (skipn (Z.to_nat offset) l).

Definition published (p : JsVal) : Prop := field p "published" = JBool true.

Definition newest_first (l : list JsVal) : Prop :=
  sortedb (ReferenceStore.before "published_at" false) l = true.

Definition by_name (l : list JsVal) : Prop :=
  sortedb (ReferenceStore.before "name" true) l = true.


(** The awaited request rejects, or resolves with an error. *)
Definition request_fails {R} (supabase : Store (R:=R)) (req : Request) (s : R) : Prop :=
  match supabase req s with
  | (Return r, _) => truthy (error r) = true
  | (Throw _, _) => True
  end.

Lemma value_leb_total (a b : JsVal) :
  ReferenceStore.value_leb a b = true ∨ ReferenceStore.value_leb b a = true.
Proof.
  destruct a, b; simpl; try (by left); try (by right).
  - destruct b, b0; simpl; auto.
  - destruct (Z.leb_spec n n0); [by left|right]. apply Z.leb_le. lia.
  - apply String.leb_total.
Qed.

Lemma before_total (column : string) (ascending : bool) (a b : JsVal) :
  ReferenceStore.before column ascending a b = true ∨
  ReferenceStore.before column ascending b a = true.
Proof.
  unfold ReferenceStore.before. destruct ascending; [apply value_leb_total|].
  destruct (value_leb_total (field a column) (field b column)); auto.
Qed.

Section Sorting.
Variable le : JsVal → JsVal → bool.
Hypothesis le_total : ∀ a b, le a b = true ∨ le b a = true.

Lemma sortedb_cons (x : JsVal) (l : list JsVal) :
  sortedb le (x :: l) = true ↔
  (match l with [] => True | y :: _ => le x y = true end) ∧ sortedb le l = true.
Proof.
  destruct l as [|y l]; simpl; [tauto|]. rewrite andb_true_iff. tauto.
Qed.

Lemma insert_row_head (x y : JsVal) (l : list JsVal) :
  ∃ z rest, ReferenceStore.insert_row le x (y :: l) = z :: rest ∧ (z = x ∨ z = y).
Proof. simpl. destruct (le x y); eauto. Qed.

Lemma insert_row_sorted (x : JsVal) (l : list JsVal) :
  sortedb le l = true → sortedb le (ReferenceStore.insert_row le x l) = true.
Proof.
  induction l as [|y l IH]; [done|]. intros Hs.
  cbn [ReferenceStore.insert_row]. destruct (le x y) eqn:Hxy.
  - apply sortedb_cons. by split.
  - apply sortedb_cons in Hs as [Hhd Hs]. apply sortedb_cons. split; [|by apply IH].
    destruct l as [|z l]; simpl.
    + destruct (le_total x y) as [H|H]; [congruence|done].
    + destruct (le x z); [|done].
      destruct (le_total x y) as [H|H]; [congruence|done].
Qed.

Lemma sort_rows_sorted (l : list JsVal) : sortedb le (ReferenceStore.sort_rows le l) = true.
Proof. induction l as [|x l IH]; [done|]. simpl. by apply insert_row_sorted. Qed.

Lemma insert_row_perm (x : JsVal) (l : list JsVal) :
  ReferenceStore.insert_row le x l ≡ₚ x :: l.
Proof.
  induction l as [|y l IH]; [done|]. simpl. destruct (le x y); [done|].
  rewrite IH. apply Permutation_swap.
Qed.

Lemma sort_rows_perm (l : list JsVal) : ReferenceStore.sort_rows le l ≡ₚ l.
Proof.
  induction l as [|x l IH]; [done|]. simpl. by rewrite insert_row_perm, IH.
Qed.

End Sorting.

Lemma sortedb_tail (le : JsVal → JsVal → bool) (x : JsVal) (l : list JsVal) :
  sortedb le (x :: l) = true → sortedb le l = true.
Proof. destruct l as [|y l]; simpl; [done|]. by intros [_ ?]%andb_true_iff. Qed.

Lemma sortedb_skipn (le : JsVal → JsVal → bool) (n : nat) (l : list JsVal) :
  sortedb le l = true → sortedb le (skipn n l) = true.
Proof.
  revert l. induction n as [|n IH]; intros l Hs; [done|].
  destruct l as [|x l]; [done|]. simpl. apply IH. by eapply sortedb_tail.
Qed.

Lemma sortedb_firstn (le : JsVal → JsVal → bool) (n : nat) (l : list JsVal) :
  sortedb le l = true → sortedb le (firstn n l) = true.
Proof.
  revert l. induction n as [|n IH]; intros l Hs; [done|].
  destruct l as [|x l]; [done|]. cbn [firstn].
  destruct l as [|y l]; [by destruct n|].
  simpl in Hs. apply andb_true_iff in Hs as [Hxy Hs].
  specialize (IH (y :: l) Hs). destruct n as [|n]; [done|].
  cbn [firstn] in *. simpl. by rewrite Hxy.
Qed.

Lemma sortedb_window (le : JsVal → JsVal → bool) (offset limit : Z) (l : list JsVal) :
  sortedb le l = true → sortedb le (window offset limit l) = true.
Proof. intros Hs. unfold window. by apply sortedb_firstn, sortedb_skipn. Qed.

(** Mapping rows without changing what the order looks at keeps the order. *)
Lemma sortedb_map (le : JsVal → JsVal → bool) (f : JsVal → JsVal) (l : list JsVal) :
  (∀ a b, le (f a) (f b) = le a b) → sortedb le (map f l) = sortedb le l.
Proof.
  intros Hf. induction l as [|x l IH]; [done|].
  destruct l as [|y l]; [done|]. cbn [map sortedb] in *. by rewrite Hf, IH.
Qed.

Lemma window_subset (offset limit : Z) (l : list JsVal) (x : JsVal) :
  x ∈ window offset limit l → x ∈ l.
Proof.
  unfold window. intros Hx. by apply subseteq_take, subseteq_drop in Hx.
Qed.

(** On a non-negative offset and limit, [slice(offset, offset + limit)] is
    the window. *)
Lemma js_slice_window (offset limit : Z) (l : list JsVal) :
  (0 ≤ offset)%Z → (0 ≤ limit)%Z →
  js_slice l offset (offset + limit) = window offset limit l.
Proof.
  intros Ho Hl. unfold js_slice, window.
  destruct (Z.ltb_spec offset 0) as [?|_]; [lia|].
  destruct (Z.ltb_spec (offset + limit) 0) as [?|_]; [lia|].
  destruct (Z.le_gt_cases (Z.of_nat (length l)) offset) as [Hbig|Hsmall].
  - rewrite Z.min_r by lia.
    rewrite !skipn_all2 by lia. by rewrite !firstn_nil.
  - rewrite (Z.min_l offset) by lia.
    destruct (Z.le_gt_cases (Z.of_nat (length l)) (offset + limit)) as [Hend|Hend].
    + rewrite Z.min_r by lia.
      rewrite !firstn_all2; [done| |]; rewrite length_skipn; lia.
    + rewrite Z.min_l by lia. f_equal. lia.
Qed.

Lemma in_range_window (offset limit : Z) (l : list JsVal) :
  ReferenceStore.in_range (Some (offset, offset + limit - 1)%Z) l = window offset limit l.
Proof. unfold ReferenceStore.in_range, window. do 2 f_equal. lia. Qed.

Lemma filter_all (l : list JsVal) : List.filter (λ _, true) l = l.
Proof. induction l as [|x l IH]; [done|]. simpl. by rewrite IH. Qed.

Lemma assoc_filter_ne (k k' : string) (fields : list (string * JsVal)) :
  k ≠ k' →
  assoc k' (List.filter (λ kv, negb (String.eqb (fst kv) k)) fields) = assoc k' fields.
Proof.
  intros Hne. induction fields as [|[k0 v] fields IH]; [done|]. simpl.
  destruct (String.eqb_spec k0 k) as [->|Hk0]; simpl.
  - destruct (String.eqb_spec k k'); [done|]. exact IH.
  - destruct (String.eqb_spec k0 k'); [done|]. exact IH.
Qed.

Lemma assoc_app (k : string) (l1 l2 : list (string * JsVal)) :
  assoc k (l1 ++ l2) = match assoc k l1 with Some v => Some v | None => assoc k l2 end.
Proof.
  induction l1 as [|[k0 v] l1 IH]; [done|]. simpl.
  destruct (String.eqb k0 k); [done|]. exact IH.
Qed.


(** Adding the joined category changes no other property of a row. *)
Lemma field_with_field_ne (row : JsVal) (k k' : string) (x : JsVal) :
  k ≠ k' → field (ReferenceStore.with_field row k x) k' = field row k'.
Proof.
  intros Hne. destruct row; try done. simpl.
  rewrite assoc_app, assoc_filter_ne by done.
  destruct (assoc k' fields); [done|]. simpl.
  by destruct (String.eqb_spec k k').
Qed.

Section Facts.
Context {R : Type}.
Variable supabase : Store (R:=R).

(** The schema types the [likes] counter of [posts] as an integer: what
    the store delivers in that column is a number, or null. *)
Definition counter_typed : Prop :=
  ∀ postId s r s', supabase (select_likes_counter postId) s = (Return r, s') →
    nullish (field (data r) "likes") = true ∨ is_number (field (data r) "likes") = true.

(** What [toggleLike] can resolve to: [true], a number, or else the value
    the store delivered as the post's [likes] counter. *)
Definition count_or_true (postId v : JsVal) : Prop :=
  v = JBool true ∨ is_number v = true ∨
  (nullish v = false ∧
   ∃ s r s', supabase (select_likes_counter postId) s = (Return r, s') ∧
             v = field (data r) "likes").

Lemma toggleLike_resolves (postId : JsVal) (isLiked : bool) :
  resolves (engagement_toggleLike supabase postId isLiked).
Proof.
  unfold engagement_toggleLike. apply resolves_bind; [apply resolves_get_world|].
  intros w. destruct (negb (configured w)); [apply resolves_ret|].
  apply resolves_try_catch. intros e. apply resolves_ret.
Qed.

Lemma await_request_answer (req : Request) :
  yields (λ r, ∃ s s', supabase req s = (Return r, s')) (await_request supabase req).
Proof.
  intros w r w'. unfold await_request.
  destruct (supabase req (remote w)) as [o s'] eqn:Hreq.
  intros [= -> _]. eauto.
Qed.

Lemma toggleLike_value (postId : JsVal) (isLiked : bool) :
  yields (count_or_true postId) (engagement_toggleLike supabase postId isLiked).
Proof.
  unfold engagement_toggleLike.
  apply yields_bind_any. intros w.
  destruct (negb (configured w)); [apply yields_ret; by left|].
  apply yields_try_catch; [|intros e; apply yields_ret; by left].
  apply yields_bind_any. intros authData.
  destruct (negb (truthy _)); [apply yields_ret; by left|].
  apply yields_bind_any. intros _.
  eapply yields_bind; [apply await_request_answer|].
  intros updated (s & s' & Hupdated).
  destruct (negb (truthy (error updated)) && truthy (data updated)).
  - apply yields_ret. unfold js_coalesce.
    destruct (nullish (field (data updated) "likes")) eqn:Hnull; [by left|].
    right. right. split; [done|]. eauto.
  - apply yields_bind_any. intros counted.
    destruct (negb (truthy (error counted)) && is_number (count counted)) eqn:Hc.
    + apply yields_ret. right. left. by apply andb_true_iff in Hc as [_ ?].
    + apply yields_ret. by left.
Qed.

Lemma count_or_true_typed (postId v : JsVal) :
  counter_typed → count_or_true postId v → v = JBool true ∨ is_number v = true.
Proof.
  intros Hty [?|[?|(Hnull & s & r & s' & Hreq & ->)]]; [by left|by right|].
  destruct (Hty postId s r s' Hreq) as [H|H]; [congruence|by right].
Qed.

(** [posts.getBySlug] never throws. *)
Lemma getBySlug_resolves (slug : JsVal) : resolves (posts_getBySlug supabase slug).
Proof.
  unfold posts_getBySlug. apply resolves_bind; [apply resolves_get_world|].
  intros w. destruct (negb (configured w)); [apply resolves_ret|].
  apply resolves_try_catch. intros e. apply resolves_ret.
Qed.

Lemma mock_post_by_slug_none (slug : JsVal) :
  (∀ p, p ∈ mockPosts → field p "slug" ≠ slug) → mock_post_by_slug slug = JNull.
Proof.
  intros Hno. unfold mock_post_by_slug. rewrite js_find_none; [done|].
  intros p Hp. destruct (strict_eq (field p "slug") slug) eqn:Heq; [|done].
  apply strict_eq_true in Heq. by destruct (Hno p Hp).
Qed.

(** C7: for a slug that no post of the fallback dataset has, and a remote
    query that delivers no row (its [data] is null, with or without an
    error, or the request rejects), [posts.getBySlug] resolves to null with
    the gate open, where the remote query is issued (and with the gate
    closed too, where it is not); and it throws for no input at all. *)
Theorem getBySlug_missing_resolves_null (slug : JsVal) (w : World R) :
  (∀ p, p ∈ mockPosts → field p "slug" ≠ slug) →
  (∀ r s', supabase (select_post_by_slug slug) (remote w) = (Return r, s') →
           data r = JNull) →
  (posts_getBySlug supabase slug w).1 = Return JNull ∧
  (configured w = true →
   requests (posts_getBySlug supabase slug w).2 = requests w ++ [select_post_by_slug slug]) ∧
  resolves (posts_getBySlug supabase slug).
Proof.
  intros Hmock Hremote.
  split; [|split; [|apply getBySlug_resolves]];
    unfold posts_getBySlug, mbind, M_bind, bind, get_world, try_catch, await_request.
  2: { intros ->. simpl.
       destruct (supabase (select_post_by_slug slug) (remote w)) as [[r|e] s']; simpl; [|done].
       by destruct (truthy (error r)). }
  destruct (configured w); simpl; [|by rewrite mock_post_by_slug_none].
  destruct (supabase (select_post_by_slug slug) (remote w)) as [[r|e] s'] eqn:Hreq; simpl.
  - rewrite (Hremote r s' eq_refl).
    destruct (truthy (error r)); simpl; [|done].
    by rewrite mock_post_by_slug_none.
  - by rewrite mock_post_by_slug_none.
Qed.

End Facts.

Ltac run_service :=
  unfold mbind, M_bind, mret, M_ret, bind, ret, throw, try_catch, lift, get_world,
    await_request, localStorage_getItem, localStorage_setItem, sessionStorage_getItem,
    sessionStorage_setItem; simpl.

(** *** What the reference store answers *)

Definition with_category (db : ReferenceStore.Db) (row : JsVal) : JsVal :=
  ReferenceStore.with_field row "categories"
    (ReferenceStore.category_of (ReferenceStore.categories db) row).

Lemma select_categories_answer (db : ReferenceStore.Db) :
  ReferenceStore.select db "categories"
    (mkSelect "*" [] (Some ("name", true)) None None Many false) =
  mkResponse
    (JArr (ReferenceStore.sort_rows (ReferenceStore.before "name" true) (ReferenceStore.categories db)))
    JNull JNull.
Proof.
  unfold ReferenceStore.select. cbn -[ReferenceStore.sort_rows ReferenceStore.before].
  rewrite filter_all. by rewrite map_id.
Qed.


(** *** The fallback dataset *)

Lemma mockPosts_published : Forall published mockPosts.
Proof. repeat constructor. Qed.




(** *** Worlds for concrete runs *)

Definition world {R} (url key : JsVal) (store : R) : World R :=
  mkWorld url key ∅ ∅ store [] [] [] [].

Definition url : JsVal := JStr "https://project.supabase.co".
Definition anon_key : JsVal := JStr "anon-key".

Definition published_only (row : JsVal) : bool :=
  strict_eq (field row "published") (JBool true).

Definition seeded (policy : JsVal → bool) (posts : list JsVal) (online : bool) : ReferenceStore.Db :=
  ReferenceStore.mkDb mockCategories posts [] policy online 1.

(** A draft: a row of [posts] with [published = false]. *)
Definition draft : JsVal :=
  JObj [("id", JStr "0a0a0a0a-0000-4000-8000-000000000001"); ("title", JStr "Draft");
        ("slug", JStr "draft"); ("category_id", JNull); ("published", JBool false);
        ("published_at", JNull); ("views", JNum 0); ("likes", JNum 0)].

(** C8 (amended): [categories.getAll()] returns the static fallback list as
    it stands when the gate is closed or the remote request fails; with the
    gate open and a request that succeeds it returns what the store
    delivers for ``all categories ordered by name ascending'', which over
    the reference store is the table's rows in ascending order of name. *)
Theorem getAll_by_mode :
  (∀ (R : Type) (supabase : Store (R:=R)) (w : World R),
      configured w = false ∨ request_fails supabase select_all_categories (remote w) →
      (categories_getAll supabase w).1 = Return (JArr mockCategories)) ∧
  (∀ (R : Type) (supabase : Store (R:=R)) (w : World R) r s',
      configured w = true →
      supabase select_all_categories (remote w) = (Return r, s') →
      truthy (error r) = false →
      (categories_getAll supabase w).1 = Return (js_or (data r) (JArr []))) ∧
  (∀ w : World ReferenceStore.Db,
      configured w = true → ReferenceStore.online (remote w) = true →
      ∃ rows, (categories_getAll ReferenceStore.answer w).1 = Return (JArr rows) ∧
              by_name rows ∧ rows ≡ₚ ReferenceStore.categories (remote w)).
Proof.
  split; [|split].
  - intros R supabase w Hmode. unfold categories_getAll. run_service.
    destruct (configured w) eqn:Hconf; simpl; [|done].
    destruct Hmode as [?|Hfails]; [done|]. unfold request_fails in Hfails.
    destruct (supabase select_all_categories (remote w)) as [[r|e] s']; simpl; [|done].
    by rewrite Hfails.
  - intros R supabase w r s' Hconf Hreq Hok. unfold categories_getAll. run_service.
    rewrite Hconf. simpl. rewrite Hreq. simpl. by rewrite Hok.
  - intros w Hconf Honline. eexists. split; [|split].
    + unfold categories_getAll. run_service. rewrite Hconf. simpl.
      unfold ReferenceStore.answer, select_all_categories. rewrite Honline. simpl negb.
      cbv iota. rewrite select_categories_answer. reflexivity.
    + apply sort_rows_sorted, before_total.
    + apply sort_rows_perm.
Qed.

(** C8 (as stated) fails: with the gate closed the result is the fallback
    list, whose names are not in ascending order (Travel precedes
    Lifestyle). *)
Lemma fallback_categories_not_by_name :
  (categories_getAll ReferenceStore.answer (world JUndefined JUndefined (seeded published_only [] true))).1
    = Return (JArr mockCategories) ∧
  map (λ c, field c "name") mockCategories =
    [JStr "Technology"; JStr "Travel"; JStr "Lifestyle"; JStr "Design"; JStr "Programming"] ∧
  sortedb (ReferenceStore.before "name" true) mockCategories = false.
Proof. vm_compute. repeat split; reflexivity. Qed.





(** Runs of the fallback: the second page of two posts, and a window past
    the end of the dataset. *)
Example fallback_second_page :
  (posts_getPublished ReferenceStore.answer 2 2
     (world JUndefined JUndefined (seeded published_only [] true))).1 =
    Return (JArr (skipn 2 mockPosts)) ∧
  (posts_getPublished ReferenceStore.answer 2 4
     (world JUndefined JUndefined (seeded published_only [] true))).1 =
    Return (JArr []).
Proof. vm_compute. split; reflexivity. Qed.

(** The reference store under the setup script's policy hides the draft. *)
Example published_only_store_hides_draft :
  (posts_getPublished ReferenceStore.answer 10 0
     (world url anon_key (seeded published_only (draft :: mockPosts) true))).1 =
    Return (JArr (map (with_category (seeded published_only mockPosts true)) mockPosts)).
Proof. vm_compute. reflexivity. Qed.

Lemma getBySlug_missing_resolves_null_witness :
  let w := world url anon_key (seeded published_only mockPosts true) in
  (posts_getBySlug ReferenceStore.answer (JStr "nonexistent-slug") w).1 = Return JNull ∧
  (configured w = true →
   requests (posts_getBySlug ReferenceStore.answer (JStr "nonexistent-slug") w).2 =
     requests w ++ [select_post_by_slug (JStr "nonexistent-slug")]) ∧
  resolves (posts_getBySlug ReferenceStore.answer (JStr "nonexistent-slug")).
Proof.
  apply (getBySlug_missing_resolves_null ReferenceStore.answer (JStr "nonexistent-slug")
           (world url anon_key (seeded published_only mockPosts true))).
  - intros p Hp. repeat (apply elem_of_cons in Hp as [->|Hp]; [discriminate|]).
    by apply elem_of_nil in Hp.
  - intros r s' [= <- _]. reflexivity.
Defined.

(** The reference store answers the single-row query for a missing slug
    with an error and no data, and for the slug of a post with the row. *)
Example getBySlug_against_reference_store :
  let db := seeded published_only mockPosts true in
  let missing := ReferenceStore.answer (select_post_by_slug (JStr "nonexistent-slug")) db in
  (match missing.1 with
   | Return r => data r = JNull ∧ field (error r) "code" = JStr "PGRST116"
   | Throw _ => False
   end) ∧
  (match (posts_getBySlug ReferenceStore.answer (JStr "best-travel-destinations-2024")
            (world url anon_key db)).1 with
   | Return p => field p "id" = JStr "d7efdb3b-6c15-42e6-9f37-5e7af86f4ff2" ∧
                 field (field p "categories") "name" = JStr "Travel"
   | Throw _ => False
   end).
Proof. vm_compute. repeat split; reflexivity. Qed.

(** *** [engagement.hasLiked] *)

(** What the stored [likedPosts] item says about [postId]: when the item
    parses to an array, whether the array holds [postId]; when it parses to
    a string, whether the text of [postId] occurs in that string; [false]
    when it parses to anything else, when it does not parse, or when
    [postId] has no text. With no item, or the empty string for one, the
    list is the empty array. *)
Definition liked_locally {R} (w : World R) (postId : JsVal) : bool :=
  match parse_or_empty (localStorage w !! "likedPosts") with
  | Return (JArr items) => includes items postId
  | Return (JStr s) =>
      match to_string postId with
      | Return t => occurs_in t s
      | Throw _ => false
      end
  | _ => false
  end.

(** C6 (amended): [engagement.hasLiked(postId, userId)] answers from the
    stored [likedPosts] item when the store is not configured or an id is
    missing: membership of [postId] when the item parses to an array (a
    substring test when it parses to a string, [false] when it cannot be
    read as either), and it changes nothing; otherwise it asks the store
    whether the (postId, userId) row exists and answers with the result,
    and it answers [false] when that request fails, whatever the stored
    list holds. *)
Theorem hasLiked_by_mode {R : Type} (supabase : Store (R:=R))
    (postId userId : JsVal) (w : World R) :
  (configured w = false ∨ truthy postId = false ∨ truthy userId = false →
     engagement_hasLiked supabase postId userId w = (Return (JBool (liked_locally w postId)), w) ∧
     (∀ items, parse_or_empty (localStorage w !! "likedPosts") = Return (JArr items) →
               liked_locally w postId = includes items postId)) ∧
  (configured w = true → truthy postId = true → truthy userId = true →
     match supabase (select_like postId userId) (remote w) with
     | (Return r, _) =>
         (engagement_hasLiked supabase postId userId w).1 =
           Return (JBool (negb (truthy (error r)) && truthy (data r)))
     | (Throw _, _) =>
         (engagement_hasLiked supabase postId userId w).1 = Return (JBool false)
     end).
Proof.
  split.
  - intros Hlocal.
    assert (Hgate : negb (configured w) || negb (truthy postId) || negb (truthy userId) = true).
    { destruct Hlocal as [-> | [-> | ->]]; simpl; rewrite ?orb_true_r; done. }
    split; [|by intros items Hitems; unfold liked_locally; rewrite Hitems].
    unfold engagement_hasLiked, liked_locally. run_service. rewrite Hgate.
    destruct (parse_or_empty (localStorage w !! "likedPosts")) as [v|e]; simpl; [|done].
    destruct v as [| | | |s|items|fields]; try done.
    unfold js_includes. by destruct (to_string postId).
  - intros Hconf Hpost Huser. unfold engagement_hasLiked. run_service.
    rewrite Hconf, Hpost, Huser. simpl.
    destruct (supabase (select_like postId userId) (remote w)) as [[r|e] s']; simpl; [|done].
    by destruct (truthy (error r)).
Qed.

Definition liking (postId : string) (w : World ReferenceStore.Db) : World ReferenceStore.Db :=
  mkWorld (VITE_SUPABASE_URL w) (VITE_SUPABASE_ANON_KEY w)
    (<["likedPosts" := JSON_stringify (JArr [JStr postId])]> (localStorage w)) (sessionStorage w)
    (remote w) (uuids w) (randoms w) (requests w) (increment_calls w).

(** C6 (as stated) fails: the store is configured and unreachable, the
    post is in the persistent liked-posts list, and [hasLiked] answers
    [false]. *)
Lemma hasLiked_remote_failure_ignores_local_list :
  let w := liking "1649b2bb-031b-416f-9277-a8ada9b1dfeb"
             (world url anon_key (seeded published_only mockPosts false)) in
  let postId := JStr "1649b2bb-031b-416f-9277-a8ada9b1dfeb" in
  let userId := JStr "guest-1" in
  request_fails ReferenceStore.answer (select_like postId userId) (remote w) ∧
  liked_locally w postId = true ∧
  (engagement_hasLiked ReferenceStore.answer postId userId w).1 = Return (JBool false).
Proof. vm_compute. repeat split; reflexivity. Qed.

(** The fallback on stored items that are no array: a stored JSON string
    is searched for the id as a substring, a stored number has no
    [includes] and the answer is [false]. *)
Example hasLiked_on_stored_string_or_number :
  let stored (v : JsVal) : World ReferenceStore.Db :=
    mkWorld JUndefined JUndefined (<["likedPosts" := JsonText v]> ∅) ∅
      (seeded published_only mockPosts true) [] [] [] [] in
  (engagement_hasLiked ReferenceStore.answer (JStr "p-1") (JStr "guest-1")
     (stored (JStr "p-1,p-2"))).1 = Return (JBool true) ∧
  (engagement_hasLiked ReferenceStore.answer (JStr "p-1") (JStr "guest-1")
     (stored (JStr "p-2"))).1 = Return (JBool false) ∧
  (engagement_hasLiked ReferenceStore.answer (JNum 1) (JStr "guest-1")
     (stored (JStr "p-1"))).1 = Return (JBool true) ∧
  (engagement_hasLiked ReferenceStore.answer (JStr "p-1") (JStr "guest-1")
     (stored (JNum 7))).1 = Return (JBool false).
Proof. vm_compute. repeat split; reflexivity. Qed.

(** *** [engagement.getLikes] *)

(** C9 (amended): with the store configured, [engagement.getLikes(postId)]
    returns the post's like counter (0 for a missing or zero counter) when
    reading it succeeds with a row; otherwise the count of Like rows when
    counting succeeds with a number; otherwise 0. With the store not
    configured it returns a pseudo-random integer in [0, 50). *)
Theorem getLikes_by_mode {R : Type} (supabase : Store (R:=R)) (postId : JsVal) (w : World R) :
  (configured w = false →
     (engagement_getLikes supabase postId w).1 =
       Return (JNum (match randoms w with [] => 0 | r :: _ => r mod 50 end)%Z)) ∧
  (configured w = true →
     (engagement_getLikes supabase postId w).1 =
       Return
         match supabase (select_likes_counter postId) (remote w) with
         | (Throw _, _) => JNum 0
         | (Return r, s1) =>
             if negb (truthy (error r)) && truthy (data r)
             then js_or (field (data r) "likes") (JNum 0)
             else
               match supabase (count_like_rows postId) s1 with
               | (Throw _, _) => JNum 0
               | (Return counted, _) =>
                   if truthy (error counted) then JNum 0
                   else if is_number (count counted) then count counted
                   else JNum 0
               end
         end).
Proof.
  split; intros Hconf; unfold engagement_getLikes, random_below; run_service; rewrite Hconf; simpl.
  - by destruct (randoms w).
  - destruct (supabase (select_likes_counter postId) (remote w)) as [[r|e] s1]; simpl; [|done].
    destruct (negb (truthy (error r)) && truthy (data r)); simpl; [done|].
    destruct (supabase (count_like_rows postId) s1) as [[counted|e] s2]; simpl; [|done].
    by destruct (truthy (error counted)).
Qed.

Definition drawing (rs : list Z) (w : World ReferenceStore.Db) : World ReferenceStore.Db :=
  mkWorld (VITE_SUPABASE_URL w) (VITE_SUPABASE_ANON_KEY w) (localStorage w)
    (sessionStorage w) (remote w) (uuids w) rs (requests w) (increment_calls w).

(** C9 (as stated) fails: with the store not configured the result is a
    random draw, 7 or 8 over the same stored data, while the post's like
    counter in the fallback dataset is 23; and with the store configured
    and unreachable the result is 0. *)
Lemma getLikes_not_determined_by_stored_data :
  let postId := JStr "1649b2bb-031b-416f-9277-a8ada9b1dfeb" in
  let w := world JUndefined JUndefined (seeded published_only mockPosts true) in
  map (λ p, field p "likes")
    (List.filter (λ p, strict_eq (field p "id") postId) mockPosts) = [JNum 23] ∧
  (engagement_getLikes ReferenceStore.answer postId (drawing [7%Z] w)).1 = Return (JNum 7) ∧
  (engagement_getLikes ReferenceStore.answer postId (drawing [8%Z] w)).1 = Return (JNum 8) ∧
  (engagement_getLikes ReferenceStore.answer postId
     (world url anon_key (seeded published_only mockPosts false))).1 = Return (JNum 0).
Proof. vm_compute. repeat split; reflexivity. Qed.

(** With the store configured and reachable, the counter of the row. *)
Example getLikes_reads_counter :
  (engagement_getLikes ReferenceStore.answer (JStr "1649b2bb-031b-416f-9277-a8ada9b1dfeb")
     (world url anon_key (seeded published_only mockPosts true))).1 = Return (JNum 23).
Proof. vm_compute. reflexivity. Qed.

End ApiFacts.

(** ** pages/PostPage.jsx: view tracking and the like button *)

Module PostPage.
Import Runtime Api.

(** The component's state ([useState]). *)
Record Page : Type := mkPage {
  post : JsVal;
  liked : bool;
  likeCount : Z;
  viewCount : Z;
  toast : JsVal;
  error : JsVal
}.

Definition setLiked (b : bool) (pg : Page) : Page :=
  mkPage (post pg) b (likeCount pg) (viewCount pg) (toast pg) (error pg).

Definition setLikeCount (f : Z → Z) (pg : Page) : Page :=
  mkPage (post pg) (liked pg) (f (likeCount pg)) (viewCount pg) (toast pg) (error pg).


Definition setToast (t : JsVal) (pg : Page) : Page :=
  mkPage (post pg) (liked pg) (likeCount pg) (viewCount pg) t (error pg).

Definition setError (e : JsVal) (pg : Page) : Page :=
  mkPage (post pg) (liked pg) (likeCount pg) (viewCount pg) (toast pg) e.

Section Flows.
Context {R : Type}.
Variable supabase : Store (R:=R).

(** A promise observed through [.then(...).catch(...)]. *)
Definition settle {A} (m : M (R:=R) A) : M (R:=R) (Outcome A) :=
  λ w, let '(o, w') := m w in (Return o, w').


(** [handleLike] *)
Definition handleLike (pg : Page) : M (R:=R) Page :=
  if negb (truthy (post pg)) then mret pg
  else
    try_catch
      (let isCurrentlyLiked := liked pg in
       item ← localStorage_getItem "likedPosts";
       likedPosts ← lift (parse_or_empty item);
       items ← lift (as_array likedPosts);
       let id := field (post pg) "id" in
       pg1 ← (if isCurrentlyLiked then
                localStorage_setItem "likedPosts" (JSON_stringify (JArr (without items id)));;
                mret (setLikeCount (λ prev, Z.max 0 (prev - 1)) (setLiked false pg))
              else
                (if negb (includes items id) then
                   localStorage_setItem "likedPosts" (JSON_stringify (JArr (push items id)))
                 else mret tt);;
                mret (setLikeCount (λ prev, prev + 1)%Z (setLiked true pg)));
       settled ← settle (engagement_toggleLike supabase id isCurrentlyLiked);
       match settled with
       | Return (JNum maybeCount) => mret (setLikeCount (λ _, maybeCount) pg1)
       | Return _ => mret pg1
       | Throw _ =>
           mret (setToast (JStr "Unable to save like right now. Your change may not persist.") pg1)
       end)
      (λ _, mret pg).

End Flows.

End PostPage.

(** ** hooks: [usePostEngagement] *)

Module Hooks.
Import Runtime Api.

(** The hook's state. *)
Record Engagement : Type := mkEngagement {
  viewCount : Z;
  likeCount : Z;
  liked : bool;
  viewed : bool
}.

Section UsePostEngagement.
Context {R : Type}.
Variable supabase : Store (R:=R).




(** [toggleLike], as rendered with the current state [st]. *)
Definition toggleLike (post : JsVal) (st : Engagement) : M (R:=R) Engagement :=
  if negb (truthy post) then mret st
  else
    try_catch
      (newLikeCount ← engagement_toggleLike supabase (field post "id") (liked st);
       item ← localStorage_getItem "likedPosts";
       likedPosts ← lift (parse_or_empty item);
       items ← lift (as_array likedPosts);
       if liked st then
         localStorage_setItem "likedPosts"
           (JSON_stringify (JArr (without items (field post "id"))));;
         mret (mkEngagement (viewCount st) (Z.max 0 (likeCount st - 1)) false (viewed st))
       else
         localStorage_setItem "likedPosts"
           (JSON_stringify (JArr (push items (field post "id"))));;
         mret (mkEngagement (viewCount st) (likeCount st + 1)%Z true (viewed st)))
      (λ _, mret st).

End UsePostEngagement.

End Hooks.

(** ** Properties of the client engagement state *)

Module EngagementFacts.
Import Runtime MockData Api ApiFacts.

Section Frames.
Context {R : Type}.
Variable supabase : Store (R:=R).

(** What a service call leaves alone: the persistent liked-posts list, the
    session storage and the record of [incrementViews] calls. *)
Definition lists_kept (w w' : World R) : Prop :=
  localStorage w' !! "likedPosts" = localStorage w !! "likedPosts" ∧
  sessionStorage w' = sessionStorage w ∧
  increment_calls w' = increment_calls w.

Lemma lists_kept_refl (w : World R) : lists_kept w w.
Proof. done. Qed.

Lemma lists_kept_trans (w1 w2 w3 : World R) :
  lists_kept w1 w2 → lists_kept w2 w3 → lists_kept w1 w3.
Proof.
  unfold lists_kept. intros (H1 & H2 & H3) (H4 & H5 & H6).
  rewrite H4, H5, H6. done.
Qed.

Lemma keeps_await_request (req : Request) : keeps lists_kept (await_request supabase req).
Proof. intros w. unfold await_request. by destruct (supabase req (remote w)). Qed.

Lemma keeps_randomUUID : keeps lists_kept (randomUUID (R:=R)).
Proof. intros w. unfold randomUUID. by destruct (uuids w). Qed.

Lemma keeps_localStorage_getItem (key : string) :
  keeps lists_kept (localStorage_getItem (R:=R) key).
Proof. done. Qed.

Lemma keeps_guest_setItem (t : Text) :
  keeps lists_kept (localStorage_setItem (R:=R) "blog_guest_id" t).
Proof. intros w. split; [|done]. simpl. by rewrite lookup_insert_ne. Qed.

End Frames.

Ltac settled := eexists _, _; split; [reflexivity|by simpl].

Ltac keeps_lists supabase :=
  repeat first
    [ apply (keeps_ret lists_kept lists_kept_refl)
    | apply (keeps_throw lists_kept lists_kept_refl)
    | apply (keeps_lift lists_kept lists_kept_refl)
    | apply (keeps_get_world lists_kept lists_kept_refl)
    | apply (keeps_await_request supabase)
    | apply keeps_randomUUID
    | apply keeps_localStorage_getItem
    | apply keeps_guest_setItem
    | apply (keeps_bind lists_kept lists_kept_trans); [|intros ?]
    | apply (keeps_try_catch lists_kept lists_kept_trans); [|intros ?]
    | match goal with |- keeps _ (if ?b then _ else _) => destruct b end
    | match goal with |- keeps _ (match ?x with _ => _ end) => destruct x end ].

Section Services.
Context {R : Type}.
Variable supabase : Store (R:=R).

Lemma signInAnonymously_keeps : keeps lists_kept (signInAnonymously (R:=R)).
Proof. unfold signInAnonymously. keeps_lists supabase. Qed.

Lemma toggleLike_keeps (postId : JsVal) (isLiked : bool) :
  keeps lists_kept (engagement_toggleLike supabase postId isLiked).
Proof.
  unfold engagement_toggleLike.
  apply (keeps_bind lists_kept lists_kept_trans);
    [apply (keeps_get_world lists_kept lists_kept_refl)|intros w].
  destruct (negb (configured w)); [apply (keeps_ret lists_kept lists_kept_refl)|].
  apply (keeps_try_catch lists_kept lists_kept_trans);
    [|intros ?; apply (keeps_ret lists_kept lists_kept_refl)].
  apply (keeps_bind lists_kept lists_kept_trans); [apply signInAnonymously_keeps|intros authData].
  keeps_lists supabase.
Qed.


End Services.

(** *** View tracking *)

Section Views.
Context {R : Type}.
Variable supabase : Store (R:=R).

(** The session-scoped viewed-list, as the flows read it. *)
Definition viewed_list (w : World R) : Outcome JsVal :=
  parse_or_empty (sessionStorage w !! "viewedPosts").





Lemma includes_push (l : list JsVal) (id : string) :
  includes (push l (JStr id)) (JStr id) = true.
Proof.
  unfold includes, push. rewrite existsb_app. simpl.
  rewrite String.eqb_refl. by rewrite orb_true_r.
Qed.





End Views.

(** *** The like toggle *)

Ltac run_flow :=
  unfold PostPage.settle, mbind, M_bind, mret, M_ret, bind, ret, throw, try_catch, lift,
    get_world, localStorage_getItem, localStorage_setItem;
  cbn -[engagement_toggleLike JSON_stringify].

Ltac await_toggleLike supabase :=
  match goal with
  | |- context [engagement_toggleLike supabase ?id ?b ?w] =>
      let v := fresh "v" in
      let w' := fresh "w'" in
      let Hrun := fresh "Hrun" in
      let Hkeep := fresh "Hkeep" in
      destruct (toggleLike_resolves supabase id b w) as (v & w' & Hrun);
      pose proof (toggleLike_keeps supabase id b w) as Hkeep;
      rewrite Hrun in Hkeep |- *;
      destruct Hkeep as (Hkeep & _ & _);
      cbn -[JSON_stringify] in Hkeep |- *
  end.

Section Likes.
Context {R : Type}.
Variable supabase : Store (R:=R).

(** The persistent liked-posts list, as the flows read it. *)
Definition liked_list (w : World R) : Outcome JsVal :=
  parse_or_empty (localStorage w !! "likedPosts").

(** One press of the like button on a page whose liked-list is readable. *)
Lemma handleLike_step (pg : PostPage.Page) (w : World R) (l : list JsVal) :
  truthy (PostPage.post pg) = true →
  liked_list w = Return (JArr l) →
  ∃ pg' w', PostPage.handleLike supabase pg w = (Return pg', w') ∧
    PostPage.post pg' = PostPage.post pg ∧
    PostPage.liked pg' = negb (PostPage.liked pg) ∧
    localStorage w' !! "likedPosts" =
      (if PostPage.liked pg
       then Some (JSON_stringify (JArr (without l (field (PostPage.post pg) "id"))))
       else if includes l (field (PostPage.post pg) "id")
            then localStorage w !! "likedPosts"
            else Some (JSON_stringify (JArr (push l (field (PostPage.post pg) "id"))))).
Proof.
  intros Hpost Hlist. unfold PostPage.handleLike, liked_list in *. rewrite Hpost.
  run_flow. rewrite Hlist. cbn -[engagement_toggleLike JSON_stringify].
  destruct (PostPage.liked pg) eqn:Hliked; cbn -[engagement_toggleLike JSON_stringify].
  - await_toggleLike supabase. rewrite lookup_insert_eq in Hkeep.
    destruct v; (eexists _, _; split; [reflexivity|]; by rewrite Hkeep).
  - destruct (includes l (field (PostPage.post pg) "id"));
      cbn -[engagement_toggleLike JSON_stringify]; await_toggleLike supabase.
    + destruct v; (eexists _, _; split; [reflexivity|]; by rewrite Hkeep).
    + rewrite lookup_insert_eq in Hkeep.
      destruct v; (eexists _, _; split; [reflexivity|]; by rewrite Hkeep).
Qed.

(** [handleLike] always completes, and never raises the failure toast: the
    promise of [toggleLike] does not reject. *)
Lemma handleLike_keeps_toast (pg : PostPage.Page) (w : World R) :
  ∃ pg' w', PostPage.handleLike supabase pg w = (Return pg', w') ∧
            PostPage.toast pg' = PostPage.toast pg.
Proof.
  unfold PostPage.handleLike.
  destruct (truthy (PostPage.post pg)); simpl; [|by eexists _, _].
  run_flow.
  destruct (parse_or_empty (localStorage w !! "likedPosts")) as [likedPosts|e];
    cbn -[engagement_toggleLike JSON_stringify]; [|by eexists _, _].
  destruct (as_array likedPosts) as [items|e];
    cbn -[engagement_toggleLike JSON_stringify]; [|by eexists _, _].
  destruct (PostPage.liked pg); cbn -[engagement_toggleLike JSON_stringify].
  - await_toggleLike supabase. destruct v; by eexists _, _.
  - destruct (includes items (field (PostPage.post pg) "id"));
      cbn -[engagement_toggleLike JSON_stringify]; await_toggleLike supabase;
      destruct v; by eexists _, _.
Qed.

(** One call of the hook's [toggleLike] with a readable liked-list. *)
Lemma toggleLike_step (post : JsVal) (st : Hooks.Engagement) (w : World R) (l : list JsVal) :
  truthy post = true →
  liked_list w = Return (JArr l) →
  ∃ st' w', Hooks.toggleLike supabase post st w = (Return st', w') ∧
    Hooks.liked st' = negb (Hooks.liked st) ∧
    localStorage w' !! "likedPosts" =
      (if Hooks.liked st
       then Some (JSON_stringify (JArr (without l (field post "id"))))
       else Some (JSON_stringify (JArr (push l (field post "id"))))).
Proof.
  intros Hpost Hlist. unfold Hooks.toggleLike, liked_list in *. rewrite Hpost.
  run_flow. await_toggleLike supabase.
  rewrite Hkeep, Hlist. cbn -[JSON_stringify].
  destruct (Hooks.liked st); cbn -[JSON_stringify];
    (eexists _, _; split; [reflexivity|]; split; [done|]; cbn -[JSON_stringify];
     by rewrite lookup_insert_eq).
Qed.

Lemma stored_push_reads_back (l : list JsVal) (id : string) :
  json_roundtrip (JArr l) = JArr l →
  parse_or_empty (Some (JSON_stringify (JArr (push l (JStr id))))) =
    Return (JArr (push l (JStr id))).
Proof. intros Hl. unfold JSON_stringify. by rewrite json_roundtrip_push. Qed.

Lemma stored_without_push (l : list JsVal) (id : string) :
  json_roundtrip (JArr l) = JArr l →
  includes l (JStr id) = false →
  JSON_stringify (JArr (without (push l (JStr id)) (JStr id))) = JsonText (JArr l).
Proof.
  intros Hl Habsent. unfold JSON_stringify.
  rewrite without_push_absent; [by rewrite Hl| |done].
  simpl. apply String.eqb_refl.
Qed.

(** C5: from a state in which the post is not liked and its id is not in
    the persistent liked-posts list, liking and then unliking leaves the
    list as it was, same elements in the same order: both for the like
    button of the post page and for the hook's [toggleLike]. When the list
    was stored before, the stored item itself is unchanged. *)
Theorem like_toggle_round_trip (post : JsVal) (id : string) (w : World R) (l : list JsVal) :
  truthy post = true →
  field post "id" = JStr id →
  liked_list w = Return (JArr l) →
  json_roundtrip (JArr l) = JArr l →
  includes l (JStr id) = false →
  (∀ pg, PostPage.post pg = post → PostPage.liked pg = false →
     ∃ pg1 w1 pg2 w2,
       PostPage.handleLike supabase pg w = (Return pg1, w1) ∧
       PostPage.handleLike supabase pg1 w1 = (Return pg2, w2) ∧
       PostPage.liked pg1 = true ∧ PostPage.liked pg2 = false ∧
       liked_list w1 = Return (JArr (push l (JStr id))) ∧
       liked_list w2 = Return (JArr l) ∧
       (localStorage w !! "likedPosts" = Some (JsonText (JArr l)) →
        localStorage w2 !! "likedPosts" = localStorage w !! "likedPosts")) ∧
  (∀ st, Hooks.liked st = false →
     ∃ st1 w1 st2 w2,
       Hooks.toggleLike supabase post st w = (Return st1, w1) ∧
       Hooks.toggleLike supabase post st1 w1 = (Return st2, w2) ∧
       Hooks.liked st1 = true ∧ Hooks.liked st2 = false ∧
       liked_list w1 = Return (JArr (push l (JStr id))) ∧
       liked_list w2 = Return (JArr l) ∧
       (localStorage w !! "likedPosts" = Some (JsonText (JArr l)) →
        localStorage w2 !! "likedPosts" = localStorage w !! "likedPosts")).
Proof.
  intros Hpost Hid Hlist Hjson Habsent. split.
  - intros pg Hpg Hliked.
    destruct (handleLike_step pg w l) as (pg1 & w1 & Hrun1 & Hpost1 & Hliked1 & Hstore1);
      [by rewrite Hpg|done|].
    rewrite Hliked, Hpg, Hid, Habsent in Hstore1. rewrite Hliked in Hliked1.
    assert (Hlist1 : liked_list w1 = Return (JArr (push l (JStr id)))).
    { unfold liked_list. rewrite Hstore1. by apply stored_push_reads_back. }
    destruct (handleLike_step pg1 w1 (push l (JStr id)))
      as (pg2 & w2 & Hrun2 & _ & Hliked2 & Hstore2); [by rewrite Hpost1, Hpg|done|].
    rewrite Hliked1, Hpost1, Hpg, Hid, stored_without_push in Hstore2 by done.
    exists pg1, w1, pg2, w2. repeat split; try done.
    + by rewrite Hliked2, Hliked1.
    + unfold liked_list. by rewrite Hstore2.
    + intros Hstored. by rewrite Hstore2, Hstored.
  - intros st Hliked.
    destruct (toggleLike_step post st w l) as (st1 & w1 & Hrun1 & Hliked1 & Hstore1);
      [done..|].
    rewrite Hliked, Hid in Hstore1. rewrite Hliked in Hliked1.
    assert (Hlist1 : liked_list w1 = Return (JArr (push l (JStr id)))).
    { unfold liked_list. rewrite Hstore1. by apply stored_push_reads_back. }
    destruct (toggleLike_step post st1 w1 (push l (JStr id)))
      as (st2 & w2 & Hrun2 & Hliked2 & Hstore2); [done..|].
    rewrite Hliked1, Hid, stored_without_push in Hstore2 by done.
    exists st1, w1, st2, w2. repeat split; try done.
    + by rewrite Hliked2, Hliked1.
    + unfold liked_list. by rewrite Hstore2.
    + intros Hstored. by rewrite Hstore2, Hstored.
Qed.

(** C10: [engagement.toggleLike] always resolves, for every store and
    whatever the store answers (also when the delete, the insert, the
    counter read and the row count all fail), and never throws. The value
    is [true], or a numeric count, or the post's [likes] counter as the
    store delivered it: a number, the column being an integer column. So
    the like button of the post page never takes its rejection branch: no
    run of [handleLike] raises the failure toast. *)
Theorem toggleLike_never_rejects (postId : JsVal) (currentlyLiked : bool) :
  (∀ w, ∃ v w',
      engagement_toggleLike supabase postId currentlyLiked w = (Return v, w') ∧
      count_or_true supabase postId v ∧
      (counter_typed supabase → v = JBool true ∨ is_number v = true)) ∧
  (∀ pg w, ∃ pg' w',
      PostPage.handleLike supabase pg w = (Return pg', w') ∧
      PostPage.toast pg' = PostPage.toast pg).
Proof.
  split.
  - intros w. destruct (toggleLike_resolves supabase postId currentlyLiked w)
      as (v & w' & Hrun).
    pose proof (toggleLike_value supabase postId currentlyLiked w v w' Hrun) as Hv.
    exists v, w'. split; [done|]. split; [done|]. intros Hty.
    by eapply count_or_true_typed.
  - apply handleLike_keeps_toast.
Qed.

End Likes.

(** *** Concrete sessions *)

Definition first_post : JsVal :=
  MockData.post "1649b2bb-031b-416f-9277-a8ada9b1dfeb"
    "Getting Started with React 19"
    "getting-started-with-react-19"
    "Learn the new features and improvements in React 19, including the new compiler and concurrent features that make your apps faster and more efficient."
    "https://picsum.photos/seed/react19/800/600"
    "1649b2bb-031b-416f-9277-a8ada9b1dfea"
    true "2024-09-10T12:00:00Z" 150 23 "Technology" "technology".

Definition demo_world : World ReferenceStore.Db :=
  world JUndefined JUndefined (seeded published_only mockPosts true).

Definition configured_world : World ReferenceStore.Db :=
  world url anon_key (seeded published_only mockPosts true).

Definition fresh_page : PostPage.Page :=
  PostPage.mkPage first_post false 23 150 JNull JNull.



Lemma like_toggle_round_trip_witness :
  ∃ pg1 w1 pg2 w2,
    PostPage.handleLike ReferenceStore.answer fresh_page demo_world = (Return pg1, w1) ∧
    PostPage.handleLike ReferenceStore.answer pg1 w1 = (Return pg2, w2) ∧
    liked_list w1 = Return (JArr [JStr "1649b2bb-031b-416f-9277-a8ada9b1dfeb"]) ∧
    liked_list w2 = Return (JArr []).
Proof.
  destruct (like_toggle_round_trip ReferenceStore.answer first_post
              "1649b2bb-031b-416f-9277-a8ada9b1dfeb" demo_world []
              eq_refl eq_refl eq_refl eq_refl eq_refl) as [Hpage _].
  destruct (Hpage fresh_page eq_refl eq_refl)
    as (pg1 & w1 & pg2 & w2 & Hrun1 & Hrun2 & _ & _ & Hlist1 & Hlist2 & _).
  by exists pg1, w1, pg2, w2.
Defined.

(** A browser that can mint a guest identifier. *)
Definition with_uuids (us : list string) (w : World ReferenceStore.Db) : World ReferenceStore.Db :=
  mkWorld (VITE_SUPABASE_URL w) (VITE_SUPABASE_ANON_KEY w) (localStorage w)
    (sessionStorage w) (remote w) us (randoms w) (requests w) (increment_calls w).

(** A run of the like button against a store that is configured and
    unreachable: like, then unlike. The optimistic state changes, the list
    is back to empty, and the toast stays unset. *)
Example like_then_unlike_offline :
  let run1 := PostPage.handleLike ReferenceStore.answer fresh_page
                (with_uuids ["6f1c2a3e-0000-4000-8000-00000000000a"]
                   (world url anon_key (seeded published_only mockPosts false))) in
  match run1.1 with
  | Return pg1 =>
      PostPage.liked pg1 = true ∧ PostPage.likeCount pg1 = 24%Z ∧
      PostPage.toast pg1 = JNull ∧
      liked_list run1.2 = Return (JArr [JStr "1649b2bb-031b-416f-9277-a8ada9b1dfeb"]) ∧
      match (PostPage.handleLike ReferenceStore.answer pg1 run1.2) with
      | (Return pg2, w2) =>
          PostPage.liked pg2 = false ∧ PostPage.likeCount pg2 = 23%Z ∧
          PostPage.toast pg2 = JNull ∧ liked_list w2 = Return (JArr [])
      | _ => False
      end
  | Throw _ => False
  end.
Proof. vm_compute. repeat split; reflexivity. Qed.

(** Against a store that is configured and unreachable, the insert (or
    the delete) fails and [toggleLike] resolves to [true]. *)
Example toggleLike_resolves_true_when_store_fails :
  let id := JStr "1649b2bb-031b-416f-9277-a8ada9b1dfeb" in
  let guest_id := JStr "6f1c2a3e-0000-4000-8000-00000000000a" in
  let w := with_uuids ["6f1c2a3e-0000-4000-8000-00000000000a"]
             (world url anon_key (seeded published_only mockPosts false)) in
  let run := engagement_toggleLike ReferenceStore.answer id false w in
  run.1 = Return (JBool true) ∧
  requests run.2 = [insert_like id guest_id] ∧
  localStorage run.2 !! "blog_guest_id" = Some (Plain "6f1c2a3e-0000-4000-8000-00000000000a") ∧
  (engagement_toggleLike ReferenceStore.answer id true w).1 = Return (JBool true).
Proof. vm_compute. repeat split; reflexivity. Qed.

(** Against the reachable reference store: a like resolves to the counter
    24, a second like of the same guest is a duplicate that is swallowed
    (the counter stays 24), and the unlike resolves to 23. *)
Example toggleLike_resolves_counter :
  let id := JStr "1649b2bb-031b-416f-9277-a8ada9b1dfeb" in
  let w := with_uuids ["6f1c2a3e-0000-4000-8000-00000000000a"] configured_world in
  let run1 := engagement_toggleLike ReferenceStore.answer id false w in
  let run2 := engagement_toggleLike ReferenceStore.answer id false run1.2 in
  let run3 := engagement_toggleLike ReferenceStore.answer id true run2.2 in
  run1.1 = Return (JNum 24) ∧ run2.1 = Return (JNum 24) ∧ run3.1 = Return (JNum 23) ∧
  (engagement_hasLiked ReferenceStore.answer id
     (JStr "6f1c2a3e-0000-4000-8000-00000000000a") run2.2).1 = Return (JBool true) ∧
  (engagement_hasLiked ReferenceStore.answer id
     (JStr "6f1c2a3e-0000-4000-8000-00000000000a") run3.2).1 = Return (JBool false).
Proof. vm_compute. repeat split; reflexivity. Qed.

End EngagementFacts.

(** ** More on utils/dataService.js *)

Module DataServiceMore.
Import DataService.

(** X1: an entry written by [cache.set] at clock reading [t] is what
    [cache.get] returns for that key while its age is within [maxAge],
    whatever the payload, and the cache is left as it was; but an entry
    written at clock reading 0 reads as missing. Reading another key is not
    affected by the write. *)
Theorem cache_set_then_get (key other : string) (d : JsVal) (t now maxAge : Z) (c : Cache) :
  (now - t ≤ maxAge)%Z →
  cache_get key maxAge now (cache_set key d t c) =
    (if (t =? 0)%Z then JNull else d, cache_set key d t c) ∧
  (other ≠ key →
   (cache_get other maxAge now (cache_set key d t c)).1 = (cache_get other maxAge now c).1).
Proof.
  intros Hage. split.
  - unfold cache_get, cache_set. simpl. rewrite !lookup_insert_eq. simpl.
    destruct (t =? 0)%Z; [done|].
    destruct (Z.gtb_spec (now - t) maxAge); [lia|done].
  - intros Hne. unfold cache_get, cache_set. simpl.
    rewrite !lookup_insert_ne by done.
    destruct (no_timestamp _); [done|]. by destruct (_ >? _)%Z.
Qed.

Lemma cache_set_then_get_witness :
  (1500 - 1000 ≤ 60000)%Z ∧
  cache_get "posts:published:[6,0]" 60000 1500
    (cache_set "posts:published:[6,0]" (JNum 0) 1000 empty_cache) =
    (JNum 0, cache_set "posts:published:[6,0]" (JNum 0) 1000 empty_cache).
Proof.
  split; [lia|].
  exact (proj1 (cache_set_then_get "posts:published:[6,0]" "" (JNum 0) 1000 1500 60000
                  empty_cache ltac:(lia))).
Defined.

(** X2: [cache.get] on an entry older than the caller's [maxAge] deletes its
    payload and timestamp and touches no other key; the entry is then
    missing for every later reader, also one with a larger maximum age. *)
Theorem expired_entry_is_evicted (key : string) (t now maxAge : Z) (c : Cache) :
  timestamps c !! key = Some t → t ≠ 0%Z → (now - t > maxAge)%Z →
  let c' := (cache_get key maxAge now c).2 in
  (cache_get key maxAge now c).1 = JNull ∧
  data c' !! key = None ∧ timestamps c' !! key = None ∧
  (∀ k, k ≠ key → data c' !! k = data c !! k ∧ timestamps c' !! k = timestamps c !! k) ∧
  (∀ now' maxAge', cache_get key maxAge' now' c' = (JNull, c')).
Proof.
  intros Hts Hnz Hage.
  assert (Hget : cache_get key maxAge now c =
                 (JNull, mkCache (delete key (data c)) (delete key (timestamps c)))).
  { unfold cache_get. rewrite Hts. simpl.
    destruct (Z.eqb_spec t 0); [done|].
    destruct (Z.gtb_spec (now - t) maxAge); [done|lia]. }
  rewrite Hget. simpl. rewrite !lookup_delete_eq. repeat split; try done.
  - by rewrite lookup_delete_ne.
  - by rewrite lookup_delete_ne.
  - intros now' maxAge'. unfold cache_get. simpl. by rewrite lookup_delete_eq.
Qed.

Lemma expired_entry_is_evicted_witness :
  let c := cache_set "categories:all:[]" (JArr []) 1000 empty_cache in
  let c' := (cache_get "categories:all:[]" 100 2000 c).2 in
  (cache_get "categories:all:[]" 60000 2000 c).1 = JArr [] ∧
  (cache_get "categories:all:[]" 60000 2000 c').1 = JNull.
Proof.
  split; [vm_compute; reflexivity|].
  pose proof (expired_entry_is_evicted "categories:all:[]" 1000 2000 100
                (cache_set "categories:all:[]" (JArr []) 1000 empty_cache)
                ltac:(vm_compute; reflexivity) ltac:(lia) ltac:(lia))
    as (_ & _ & _ & _ & Hlater).
  cbv zeta in Hlater. by rewrite Hlater.
Defined.


Section Wrapper.
Context {E : Type}.
Variable JSON_stringify : JsVal → string.
Variable fetchFn : list JsVal → Async (E:=E) JsVal.
Variable cacheKey : string.
Variable cacheMaxAge : Z.
Variable fallbackFn : option (list JsVal → Async (E:=E) JsVal).

Abbreviation wrapped :=
  (createCacheableFetch JSON_stringify fetchFn cacheKey cacheMaxAge fallbackFn).
Abbreviation full_key := (cacheKeyWithArgs JSON_stringify cacheKey).

(** A lookup that misses keeps missing until something is stored. *)
Lemma miss_is_stable (key : string) (maxAge now now' : Z) (c : Cache) :
  truthy (cache_get key maxAge now c).1 = false →
  truthy (cache_get key maxAge now' (cache_get key maxAge now c).2).1 = false.
Proof.
  unfold cache_get. destruct (timestamps c !! key) as [t|] eqn:Hts; simpl.
  - destruct (t =? 0)%Z eqn:Hz; simpl.
    + intros _. rewrite Hts. simpl. by rewrite Hz.
    + destruct (now - t >? maxAge)%Z; simpl.
      * intros _. by rewrite lookup_delete_eq.
      * intros Hfalsy. rewrite Hts. simpl. rewrite Hz.
        by destruct (now' - t >? maxAge)%Z.
  - intros _. by rewrite Hts.
Qed.

(** X4: when the fetch function throws, nothing is stored: with a fallback
    the call returns what the fallback returns, without one the error is
    thrown on; either way the next identical call, at any later time,
    invokes the fetch function again. *)
Theorem failed_fetch_is_not_cached (args : list JsVal) (st : St) (error : JsVal) (env1 : Env) :
  truthy (cache_get (full_key args) cacheMaxAge (now (env st)) (cache st)).1 = false →
  fetchFn args (env st) = (Throw error, env1) →
  let st1 := (wrapped args st).2 in
  (wrapped args st).1 =
    match fallbackFn with
    | Some fb => (fb args env1).1
    | None => Throw error
    end ∧
  cache st1 = (cache_get (full_key args) cacheMaxAge (now (env st)) (cache st)).2 ∧
  (∀ k, data (cache st1) !! k = data (cache st) !! k ∨ data (cache st1) !! k = None) ∧
  (∀ e2 : Env,
      (wrapped args (later e2 st1)).1 =
        fresh_outcome fetchFn fallbackFn args e2 ∧
      fetch_calls (wrapped args (later e2 st1)).2 = S (fetch_calls st1)).
Proof.
  intros Hmiss Hfetch st1.
  assert (Hst1 : cache st1 = (cache_get (full_key args) cacheMaxAge (now (env st)) (cache st)).2
                 ∧ (wrapped args st).1 =
                   match fallbackFn with Some fb => (fb args env1).1 | None => Throw error end).
  { subst st1. unfold createCacheableFetch.
    destruct (cache_get _ _ _ _) as [cachedData c1]. simpl in Hmiss. rewrite Hmiss, Hfetch.
    destruct fallbackFn as [fb|]; [|done]. by destruct (fb args env1). }
  destruct Hst1 as [Hcache Hresult]. split; [done|]. split; [done|]. split.
  - intros k. rewrite Hcache. unfold cache_get.
    destruct (no_timestamp _); [by left|]. destruct (_ >? _)%Z; [|by left]. simpl.
    destruct (decide (full_key args = k)) as [<-|Hne].
    + right. by rewrite lookup_delete_eq.
    + left. by rewrite lookup_delete_ne.
  - intros e2.
    apply (miss_invokes_fetch JSON_stringify fetchFn cacheKey cacheMaxAge fallbackFn args
             (later e2 st1)).
    unfold later. simpl. rewrite Hcache. by apply miss_is_stable.
Qed.

Lemma wrapped_wf (args : list JsVal) (st : St) :
  cache_wf (cache st) → cache_wf (cache (wrapped args st).2).
Proof.
  intros Hwf.
  pose proof (cache_get_wf (full_key args) cacheMaxAge (now (env st)) (cache st) Hwf) as Hget.
  unfold createCacheableFetch. destruct (cache_get _ _ _ _) as [cachedData c1]. simpl in Hget.
  destruct (truthy cachedData); [done|].
  destruct (fetchFn args (env st)) as [[v|e] env1]; simpl.
  - by apply cache_set_wf.
  - destruct fallbackFn as [fb|]; [|done]. by destruct (fb args env1).
Qed.

Lemma invalidate_wf (key : string) (isPrefix : bool) (c : Cache) :
  cache_wf c → cache_wf (invalidateCache key isPrefix c).
Proof.
  intros Hwf k. destruct isPrefix.
  - unfold invalidateCache, cache_invalidate.
    rewrite foldl_delete_entry_data, foldl_delete_entry_timestamps.
    case_decide; [split; intros [? ?]; done|]. apply Hwf.
  - simpl. destruct (decide (key = k)) as [->|Hne].
    + rewrite !lookup_delete_eq. split; intros [? ?]; done.
    + rewrite !lookup_delete_ne by done. apply Hwf.
Qed.

(** X5: the wrapped fetch keeps the cache well formed: if every entry has
    both a payload and a timestamp before a call, so it has after, whether
    the call hits, fetches, falls back or throws; and so do [cache.set],
    [cache.get], both kinds of invalidation and [cache.clear]. *)
Theorem cache_stays_well_formed (args : list JsVal) (st : St) (key : string) (d : JsVal)
    (t maxAge : Z) (isPrefix : bool) :
  cache_wf (cache st) →
  cache_wf (cache (wrapped args st).2) ∧
  cache_wf (cache_set key d t (cache st)) ∧
  cache_wf (cache_get key maxAge t (cache st)).2 ∧
  cache_wf (invalidateCache key isPrefix (cache st)) ∧
  cache_wf (clearCache (cache st)).
Proof.
  intros Hwf.
  split; [by apply wrapped_wf|].
  split; [by apply cache_set_wf|].
  split; [by apply cache_get_wf|].
  split; [by apply invalidate_wf|].
  apply empty_cache_wf.
Qed.

Lemma prefix_invalidated_payload (p key : string) (c : Cache) :
  String.prefix p key = true → data (invalidateCache p true c) !! key = None.
Proof.
  intros Hp. unfold invalidateCache, cache_invalidate.
  rewrite foldl_delete_entry_data. case_decide as Hin; [done|].
  destruct (data c !! key) eqn:Hk; [|done].
  exfalso. apply Hin, elem_of_keysToDelete. eauto.
Qed.

(** X6: invalidating by the prefix [cacheKey] empties the cache of a
    wrapped fetch for every argument list: whatever was cached, the next
    call with any arguments invokes the fetch function. *)
Theorem prefix_invalidation_clears_wrapper (args : list JsVal) (st : St) :
  let st' := mkSt (invalidateCache cacheKey true (cache st)) (env st) (fetch_calls st) in
  (wrapped args st').1 = fresh_outcome fetchFn fallbackFn args (env st) ∧
  fetch_calls (wrapped args st').2 = S (fetch_calls st).
Proof.
  intros st'.
  apply (miss_invokes_fetch JSON_stringify fetchFn cacheKey cacheMaxAge fallbackFn args st').
  subst st'. cbn [cache env].
  assert (Hgone : data (invalidateCache cacheKey true (cache st)) !! full_key args = None).
  { apply prefix_invalidated_payload, prefix_iff_app. by eexists. }
  unfold cache_get. destruct (no_timestamp _); [done|].
  destruct (_ >? _)%Z; [done|]. cbn [fst]. by rewrite Hgone.
Qed.

End Wrapper.

(** A fetch function that fails, and a fallback that serves an empty page. *)
Definition fetch_fails (args : list JsVal) : Async (E:=unit) JsVal :=
  λ e, (Throw (JStr "Failed to fetch"), e).

Definition empty_page (args : list JsVal) : Async (E:=unit) JsVal :=
  λ e, (Return (JArr []), e).

Lemma failed_fetch_is_not_cached_witness :
  let call := createCacheableFetch json_text fetch_fails "posts:published" 60000
                (Some empty_page) [JNum 6; JNum 0] in
  let st1 := (call (start 1000)).2 in
  (call (start 1000)).1 = Return (JArr []) ∧
  data (cache st1) !! "posts:published:[6,0]" = None ∧
  fetch_calls (call (later (mkEnv 1001 tt) st1)).2 = 2.
Proof.
  pose proof (failed_fetch_is_not_cached json_text fetch_fails "posts:published" 60000
                (Some empty_page) [JNum 6; JNum 0] (start 1000) (JStr "Failed to fetch")
                (mkEnv 1000 tt) ltac:(vm_compute; reflexivity) eq_refl)
    as (Hresult & Hcache & _ & Hnext).
  split; [exact Hresult|]. split; [by rewrite Hcache|].
  exact (proj2 (Hnext (mkEnv 1001 tt))).
Defined.

Lemma cache_stays_well_formed_witness :
  let call := createCacheableFetch json_text fetch_page "posts:published" 60000 None
                [JNum 6; JNum 0] in
  cache_wf (cache (call (start 1000)).2) ∧
  cache_wf (invalidateCache "posts" true (cache (start 1000))).
Proof.
  pose proof (cache_stays_well_formed json_text fetch_page "posts:published" 60000 None
                [JNum 6; JNum 0] (start 1000) "posts" JNull 0 0 true empty_cache_wf)
    as (Hcall & _ & _ & Hinv & _).
  by split.
Defined.

End DataServiceMore.

(** ** More of services/api.js and services/supabase.js *)

Module ApiMore.
Import Runtime MockData Api ApiFacts.

Section Services.
Context {R : Type}.
Variable supabase : Store (R:=R).

Definition select_category_by_slug (slug : JsVal) : Request :=
  ReqSelect "categories" (mkSelect "*" [Eq "slug" slug] None None None Single false).

(** [mockCategories.find(cat => cat.slug === slug) || null] *)
Definition mock_category_by_slug (slug : JsVal) : JsVal :=
  js_or (js_find (λ cat, strict_eq (field cat "slug") slug) mockCategories) JNull.

(** [categoriesService.getBySlug(slug)] *)
Definition categories_getBySlug (slug : JsVal) : M (R:=R) JsVal :=
  w ← get_world;
  if negb (configured w) then mret (mock_category_by_slug slug)
  else
    try_catch
      (r ← await_request supabase (select_category_by_slug slug);
       if truthy (error r) then throw (error r)
       else mret (data r))
      (λ _, mret (mock_category_by_slug slug)).

Definition select_category_id (categorySlug : JsVal) : Request :=
  ReqSelect "categories" (mkSelect "id" [Eq "slug" categorySlug] None None None Single false).

Definition select_by_category (categoryId : JsVal) (limit offset : Z) : Request :=
  ReqSelect "posts"
    (mkSelect "*, categories (*)" [Eq "category_id" categoryId]
       (Some ("published_at", false)) (Some (offset, offset + limit - 1)%Z) None Many false).

(** [post => post.categories && post.categories.slug === categorySlug] *)
Definition in_category (categorySlug : JsVal) (post : JsVal) : bool :=
  truthy (js_and (field post "categories")
            (JBool (strict_eq (field (field post "categories") "slug") categorySlug))).

(** The fallback of [getByCategory]: filter the dataset, then slice. *)
Definition mock_posts_by_category (categorySlug : JsVal) (limit offset : Z) : JsVal :=
  let categoryPosts := List.filter (in_category categorySlug) mockPosts in
  JArr (js_slice categoryPosts offset (offset + limit)).

(** [postsService.getByCategory(categorySlug, limit, offset)] *)
Definition posts_getByCategory (categorySlug : JsVal) (limit offset : Z) : M (R:=R) JsVal :=
  w ← get_world;
  if negb (configured w) then mret (mock_posts_by_category categorySlug limit offset)
  else
    try_catch
      (c ← await_request supabase (select_category_id categorySlug);
       if truthy (error c) then throw (error c)
       else
         categoryId ← lift (prop (data c) "id");
         r ← await_request supabase (select_by_category categoryId limit offset);
         if truthy (error r) then throw (error r)
         else mret (js_or (data r) (JArr [])))
      (λ _, mret (mock_posts_by_category categorySlug limit offset)).

End Services.

Lemma strict_eq_str_false (s : string) (v : JsVal) :
  strict_eq (JStr s) v = false → JStr s ≠ v.
Proof. intros Hne <-. simpl in Hne. by rewrite String.eqb_refl in Hne. Qed.

Lemma js_find_some (pred : JsVal → bool) (l : list JsVal) (x : JsVal) :
  List.find pred l = Some x → js_find pred l = x ∧ x ∈ l ∧ pred x = true.
Proof.
  intros Hfind. unfold js_find. rewrite Hfind. split; [done|].
  apply find_some in Hfind as [Hin Hx]. by apply list_elem_of_In in Hin.
Qed.

(** The fallback lookup finds a category with the slug, or else no
    category of the dataset has it. *)
Lemma mock_category_by_slug_spec (slug : JsVal) :
  (mock_category_by_slug slug ∈ mockCategories ∧
   field (mock_category_by_slug slug) "slug" = slug) ∨
  (mock_category_by_slug slug = JNull ∧
   ∀ c, c ∈ mockCategories → field c "slug" ≠ slug).
Proof.
  unfold mock_category_by_slug.
  destruct (List.find (λ cat, strict_eq (field cat "slug") slug) mockCategories)
    as [c|] eqn:Hfind.
  - left. apply js_find_some in Hfind as (Hfound & Hin & Heq). rewrite Hfound.
    assert (Hobj : truthy c = true).
    { clear Heq. repeat (apply elem_of_cons in Hin as [->|Hin]; [done|]).
      by apply elem_of_nil in Hin. }
    unfold js_or. rewrite Hobj. split; [done|]. by apply strict_eq_true.
  - right. unfold js_find. rewrite Hfind. split; [done|].
    intros c Hc. apply list_elem_of_In in Hc.
    pose proof (find_none _ _ Hfind c Hc) as Hne. simpl in Hne.
    apply list_elem_of_In in Hc.
    repeat (apply elem_of_cons in Hc as [->|Hc]; [by apply strict_eq_str_false|]).
    by apply elem_of_nil in Hc.
Qed.

Section Facts.
Context {R : Type}.
Variable supabase : Store (R:=R).

(** X7: [categories.getBySlug(slug)] never throws. When the fallback is
    served (gate closed, or the remote request fails) it resolves to the
    category of the fallback dataset that has this slug, and to null
    exactly when no category of the dataset has it; no request is sent
    with the gate closed. With the gate open and a request that succeeds it
    resolves to the row the store delivered. *)
Theorem categories_getBySlug_by_mode (slug : JsVal) (w : World R) :
  (∃ v w', categories_getBySlug supabase slug w = (Return v, w')) ∧
  (configured w = false →
     categories_getBySlug supabase slug w = (Return (mock_category_by_slug slug), w)) ∧
  (configured w = false ∨ request_fails supabase (select_category_by_slug slug) (remote w) →
     (categories_getBySlug supabase slug w).1 = Return (mock_category_by_slug slug) ∧
     ((mock_category_by_slug slug ∈ mockCategories ∧
       field (mock_category_by_slug slug) "slug" = slug) ∨
      (mock_category_by_slug slug = JNull ∧
       ∀ c, c ∈ mockCategories → field c "slug" ≠ slug))) ∧
  (∀ r s', configured w = true →
     supabase (select_category_by_slug slug) (remote w) = (Return r, s') →
     truthy (error r) = false →
     (categories_getBySlug supabase slug w).1 = Return (data r)).
Proof.
  split; [|split; [|split]].
  - unfold categories_getBySlug. run_service.
    destruct (configured w); simpl; [|by eauto].
    destruct (supabase _ (remote w)) as [[r|e] s']; simpl; [|by eauto].
    destruct (truthy (error r)); by eauto.
  - intros Hconf. unfold categories_getBySlug. run_service. by rewrite Hconf.
  - intros Hmode. split; [|apply mock_category_by_slug_spec].
    unfold categories_getBySlug. run_service.
    destruct (configured w) eqn:Hconf; simpl; [|done].
    destruct Hmode as [?|Hfails]; [done|]. unfold request_fails in Hfails.
    destruct (supabase (select_category_by_slug slug) (remote w)) as [[r|e] s']; simpl; [|done].
    by rewrite Hfails.
  - intros r s' Hconf Hreq Hok. unfold categories_getBySlug. run_service.
    rewrite Hconf. simpl. rewrite Hreq. simpl. by rewrite Hok.
Qed.

Lemma in_category_slug (slug post : JsVal) :
  in_category slug post = true → field (field post "categories") "slug" = slug.
Proof.
  unfold in_category, js_and.
  destruct (truthy (field post "categories")) eqn:Hcat; [|by rewrite Hcat].
  simpl. apply strict_eq_true.
Qed.

(** When [getByCategory] serves its fallback: the gate is closed; or the
    category lookup rejects, resolves with an error, or delivers no row
    (reading [category.id] of null throws); or the posts query, sent for
    the id the lookup delivered, rejects or resolves with an error. *)
Definition serves_fallback (categorySlug : JsVal) (limit offset : Z) (w : World R) : Prop :=
  configured w = false ∨
  match supabase (select_category_id categorySlug) (remote w) with
  | (Throw _, _) => True
  | (Return c, s1) =>
      truthy (error c) = true ∨
      nullish (data c) = true ∨
      request_fails supabase (select_by_category (field (data c) "id") limit offset) s1
  end.

(** X8: for a non-negative limit and offset, [posts.getByCategory] never
    throws, and when the fallback is served (the gate is closed; the
    category lookup rejects, resolves with an error or delivers no row; or
    the posts query rejects or resolves with an error) it resolves to the
    window [offset, offset+limit) of the fallback posts whose category has
    the requested slug, in the order of the dataset: every post returned
    carries that category, and is published. When the category lookup
    rejects, resolves with an error or delivers no row, the posts query is
    not sent. In every other case it resolves to what the posts query
    delivered, and to the empty list for a falsy delivery. *)
Theorem getByCategory_fallback (categorySlug : JsVal) (limit offset : Z) (w : World R) :
  (0 ≤ offset)%Z → (0 ≤ limit)%Z →
  (∃ v w', posts_getByCategory supabase categorySlug limit offset w = (Return v, w')) ∧
  (serves_fallback categorySlug limit offset w →
     let served := window offset limit (List.filter (in_category categorySlug) mockPosts) in
     (posts_getByCategory supabase categorySlug limit offset w).1 = Return (JArr served) ∧
     Forall (λ p, p ∈ mockPosts ∧
                  field (field p "categories") "slug" = categorySlug ∧ published p) served) ∧
  (configured w = true →
   match supabase (select_category_id categorySlug) (remote w) with
   | (Throw _, _) => True
   | (Return c, _) => truthy (error c) = true ∨ nullish (data c) = true
   end →
   requests (posts_getByCategory supabase categorySlug limit offset w).2 =
     requests w ++ [select_category_id categorySlug]) ∧
  (∀ c s1 r s2,
     configured w = true →
     supabase (select_category_id categorySlug) (remote w) = (Return c, s1) →
     truthy (error c) = false → nullish (data c) = false →
     supabase (select_by_category (field (data c) "id") limit offset) s1 = (Return r, s2) →
     truthy (error r) = false →
     (posts_getByCategory supabase categorySlug limit offset w).1 =
       Return (js_or (data r) (JArr []))).
Proof.
  intros Ho Hl. split; [|split; [|split]].
  - unfold posts_getByCategory. run_service.
    destruct (configured w); simpl; [|by eauto].
    destruct (supabase _ (remote w)) as [[c|e] s1]; simpl; [|by eauto].
    destruct (truthy (error c)); simpl; [by eauto|].
    destruct (prop (data c) "id") as [categoryId|e]; simpl; [|by eauto].
    destruct (supabase _ s1) as [[r|e] s2]; simpl; [|by eauto].
    destruct (truthy (error r)); by eauto.
  - intros Hmode served. subst served. split.
    + unfold posts_getByCategory, mock_posts_by_category. run_service.
      rewrite js_slice_window by done.
      destruct (configured w) eqn:Hconf; simpl; [|done].
      destruct Hmode as [?|Hfails]; [congruence|].
      destruct (supabase (select_category_id categorySlug) (remote w)) as [[c|e] s1];
        simpl; [|done].
      destruct (truthy (error c)) eqn:Herr; simpl; [done|].
      destruct Hfails as [?|[Hnull|Hposts]]; [done| |].
      * unfold prop. by rewrite Hnull.
      * unfold prop. destruct (nullish (data c)); simpl; [done|].
        unfold request_fails in Hposts.
        destruct (supabase _ s1) as [[r|e] s2]; simpl; [|done].
        by rewrite Hposts.
    + apply Forall_forall. intros p Hp. apply window_subset in Hp.
      apply list_elem_of_In, filter_In in Hp as [Hin Hcat].
      apply list_elem_of_In in Hin. split; [done|]. split; [by apply in_category_slug|].
      pose proof mockPosts_published as Hpub. rewrite Forall_forall in Hpub. by apply Hpub.
  - intros Hconf Hlookup. unfold posts_getByCategory. run_service. rewrite Hconf. simpl.
    destruct (supabase (select_category_id categorySlug) (remote w)) as [[c|e] s1];
      simpl; [|done].
    destruct (truthy (error c)) eqn:Herr; simpl; [done|].
    destruct Hlookup as [?|Hnull]; [done|]. unfold prop. by rewrite Hnull.
  - intros c s1 r s2 Hconf Hlookup Hok Hrow Hposts Hok'.
    unfold posts_getByCategory. run_service. rewrite Hconf. simpl.
    rewrite Hlookup. simpl. rewrite Hok. simpl. unfold prop. rewrite Hrow. simpl.
    rewrite Hposts. simpl. by rewrite Hok'.
Qed.

End Facts.

(** A store whose every answer is an empty one: no row, no error. *)
Definition no_row_store : Store (R:=unit) :=
  λ _ s, (Return (mkResponse JNull JNull JNull), s).

Lemma getByCategory_fallback_witness :
  ((0 ≤ 0)%Z ∧ (0 ≤ 6)%Z) ∧
  serves_fallback no_row_store (JStr "travel") 6 0 (world url anon_key tt) ∧
  (posts_getByCategory no_row_store (JStr "travel") 6 0 (world url anon_key tt)).1 =
    Return (JArr (window 0 6 (List.filter (in_category (JStr "travel")) mockPosts))) ∧
  map (λ p, field p "slug")
    (window 0 6 (List.filter (in_category (JStr "travel")) mockPosts)) =
    [JStr "best-travel-destinations-2024"].
Proof.
  split; [lia|].
  assert (Hserved : serves_fallback no_row_store (JStr "travel") 6 0 (world url anon_key tt))
    by (right; right; left; reflexivity).
  split; [exact Hserved|]. split; [|vm_compute; reflexivity].
  pose proof (getByCategory_fallback no_row_store (JStr "travel") 6 0
                (world url anon_key tt) ltac:(lia) ltac:(lia)) as (_ & Hfallback & _).
  exact (proj1 (Hfallback Hserved)).
Defined.

Lemma select_by_category_answer (db : ReferenceStore.Db) (categoryId : JsVal)
    (limit offset : Z) :
  (0 ≤ offset)%Z →
  ReferenceStore.select db "posts"
    (mkSelect "*, categories (*)" [Eq "category_id" categoryId]
       (Some ("published_at", false)) (Some (offset, offset + limit - 1)%Z) None Many false) =
  mkResponse
    (JArr (map (with_category db)
             (window offset limit
                (ReferenceStore.sort_rows (ReferenceStore.before "published_at" false)
                   (List.filter
                      (λ row, strict_eq (field row "category_id") categoryId && true)
                      (List.filter (ReferenceStore.posts_policy db) (ReferenceStore.posts db)))))))
    JNull JNull.
Proof.
  intros Ho. unfold ReferenceStore.select.
  cbn -[ReferenceStore.sort_rows ReferenceStore.before ReferenceStore.in_range Z.add Z.sub
        Z.ltb field strict_eq].
  destruct (Z.ltb_spec offset 0) as [?|_]; [lia|].
  by rewrite in_range_window.
Qed.

(** X9: over the reference store, with the gate open and a category lookup
    that finds the category, [posts.getByCategory] resolves, for a
    non-negative limit and offset, to rows that all reference the id the
    lookup delivered, that the store's policy exposes, ordered newest
    first. *)
Theorem getByCategory_remote (categorySlug : JsVal) (limit offset : Z)
    (w : World ReferenceStore.Db) (c : JsVal) :
  (0 ≤ offset)%Z →
  configured w = true → ReferenceStore.online (remote w) = true →
  ReferenceStore.select (remote w) "categories"
    (mkSelect "id" [Eq "slug" categorySlug] None None None Single false) =
    mkResponse c JNull JNull →
  nullish c = false →
  ∃ rows,
    (posts_getByCategory ReferenceStore.answer categorySlug limit offset w).1 =
      Return (JArr rows) ∧
    Forall (λ p, field p "category_id" = field c "id" ∧
                 ∃ row, row ∈ ReferenceStore.posts (remote w) ∧
                        ReferenceStore.posts_policy (remote w) row = true ∧
                        p = with_category (remote w) row) rows ∧
    newest_first rows.
Proof.
  intros Ho Hconf Honline Hcat Hc. eexists. split; [|split].
  - unfold posts_getByCategory. run_service. rewrite Hconf. simpl.
    unfold ReferenceStore.answer, select_category_id, select_by_category.
    rewrite Honline. simpl negb. cbv iota. rewrite Hcat. simpl.
    unfold prop. rewrite Hc. simpl. rewrite Honline. simpl.
    rewrite select_by_category_answer by done. reflexivity.
  - apply Forall_map, Forall_forall. intros row Hrow. apply window_subset in Hrow.
    rewrite (sort_rows_perm _ _) in Hrow.
    apply list_elem_of_In, filter_In in Hrow as [Hrow Hmatch].
    apply filter_In in Hrow as [Hin Hpolicy]. apply list_elem_of_In in Hin.
    rewrite andb_true_r in Hmatch. apply strict_eq_true in Hmatch.
    split.
    + unfold with_category. by rewrite field_with_field_ne.
    + by exists row.
  - unfold newest_first. rewrite sortedb_map.
    + apply sortedb_window, sort_rows_sorted, before_total.
    + intros a b. unfold ReferenceStore.before, with_category.
      by rewrite !field_with_field_ne.
Qed.

Lemma getByCategory_remote_witness :
  let w := world url anon_key (seeded published_only (draft :: mockPosts) true) in
  ∃ rows,
    (posts_getByCategory ReferenceStore.answer (JStr "design") 6 0 w).1 = Return (JArr rows) ∧
    Forall (λ p, field p "category_id" = JStr "b9b5f12d-d4a5-4e3e-a4bc-3d0e30db0c18") rows.
Proof.
  destruct (getByCategory_remote (JStr "design") 6 0
              (world url anon_key (seeded published_only (draft :: mockPosts) true))
              (JObj [("id", JStr "b9b5f12d-d4a5-4e3e-a4bc-3d0e30db0c18")])
              ltac:(lia) eq_refl eq_refl ltac:(vm_compute; reflexivity) eq_refl)
    as (rows & Hrun & Hrows & _).
  exists rows. split; [exact Hrun|].
  eapply Forall_impl; [exact Hrows|]. by intros p [Hp _].
Defined.

Section Writes.
Context {R : Type}.
Variable supabase : Store (R:=R).

(** The world after [postsService.incrementViews] has been entered. *)
Definition entered (postId : JsVal) (w : World R) : World R :=
  mkWorld (VITE_SUPABASE_URL w) (VITE_SUPABASE_ANON_KEY w) (localStorage w)
    (sessionStorage w) (remote w) (uuids w) (randoms w) (requests w)
    (increment_calls w ++ [postId]).

(** X10: [posts.incrementViews(postId)] is a read followed by a write of
    the value read plus one. With the gate closed it resolves to [true]
    and sends nothing. With the gate open: when the read fails (the request
    rejects, resolves with an error, or delivers no row) it resolves to
    [false] and no update is sent; when the read delivers the counter [n],
    exactly two requests are sent, the read and an update that sets
    [views] to [n + 1], and the result is [true] exactly when the update
    resolved without an error. *)
Theorem incrementViews_read_then_write (postId : JsVal) (w : World R) :
  (configured w = false →
     posts_incrementViews supabase postId w = (Return (JBool true), entered postId w)) ∧
  (configured w = true →
     match supabase (select_views postId) (remote w) with
     | (Throw _, _) =>
         (posts_incrementViews supabase postId w).1 = Return (JBool false) ∧
         requests (posts_incrementViews supabase postId w).2 =
           requests w ++ [select_views postId]
     | (Return r, s1) =>
         if truthy (error r) || nullish (data r) then
           (posts_incrementViews supabase postId w).1 = Return (JBool false) ∧
           requests (posts_incrementViews supabase postId w).2 =
             requests w ++ [select_views postId]
         else
           ∀ n, field (data r) "views" = JNum n →
             requests (posts_incrementViews supabase postId w).2 =
               requests w ++ [select_views postId; update_views postId (JNum (n + 1))] ∧
             (posts_incrementViews supabase postId w).1 =
               Return (JBool match supabase (update_views postId (JNum (n + 1))) s1 with
                             | (Return u, _) => negb (truthy (error u))
                             | (Throw _, _) => false
                             end)
     end).
Proof.
  split; intros Hconf; unfold posts_incrementViews, note_increment; run_service;
    change (configured _) with (configured w); rewrite Hconf; simpl; [done|].
  destruct (supabase (select_views postId) (remote w)) as [[r|e] s1]; simpl; [|done].
  destruct (truthy (error r)) eqn:Herr; simpl; [done|].
  unfold prop. destruct (nullish (data r)) eqn:Hnull; simpl; [done|].
  intros n Hn. rewrite Hn.
  assert (Hadd : js_add (js_or (JNum n) (JNum 0)) (JNum 1) = JNum (n + 1)).
  { unfold js_or. simpl. destruct (n =? 0)%Z eqn:Hz; simpl; [|done].
    apply Z.eqb_eq in Hz. by subst. }
  rewrite Hadd.
  destruct (supabase (update_views postId (JNum (n + 1))) s1) as [[u|e] s2]; simpl.
  - destruct (truthy (error u)); simpl; by rewrite <- app_assoc.
  - by rewrite <- app_assoc.
Qed.

(** X11: the guest identity is stable. [signInAnonymously()] never throws
    and resolves to null or to a guest; with a configuration value missing
    it resolves to null and leaves the world as it is; and once it has
    resolved to a guest with a non-empty id, every later call that finds
    the same item under [blog_guest_id] resolves to the same guest, writes
    nothing and draws no new identifier. *)
Theorem guest_id_is_stable (w : World R) :
  (truthy (VITE_SUPABASE_URL w) = false ∨ truthy (VITE_SUPABASE_ANON_KEY w) = false →
     signInAnonymously w = (Return JNull, w)) ∧
  (∃ v w1, signInAnonymously w = (Return v, w1) ∧
     (v = JNull ∨
      ∃ g, v = guest g ∧ text_string <$> (localStorage w1 !! "blog_guest_id") = Some g ∧
           (g ≠ EmptyString →
            ∀ w2 : World R,
              truthy (VITE_SUPABASE_URL w2) = true →
              truthy (VITE_SUPABASE_ANON_KEY w2) = true →
              localStorage w2 !! "blog_guest_id" = localStorage w1 !! "blog_guest_id" →
              signInAnonymously w2 = (Return (guest g), w2)))).
Proof.
  assert (Hread : ∀ (w2 : World R) a rest,
            truthy (VITE_SUPABASE_URL w2) = true →
            truthy (VITE_SUPABASE_ANON_KEY w2) = true →
            text_string <$> (localStorage w2 !! "blog_guest_id") = Some (String a rest) →
            signInAnonymously w2 = (Return (guest (String a rest)), w2)).
  { intros w2 a rest Hurl Hkey Hitem. unfold signInAnonymously. run_service.
    rewrite Hurl, Hkey. simpl. by rewrite Hitem. }
  split.
  - intros Hmissing. unfold signInAnonymously. run_service.
    by destruct Hmissing as [-> | ->]; simpl; rewrite ?orb_true_r.
  - destruct (truthy (VITE_SUPABASE_URL w)) eqn:Hurl;
      [destruct (truthy (VITE_SUPABASE_ANON_KEY w)) eqn:Hkey|].
    + destruct (text_string <$> (localStorage w !! "blog_guest_id")) as [[|a rest]|] eqn:Hitem.
      * unfold signInAnonymously, randomUUID. run_service. rewrite Hurl, Hkey. simpl.
        rewrite Hitem. simpl.
        destruct (uuids w) as [|g us]; simpl; [by eauto|].
        eexists _, _. split; [reflexivity|]. right. exists g. split; [done|].
        cbn [localStorage]. rewrite lookup_insert_eq. split; [done|].
        intros Hg w2 Hurl2 Hkey2 Hsame. destruct g as [|a rest]; [done|].
        apply Hread; [done..|]. by rewrite Hsame.
      * exists (guest (String a rest)), w. split; [by apply Hread|]. right.
        exists (String a rest). split; [done|]. split; [done|].
        intros _ w2 Hurl2 Hkey2 Hsame. apply Hread; [done..|]. by rewrite Hsame.
      * unfold signInAnonymously, randomUUID. run_service. rewrite Hurl, Hkey. simpl.
        rewrite Hitem. simpl.
        destruct (uuids w) as [|g us]; simpl; [by eauto|].
        eexists _, _. split; [reflexivity|]. right. exists g. split; [done|].
        cbn [localStorage]. rewrite lookup_insert_eq. split; [done|].
        intros Hg w2 Hurl2 Hkey2 Hsame. destruct g as [|a rest]; [done|].
        apply Hread; [done..|]. by rewrite Hsame.
    + exists JNull, w. split; [|by left].
      unfold signInAnonymously. run_service. by rewrite Hurl, Hkey.
    + exists JNull, w. split; [|by left].
      unfold signInAnonymously. run_service. by rewrite Hurl.
Qed.

(** What [toggleLike] may change in the browser: the item [blog_guest_id]
    of the local storage, and nothing else. *)
Definition only_guest_id_written (w w' : World R) : Prop :=
  (∀ key, key ≠ "blog_guest_id" → localStorage w' !! key = localStorage w !! key) ∧
  sessionStorage w' = sessionStorage w ∧
  increment_calls w' = increment_calls w ∧
  randoms w' = randoms w ∧
  VITE_SUPABASE_URL w' = VITE_SUPABASE_URL w ∧
  VITE_SUPABASE_ANON_KEY w' = VITE_SUPABASE_ANON_KEY w.

Lemma only_guest_id_written_refl (w : World R) : only_guest_id_written w w.
Proof. done. Qed.

Lemma only_guest_id_written_trans (w1 w2 w3 : World R) :
  only_guest_id_written w1 w2 → only_guest_id_written w2 w3 → only_guest_id_written w1 w3.
Proof.
  unfold only_guest_id_written.
  intros (H1 & H2 & H3 & H4 & H5 & H6) (G1 & G2 & G3 & G4 & G5 & G6).
  rewrite G2, G3, G4, G5, G6. repeat split; try done.
  intros key Hkey. by rewrite G1, H1.
Qed.

Ltac guest_only :=
  repeat first
    [ apply (keeps_ret only_guest_id_written only_guest_id_written_refl)
    | apply (keeps_throw only_guest_id_written only_guest_id_written_refl)
    | apply (keeps_lift only_guest_id_written only_guest_id_written_refl)
    | apply (keeps_get_world only_guest_id_written only_guest_id_written_refl)
    | apply (keeps_bind only_guest_id_written only_guest_id_written_trans); [|intros ?]
    | apply (keeps_try_catch only_guest_id_written only_guest_id_written_trans); [|intros ?]
    | match goal with |- keeps _ (if ?b then _ else _) => destruct b end
    | match goal with |- keeps _ (match ?x with _ => _ end) => destruct x end
    | match goal with
      | |- keeps _ (await_request _ _) =>
          let w := fresh "w" in
          intros w; unfold await_request; destruct (supabase _ (remote w)); done
      | |- keeps _ randomUUID =>
          let w := fresh "w" in intros w; unfold randomUUID; destruct (uuids w); done
      | |- keeps _ (localStorage_getItem _) => done
      | |- keeps _ (localStorage_setItem "blog_guest_id" _) =>
          let w := fresh "w" in
          intros w; split; [|done]; intros ? ?; simpl; by rewrite lookup_insert_ne
      end ].

(** X12: [engagement.toggleLike] writes nothing in the browser but the
    guest identifier: every other item of the local storage, the whole
    session storage (so both engagement lists) and the configuration are
    as before, and no call of [incrementViews] is made. With the gate
    closed it resolves to [true] and changes nothing at all: no request is
    sent and no guest identifier is created. *)
Theorem toggleLike_writes_only_guest_id (postId : JsVal) (isLiked : bool) (w : World R) :
  only_guest_id_written w (engagement_toggleLike supabase postId isLiked w).2 ∧
  (configured w = false →
     engagement_toggleLike supabase postId isLiked w = (Return (JBool true), w)).
Proof.
  split.
  - revert w. change (keeps only_guest_id_written (engagement_toggleLike supabase postId isLiked)).
    unfold engagement_toggleLike, signInAnonymously. guest_only.
  - intros Hconf. unfold engagement_toggleLike. run_service. by rewrite Hconf.
Qed.

End Writes.

End ApiMore.

(** ** More of pages/PostPage.jsx *)

Module PostPageMore.
Import Runtime MockData Api ApiFacts EngagementFacts.

Section Sync.
Context {R : Type}.
Variable supabase : Store (R:=R).

(** The block of [fetchPost] that determines the initial liked state
    (``prefer DB check with guest id'') and keeps the persistent list in
    step with it, for the fetched [postData]. *)
Definition syncLikedState (postData : JsVal) (pg : PostPage.Page) : M (R:=R) PostPage.Page :=
  try_catch
    (auth ← signInAnonymously;
     let userId := opt_prop (opt_prop auth "user") "id" in
     if truthy userId then
       id ← lift (prop postData "id");
       hasLiked ← engagement_hasLiked supabase id userId;
       let likedFromDb := truthy hasLiked in
       let pg1 := PostPage.setLiked likedFromDb pg in
       try_catch
         (item ← localStorage_getItem "likedPosts";
          likedPosts ← lift (parse_or_empty item);
          items ← lift (as_array likedPosts);
          let exists_ := includes items id in
          if likedFromDb && negb exists_ then
            localStorage_setItem "likedPosts" (JSON_stringify (JArr (push items id)));;
            mret pg1
          else if negb likedFromDb && exists_ then
            localStorage_setItem "likedPosts" (JSON_stringify (JArr (without items id)));;
            mret pg1
          else mret pg1)
         (λ _, mret pg1)
     else
       item ← localStorage_getItem "likedPosts";
       likedPosts ← lift (parse_or_empty item);
       items ← lift (as_array likedPosts);
       id ← lift (prop postData "id");
       mret (PostPage.setLiked (includes items id) pg))
    (λ _,
       item ← localStorage_getItem "likedPosts";
       likedPosts ← lift (parse_or_empty item);
       items ← lift (as_array likedPosts);
       id ← lift (prop postData "id");
       mret (PostPage.setLiked (includes items id) pg)).

End Sync.

(** *** Lists of identifiers *)

Lemma includes_without_self (l : list JsVal) (id : string) :
  includes (without l (JStr id)) (JStr id) = false.
Proof.
  unfold includes, without. induction l as [|y l IH]; [done|]. simpl.
  destruct (strict_eq y (JStr id)) eqn:Hy; simpl; [done|]. by rewrite Hy.
Qed.

Lemma strict_eq_trans_str (y x : JsVal) (id : string) :
  strict_eq y (JStr id) = true → strict_eq y x = strict_eq (JStr id) x.
Proof. intros Hy. apply strict_eq_true in Hy. by subst. Qed.

Lemma includes_without_other (l : list JsVal) (id : string) (x : JsVal) :
  strict_eq (JStr id) x = false → includes (without l (JStr id)) x = includes l x.
Proof.
  intros Hx. unfold includes, without. induction l as [|y l IH]; [done|]. simpl.
  destruct (strict_eq y (JStr id)) eqn:Hy; simpl.
  - rewrite IH. by rewrite (strict_eq_trans_str y x id Hy), Hx.
  - by rewrite IH.
Qed.

Lemma includes_push_other (l : list JsVal) (id : string) (x : JsVal) :
  strict_eq (JStr id) x = false → includes (push l (JStr id)) x = includes l x.
Proof.
  intros Hx. unfold includes, push. rewrite existsb_app. cbn [existsb].
  by rewrite Hx, !orb_false_r.
Qed.

Lemma json_roundtrip_without (l : list JsVal) (x : JsVal) :
  json_roundtrip (JArr l) = JArr l →
  json_roundtrip (JArr (without l x)) = JArr (without l x).
Proof.
  simpl. intros [= Hl]. f_equal. unfold without.
  induction l as [|y l IH]; [done|]. simpl in Hl. injection Hl as Hy Hl.
  simpl. destruct (negb (strict_eq y x)); [|by apply IH].
  simpl. by rewrite Hy, IH.
Qed.

Lemma stored_reads_back (l : list JsVal) (storage : Storage) :
  json_roundtrip (JArr l) = JArr l →
  parse_or_empty (<["likedPosts" := JSON_stringify (JArr l)]> storage !! "likedPosts") =
    Return (JArr l).
Proof. intros Hl. rewrite lookup_insert_eq. unfold JSON_stringify. by rewrite Hl. Qed.

Section SyncFacts.
Context {R : Type}.
Variable supabase : Store (R:=R).

Lemma signInAnonymously_run (w : World R) :
  ∃ v w1, signInAnonymously w = (Return v, w1) ∧ lists_kept w w1.
Proof.
  pose proof (signInAnonymously_keeps w) as Hkeep.
  assert (Hres : ∃ v w1, signInAnonymously w = (Return v, w1)).
  { unfold signInAnonymously. run_service.
    destruct (_ || _); simpl; [by eauto|].
    destruct (text_string <$> _) as [[|a rest]|]; simpl; try by eauto.
    all: unfold randomUUID; destruct (uuids w); simpl; by eauto. }
  destruct Hres as (v & w1 & Hrun). rewrite Hrun in Hkeep. by eauto.
Qed.

Lemma hasLiked_run (postId userId : JsVal) (w : World R) :
  ∃ b w', engagement_hasLiked supabase postId userId w = (Return (JBool b), w') ∧
          lists_kept w w'.
Proof.
  unfold engagement_hasLiked. run_service.
  destruct (_ || _); simpl.
  - destruct (parse_or_empty _) as [v|e]; simpl; [|by eexists _, _].
    destruct (js_includes v postId); simpl; by eexists _, _.
  - destruct (supabase _ (remote w)) as [[r|e] s']; simpl; [|by eexists _, _].
    destruct (truthy (error r)); simpl; by eexists _, _.
Qed.

Ltac run_sync :=
  unfold mbind, M_bind, mret, M_ret, bind, ret, throw, try_catch, lift, get_world,
    localStorage_getItem, localStorage_setItem;
  cbn -[signInAnonymously engagement_hasLiked JSON_stringify].

(** X13: the liked-state block of [fetchPost] leaves the liked flag and the
    persistent liked-posts list in agreement: for a post with a string id
    and a readable list, after the block the list holds the id exactly when
    the page shows the post as liked; membership of every other id is as
    before, and the list is the old one, the old one with the id appended,
    or the old one with the id filtered out. With the gate closed the flag
    is read from the list and nothing is written. *)
Theorem liked_state_is_reconciled (postData : JsVal) (id : string) (pg : PostPage.Page)
    (w : World R) (l : list JsVal) :
  prop postData "id" = Return (JStr id) →
  liked_list w = Return (JArr l) →
  json_roundtrip (JArr l) = JArr l →
  (∃ pg' w' l',
      syncLikedState supabase postData pg w = (Return pg', w') ∧
      liked_list w' = Return (JArr l') ∧
      includes l' (JStr id) = PostPage.liked pg' ∧
      (∀ x, strict_eq (JStr id) x = false → includes l' x = includes l x) ∧
      (l' = l ∨ l' = push l (JStr id) ∨ l' = without l (JStr id))) ∧
  (configured w = false →
      syncLikedState supabase postData pg w =
        (Return (PostPage.setLiked (includes l (JStr id)) pg), w)).
Proof.
  intros Hid Hlist Hjson. unfold liked_list in *. split.
  - unfold syncLikedState. run_sync.
    destruct (signInAnonymously_run w) as (auth & w1 & Hsign & Hkeep1 & _ & _).
    rewrite Hsign. cbn -[engagement_hasLiked JSON_stringify].
    destruct (truthy (opt_prop (opt_prop auth "user") "id")) eqn:Huser;
      cbn -[engagement_hasLiked JSON_stringify]; rewrite Hid;
      cbn -[engagement_hasLiked JSON_stringify].
    + destruct (hasLiked_run (JStr id) (opt_prop (opt_prop auth "user") "id") w1)
        as (b & w2 & Hhas & Hkeep2 & _ & _).
      rewrite Hhas. cbn -[JSON_stringify].
      rewrite Hkeep2, Hkeep1, Hlist. cbn -[JSON_stringify].
      destruct b, (includes l (JStr id)) eqn:Hin; cbn -[JSON_stringify].
      * exists (PostPage.setLiked true pg), w2, l. split; [done|].
        unfold liked_list. rewrite Hkeep2, Hkeep1, Hlist. by eauto.
      * eexists _, _, (push l (JStr id)). split; [reflexivity|].
        unfold liked_list. cbn [localStorage]. split.
        { apply stored_reads_back. by apply json_roundtrip_push. }
        split; [apply includes_push|]. split; [|by eauto].
        intros x Hx. by apply includes_push_other.
      * eexists _, _, (without l (JStr id)). split; [reflexivity|].
        unfold liked_list. cbn [localStorage]. split.
        { apply stored_reads_back. by apply json_roundtrip_without. }
        split; [apply includes_without_self|]. split; [|by eauto].
        intros x Hx. by apply includes_without_other.
      * exists (PostPage.setLiked false pg), w2, l. split; [done|].
        unfold liked_list. rewrite Hkeep2, Hkeep1, Hlist. by eauto.
    + rewrite Hkeep1, Hlist. cbn.
      exists (PostPage.setLiked (includes l (JStr id)) pg), w1, l. split; [done|].
      unfold liked_list. rewrite Hkeep1, Hlist. by eauto.
  - intros Hconf. unfold syncLikedState. run_sync.
    assert (Hnull : signInAnonymously w = (Return JNull, w)).
    { unfold signInAnonymously. run_service.
      unfold configured, isSupabaseConfigured, js_and in Hconf.
      destruct (truthy (VITE_SUPABASE_URL w)); simpl; [|done]. by rewrite Hconf. }
    rewrite Hnull. cbn. rewrite Hlist. cbn. by rewrite Hid.
Qed.

End SyncFacts.

Lemma liked_state_is_reconciled_witness :
  let w := with_uuids ["6f1c2a3e-0000-4000-8000-00000000000a"]
             (liking "1649b2bb-031b-416f-9277-a8ada9b1dfeb" configured_world) in
  ∃ pg' w' l',
    syncLikedState ReferenceStore.answer first_post fresh_page w = (Return pg', w') ∧
    liked_list w' = Return (JArr l') ∧
    includes l' (JStr "1649b2bb-031b-416f-9277-a8ada9b1dfeb") = PostPage.liked pg'.
Proof.
  destruct (liked_state_is_reconciled ReferenceStore.answer first_post
              "1649b2bb-031b-416f-9277-a8ada9b1dfeb" fresh_page
              (with_uuids ["6f1c2a3e-0000-4000-8000-00000000000a"]
                 (liking "1649b2bb-031b-416f-9277-a8ada9b1dfeb" configured_world))
              [JStr "1649b2bb-031b-416f-9277-a8ada9b1dfeb"]
              eq_refl eq_refl eq_refl) as [(pg' & w' & l' & Hrun & Hlist & Hagree & _) _].
  by exists pg', w', l'.
Defined.

(** A post liked locally but with no Like row in the store: the block
    shows it as not liked and takes it off the list. *)
Example local_like_without_row_is_dropped :
  let w := with_uuids ["6f1c2a3e-0000-4000-8000-00000000000a"]
             (liking "1649b2bb-031b-416f-9277-a8ada9b1dfeb" configured_world) in
  match syncLikedState ReferenceStore.answer first_post fresh_page w with
  | (Return pg', w') => PostPage.liked pg' = false ∧ liked_list w' = Return (JArr [])
  | _ => False
  end.
Proof. vm_compute. split; reflexivity. Qed.

Section LikeButton.
Context {R : Type}.
Variable supabase : Store (R:=R).

(** X14: one press of the like button leaves the persistent liked-posts
    list in agreement with the flag the page shows, whatever they were
    before: for a post with a string id and a readable list, after
    [handleLike] the list holds the id exactly when the page shows the post
    as liked, the flag is the negation of the old flag, the list is again a
    list that reads back as written, and membership of every other id is
    unchanged. *)
Theorem handleLike_list_follows_flag (pg : PostPage.Page) (id : string)
    (w : World R) (l : list JsVal) :
  truthy (PostPage.post pg) = true →
  field (PostPage.post pg) "id" = JStr id →
  liked_list w = Return (JArr l) →
  json_roundtrip (JArr l) = JArr l →
  ∃ pg' w' l',
    PostPage.handleLike supabase pg w = (Return pg', w') ∧
    PostPage.liked pg' = negb (PostPage.liked pg) ∧
    liked_list w' = Return (JArr l') ∧
    json_roundtrip (JArr l') = JArr l' ∧
    includes l' (JStr id) = PostPage.liked pg' ∧
    (∀ x, strict_eq (JStr id) x = false → includes l' x = includes l x).
Proof.
  intros Hpost Hid Hlist Hjson.
  destruct (handleLike_step supabase pg w l Hpost Hlist)
    as (pg' & w' & Hrun & _ & Hflag & Hstored).
  rewrite Hid in Hstored. unfold liked_list in *.
  destruct (PostPage.liked pg) eqn:Hliked.
  - exists pg', w', (without l (JStr id)). rewrite Hstored, Hflag.
    split; [done|]. split; [done|].
    split; [unfold JSON_stringify, parse_or_empty; f_equal; by apply json_roundtrip_without|].
    split; [by apply json_roundtrip_without|].
    split; [apply includes_without_self|].
    intros x Hx. by apply includes_without_other.
  - destruct (includes l (JStr id)) eqn:Hin.
    + exists pg', w', l. rewrite Hstored, Hflag. by eauto 10.
    + exists pg', w', (push l (JStr id)). rewrite Hstored, Hflag.
      split; [done|]. split; [done|].
      split; [by apply stored_push_reads_back|].
      split; [by apply json_roundtrip_push|].
      split; [apply includes_push|].
      intros x Hx. by apply includes_push_other.
Qed.

End LikeButton.

Lemma handleLike_list_follows_flag_witness :
  let pg := PostPage.setLiked true
              (PostPage.mkPage first_post false 24 0 JNull JNull) in
  ∃ pg' w' l',
    PostPage.handleLike ReferenceStore.answer pg configured_world = (Return pg', w') ∧
    PostPage.liked pg' = false ∧
    liked_list w' = Return (JArr l') ∧
    includes l' (JStr "1649b2bb-031b-416f-9277-a8ada9b1dfeb") = PostPage.liked pg'.
Proof.
  destruct (handleLike_list_follows_flag ReferenceStore.answer
              (PostPage.setLiked true (PostPage.mkPage first_post false 24 0 JNull JNull))
              "1649b2bb-031b-416f-9277-a8ada9b1dfeb" configured_world []
              eq_refl eq_refl eq_refl eq_refl)
    as (pg' & w' & l' & Hrun & Hflag & Hlist & _ & Hagree & _).
  by exists pg', w', l'.
Defined.

End PostPageMore.

(** ** hooks: [usePosts], [usePost] *)

Module ListHooks.
Import Runtime MockData Api ApiFacts.

(** [v.length]: reading it of [null] or [undefined] throws; an array has
    its number of elements; a string of this code (ASCII) its number of
    characters. *)
Definition js_length (v : JsVal) : Outcome JsVal :=
  match v with
  | JUndefined | JNull => Throw (TypeError "Cannot read properties of null or undefined")
  | JArr items => Return (JNum (Z.of_nat (length items)))
  | JStr s => Return (JNum (Z.of_nat (String.length s)))
  | _ => Return (field v "length")
  end.

(** The state of [usePosts]. *)
Record Posts : Type := mkPosts {
  posts : JsVal;
  loading : bool;
  loadingMore : bool;
  error : JsVal;
  hasMore : bool;
  page : Z
}.

Definition usePosts_initial : Posts := mkPosts (JArr []) true false JNull true 0.

Definition setPosts (v : JsVal) (st : Posts) : Posts :=
  mkPosts v (loading st) (loadingMore st) (error st) (hasMore st) (page st).

Definition setLoading (b : bool) (st : Posts) : Posts :=
  mkPosts (posts st) b (loadingMore st) (error st) (hasMore st) (page st).

Definition setLoadingMore (b : bool) (st : Posts) : Posts :=
  mkPosts (posts st) (loading st) b (error st) (hasMore st) (page st).

Definition setError (e : JsVal) (st : Posts) : Posts :=
  mkPosts (posts st) (loading st) (loadingMore st) e (hasMore st) (page st).

Definition setHasMore (b : bool) (st : Posts) : Posts :=
  mkPosts (posts st) (loading st) (loadingMore st) (error st) b (page st).

Definition setPage (p : Z) (st : Posts) : Posts :=
  mkPosts (posts st) (loading st) (loadingMore st) (error st) (hasMore st) p.

(** What [fetchPosts] asks React to do with the list: replace it, or
    append to it by the updater [prevPosts => [...prevPosts, ...newPosts]]. *)
Inductive ListUpdate : Type :=
| Replace (newPosts : JsVal)
| Append (newPosts : JsVal).

Section UsePosts.
Context {R : Type}.
Variable supabase : Store (R:=R).
Variable initialLimit : Z.

(** [fetchPosts(pageNum, isLoadMore)], from the state of the last render.
    The updater passed to [setPosts] runs when React renders, outside the
    [try] block of [fetchPosts]: a spread that throws there is a throw of
    the run, not a caught error. The lists spread are arrays (rows of a
    query, or a slice of the dataset); the spread of anything else is taken
    to throw. Reading [newPosts.length] comes after the list update is
    queued; [newPosts] is never null or undefined ([getPublished_truthy]
    below), so that read does not throw. *)
Definition fetchPosts (pageNum : Z) (isLoadMore : bool) (st : Posts) : M (R:=R) Posts :=
  let st1 := if isLoadMore then setLoadingMore true st else setLoading true st in
  let st2 := setError JNull st1 in
  '(st3, update) ←
    try_catch
      (let offset := (pageNum * initialLimit)%Z in
       newPosts ← posts_getPublished supabase initialLimit offset;
       let update := if isLoadMore then Append newPosts else Replace newPosts in
       len ← lift (js_length newPosts);
       mret (setHasMore (strict_eq len (JNum initialLimit)) st2, Some update))
      (λ _, mret (setError (JStr "Failed to load posts") st2, None));
  let st4 := setLoadingMore false (setLoading false st3) in
  match update with
  | None => mret st4
  | Some (Replace newPosts) => mret (setPosts newPosts st4)
  | Some (Append newPosts) =>
      prevPosts ← lift (as_array (posts st4));
      items ← lift (as_array newPosts);
      mret (setPosts (JArr (prevPosts ++ items)) st4)
  end.

(** [loadMore()] *)
Definition loadMore (st : Posts) : M (R:=R) Posts :=
  let nextPage := (page st + 1)%Z in
  fetchPosts nextPage true (setPage nextPage st).

(** [retry()] *)
Definition retry (st : Posts) : M (R:=R) Posts :=
  fetchPosts 0 false (setPage 0 st).

(** The hook is mounted (the effect runs [fetchPosts()]), then ``load
    more'' is pressed [k] times, each press after the previous fetch has
    settled and the component has rendered. *)
Fixpoint mounted_then_more (k : nat) : M (R:=R) Posts :=
  match k with
  | O => fetchPosts 0 false usePosts_initial
  | S k' => st ← mounted_then_more k'; loadMore st
  end.

End UsePosts.

(** The state of [usePost]. *)
Record Post : Type := mkPost {
  post : JsVal;
  post_loading : bool;
  post_error : JsVal
}.

Section UsePost.
Context {R : Type}.
Variable supabase : Store (R:=R).

(** The effect's [fetchPost] for the hook's [slug]. *)
Definition fetchPost (slug : JsVal) (st : Post) : M (R:=R) Post :=
  if negb (truthy slug) then mret st
  else
    let st1 := mkPost (post st) true JNull in
    st2 ←
      try_catch
        (postData ← posts_getBySlug supabase slug;
         if negb (truthy postData)
         then mret (mkPost (post st1) (post_loading st1) (JStr "Post not found"))
         else mret (mkPost postData (post_loading st1) (post_error st1)))
        (λ _, mret (mkPost (post st1) (post_loading st1) (JStr "Failed to load post")));
    mret (mkPost (post st2) false (post_error st2)).

End UsePost.

Lemma getPublished_truthy {R : Type} (supabase : Store (R:=R)) (limit offset : Z) (w : World R) :
  ∃ v w', posts_getPublished supabase limit offset w = (Return v, w') ∧ truthy v = true.
Proof.
  unfold posts_getPublished. run_service.
  destruct (configured w); simpl; [|by eexists _, _].
  destruct (supabase _ (remote w)) as [[r|e] s']; simpl; [|by eexists _, _].
  destruct (truthy (Runtime.error r)); simpl; [by eexists _, _|].
  eexists _, _. split; [reflexivity|]. unfold js_or.
  by destruct (truthy (data r)) eqn:Hdata.
Qed.

Lemma js_length_truthy (v : JsVal) : truthy v = true → ∃ len, js_length v = Return len.
Proof. destruct v; simpl; by eauto. Qed.

Ltac run_hook :=
  unfold mbind, M_bind, mret, M_ret, bind, ret, throw, try_catch, lift;
  cbn -[posts_getPublished posts_getBySlug].

Section UsePostsFacts.
Context {R : Type}.
Variable supabase : Store (R:=R).
Variable initialLimit : Z.

(** X15: [usePosts] never reports a failure. A fetch that replaces the
    list ([fetchPosts(pageNum)], the mount and [retry]) always completes,
    with the error state null, both loading flags off, the page number
    untouched and the list set to what [posts.getPublished] resolved to for
    the window of that page. A fetch that appends, whenever it completes,
    also leaves the error state null and both flags off; the list is then
    the previous one followed by the page received, and [hasMore] tells
    whether that page was full. *)
Theorem usePosts_never_reports_failure (pageNum : Z) (st : Posts) (w : World R) :
  (∃ st' w',
      fetchPosts supabase initialLimit pageNum false st w = (Return st', w') ∧
      error st' = JNull ∧ loading st' = false ∧ loadingMore st' = false ∧
      page st' = page st ∧
      posts_getPublished supabase initialLimit (pageNum * initialLimit) w =
        (Return (posts st'), w')) ∧
  (∀ st' w',
      fetchPosts supabase initialLimit pageNum true st w = (Return st', w') →
      error st' = JNull ∧ loading st' = false ∧ loadingMore st' = false ∧
      page st' = page st ∧
      ∃ prevPosts items,
        posts st = JArr prevPosts ∧
        posts_getPublished supabase initialLimit (pageNum * initialLimit) w =
          (Return (JArr items), w') ∧
        posts st' = JArr (prevPosts ++ items) ∧
        hasMore st' = (Z.of_nat (length items) =? initialLimit)%Z).
Proof.
  destruct (getPublished_truthy supabase initialLimit (pageNum * initialLimit) w)
    as (v & w1 & Hrun & Hv).
  destruct (js_length_truthy v Hv) as (len & Hlen).
  split.
  - unfold fetchPosts. run_hook. rewrite Hrun. cbn. rewrite Hlen. cbn.
    by eexists _, _.
  - intros st' w'. unfold fetchPosts. run_hook. rewrite Hrun. cbn. rewrite Hlen. cbn.
    destruct (posts st) as [| | | | |prevPosts|] eqn:Hprev; cbn; try by intros [=].
    destruct v as [| | | | |items|]; cbn; try by intros [=].
    intros [= <- <-]. cbn. repeat (split; [done|]).
    exists prevPosts, items. repeat (split; [done|]).
    simpl in Hlen. by injection Hlen as <-.
Qed.

End UsePostsFacts.

Lemma window_length_full (offset limit : Z) (l : list JsVal) :
  (0 ≤ offset)%Z → (0 < limit)%Z →
  (Z.of_nat (length (window offset limit l)) =? limit)%Z =
    bool_decide (offset + limit ≤ Z.of_nat (length l))%Z.
Proof.
  intros Ho Hl. unfold window. rewrite length_take, length_drop.
  case_bool_decide as Hfull.
  - apply Z.eqb_eq. lia.
  - apply Z.eqb_neq. lia.
Qed.

Lemma windows_tile (k : nat) (limit : Z) (l : list JsVal) :
  (0 < limit)%Z →
  window 0 (Z.of_nat (S k) * limit) l ++ window (Z.of_nat (S k) * limit) limit l =
    window 0 (Z.of_nat (S (S k)) * limit) l.
Proof.
  intros Hl. unfold window. simpl drop. rewrite take_take_drop. f_equal. nia.
Qed.

Section UsePostsFallback.
Context {R : Type}.
Variable supabase : Store (R:=R).
Variable initialLimit : Z.

(** X16: with the gate closed and a positive page size, the pages that
    [usePosts] loads tile the fallback dataset. After the mount and [k]
    presses of ``load more'' the list is the first [(k+1) * initialLimit]
    posts of the dataset, in its order, the page number is [k], the error
    state is null, both loading flags are off, [hasMore] holds exactly when
    the last page was full, i.e. when the dataset has at least
    [(k+1) * initialLimit] posts, and nothing was sent or stored. *)
Theorem usePosts_pages_tile_fallback (k : nat) (w : World R) :
  configured w = false →
  (0 < initialLimit)%Z →
  ∃ st,
    mounted_then_more supabase initialLimit k w = (Return st, w) ∧
    posts st = JArr (window 0 (Z.of_nat (S k) * initialLimit) mockPosts) ∧
    page st = Z.of_nat k ∧
    error st = JNull ∧ loading st = false ∧ loadingMore st = false ∧
    hasMore st =
      bool_decide (Z.of_nat (S k) * initialLimit ≤ Z.of_nat (length mockPosts))%Z.
Proof.
  intros Hconf Hl.
  assert (Hpage : ∀ offset, (0 ≤ offset)%Z →
            posts_getPublished supabase initialLimit offset w =
              (Return (JArr (window offset initialLimit mockPosts)), w)).
  { intros offset Ho. unfold posts_getPublished. run_service. rewrite Hconf. simpl.
    rewrite js_slice_window by lia. done. }
  induction k as [|k (st & Hrun & Hposts & Hpg & Herr & Hload & Hmore & _)].
  - cbn [mounted_then_more]. unfold fetchPosts. run_hook.
    replace (0 * initialLimit)%Z with 0%Z by lia.
    rewrite (Hpage 0%Z) by lia. cbn -[window mockPosts Z.mul Z.of_nat].
    eexists. split; [reflexivity|]. cbn -[window mockPosts Z.mul Z.of_nat].
    rewrite window_length_full by lia.
    replace (Z.of_nat 1 * initialLimit)%Z with initialLimit by lia.
    repeat (split; [done|]). apply bool_decide_ext.
    change (length mockPosts) with 4%nat. lia.
  - cbn [mounted_then_more]. unfold mbind, M_bind, bind. rewrite Hrun.
    unfold loadMore, fetchPosts. run_hook.
    rewrite (Hpage ((page st + 1) * initialLimit)%Z) by lia.
    cbn -[window mockPosts Z.mul Z.of_nat]. rewrite Hposts.
    cbn -[window mockPosts Z.mul Z.of_nat].
    eexists. split; [reflexivity|]. cbn -[window mockPosts Z.mul Z.of_nat].
    rewrite Hpg.
    replace (Z.of_nat k + 1)%Z with (Z.of_nat (S k)) by lia.
    rewrite windows_tile by done. rewrite window_length_full by lia.
    repeat (split; [done|]). apply bool_decide_ext.
    change (length mockPosts) with 4%nat. lia.
Qed.

End UsePostsFallback.

Lemma usePosts_pages_tile_fallback_witness :
  ∃ st,
    mounted_then_more ReferenceStore.answer 3 1
      (world JUndefined JUndefined (seeded published_only mockPosts true)) =
      (Return st, world JUndefined JUndefined (seeded published_only mockPosts true)) ∧
    posts st = JArr mockPosts ∧ hasMore st = false.
Proof.
  destruct (usePosts_pages_tile_fallback ReferenceStore.answer 3 1
              (world JUndefined JUndefined (seeded published_only mockPosts true))
              eq_refl eq_refl) as (st & Hrun & Hposts & _ & _ & _ & _ & Hmore).
  exists st. split; [exact Hrun|]. split; [exact Hposts|exact Hmore].
Defined.

Section UsePostFacts.
Context {R : Type}.
Variable supabase : Store (R:=R).

(** X17: [usePost] always completes and never reports ``Failed to load
    post''. With a falsy slug nothing happens at all: the state, and so the
    initial loading flag, stays as it is. Otherwise the loading flag ends
    off, and according to what [posts.getBySlug] resolved to, either the
    post is set to it and the error state is null, or (a falsy result) the
    error state is ``Post not found'' and the post of the state is the one
    it held before. *)
Theorem usePost_outcomes (slug : JsVal) (st : Post) (w : World R) :
  (truthy slug = false → fetchPost supabase slug st w = (Return st, w)) ∧
  (truthy slug = true →
   ∃ postData st' w',
     posts_getBySlug supabase slug w = (Return postData, w') ∧
     fetchPost supabase slug st w = (Return st', w') ∧
     post_loading st' = false ∧
     (if truthy postData
      then post st' = postData ∧ post_error st' = JNull
      else post st' = post st ∧ post_error st' = JStr "Post not found")).
Proof.
  split; intros Hslug; unfold fetchPost; rewrite Hslug; [done|].
  destruct (getBySlug_resolves supabase slug w) as (postData & w' & Hrun).
  exists postData. run_hook. rewrite Hrun. cbn.
  destruct (truthy postData); cbn; by eexists _, _.
Qed.

End UsePostFacts.

End ListHooks.

(** ** hooks: [useCategoryPosts] *)

Module CategoryHook.
Import Runtime MockData Api ApiFacts EngagementFacts ApiMore ListHooks.

(** The state of [useCategoryPosts]. *)
Record CategoryPosts : Type := mkCategoryPosts {
  posts : JsVal;
  category : JsVal;
  loading : bool;
  loadingMore : bool;
  error : JsVal;
  hasMore : bool;
  page : Z
}.

Definition setPosts (v : JsVal) (st : CategoryPosts) : CategoryPosts :=
  mkCategoryPosts v (category st) (loading st) (loadingMore st) (error st) (hasMore st) (page st).

Definition setCategory (c : JsVal) (st : CategoryPosts) : CategoryPosts :=
  mkCategoryPosts (posts st) c (loading st) (loadingMore st) (error st) (hasMore st) (page st).

Definition setLoading (b : bool) (st : CategoryPosts) : CategoryPosts :=
  mkCategoryPosts (posts st) (category st) b (loadingMore st) (error st) (hasMore st) (page st).

Definition setLoadingMore (b : bool) (st : CategoryPosts) : CategoryPosts :=
  mkCategoryPosts (posts st) (category st) (loading st) b (error st) (hasMore st) (page st).

Definition setError (e : JsVal) (st : CategoryPosts) : CategoryPosts :=
  mkCategoryPosts (posts st) (category st) (loading st) (loadingMore st) e (hasMore st) (page st).

Definition setHasMore (b : bool) (st : CategoryPosts) : CategoryPosts :=
  mkCategoryPosts (posts st) (category st) (loading st) (loadingMore st) (error st) b (page st).

Section UseCategoryPosts.
Context {R : Type}.
Variable supabase : Store (R:=R).
Variable categorySlug : JsVal.
Variable initialLimit : Z.

(** [fetchCategoryPosts(pageNum, isLoadMore)], from the state of the last
    render; [category] is the value the callback closed over. The list
    update is applied at the render, as in [ListHooks.fetchPosts]. *)
Definition fetchCategoryPosts (pageNum : Z) (isLoadMore : bool) (st : CategoryPosts)
    : M (R:=R) CategoryPosts :=
  if negb (truthy categorySlug) then mret st
  else
    let st1 := if isLoadMore then setLoadingMore true st else setLoading true st in
    let st2 := setError JNull st1 in
    '(st3, update) ←
      try_catch
        (found ←
           (if negb (truthy (category st)) then
              categoryData ← categories_getBySlug supabase categorySlug;
              if negb (truthy categoryData) then
                mret (inl (setLoadingMore false (setLoading false
                             (setCategory JNull (setError (JStr "Category not found") st2)))))
              else mret (inr (setCategory categoryData st2))
            else mret (inr st2));
         match found with
         | inl st3 => mret (st3, None)
         | inr st3 =>
             let offset := (pageNum * initialLimit)%Z in
             newPosts ← posts_getByCategory supabase categorySlug initialLimit offset;
             let update := if isLoadMore then Append newPosts else Replace newPosts in
             len ← lift (js_length newPosts);
             mret (setHasMore (strict_eq len (JNum initialLimit)) st3, Some update)
         end)
        (λ _, mret (setError (JStr "Failed to load category posts") st2, None));
    let st4 := setLoadingMore false (setLoading false st3) in
    match update with
    | None => mret st4
    | Some (Replace newPosts) => mret (setPosts newPosts st4)
    | Some (Append newPosts) =>
        prevPosts ← lift (as_array (posts st4));
        items ← lift (as_array newPosts);
        mret (setPosts (JArr (prevPosts ++ items)) st4)
    end.

End UseCategoryPosts.

Lemma categories_getBySlug_run {R : Type} (supabase : Store (R:=R)) (slug : JsVal)
    (w : World R) :
  ∃ v w', categories_getBySlug supabase slug w = (Return v, w') ∧
          (configured w = false → v = mock_category_by_slug slug ∧ w' = w).
Proof.
  unfold categories_getBySlug. run_service.
  destruct (configured w); simpl; [|by eexists _, _].
  destruct (supabase _ (remote w)) as [[r|e] s']; simpl; [|by eexists _, _].
  destruct (truthy (Runtime.error r)); by eexists _, _.
Qed.

Lemma getByCategory_truthy {R : Type} (supabase : Store (R:=R)) (slug : JsVal)
    (limit offset : Z) (w : World R) :
  ∃ v w', posts_getByCategory supabase slug limit offset w = (Return v, w') ∧
          truthy v = true ∧
          (configured w = false → v = mock_posts_by_category slug limit offset ∧ w' = w).
Proof.
  unfold posts_getByCategory. run_service.
  destruct (configured w); simpl; [|by eexists _, _].
  destruct (supabase _ (remote w)) as [[c|e] s1]; simpl; [|by eexists _, _].
  destruct (truthy (Runtime.error c)); simpl; [by eexists _, _|].
  destruct (prop (Runtime.data c) "id") as [categoryId|e]; simpl; [|by eexists _, _].
  destruct (supabase _ s1) as [[r|e] s2]; simpl; [|by eexists _, _].
  destruct (truthy (Runtime.error r)); simpl; [by eexists _, _|].
  eexists _, _. split; [reflexivity|]. split; [|done]. unfold js_or.
  by destruct (truthy (Runtime.data r)) eqn:Hdata.
Qed.

Ltac run_category_hook :=
  unfold mbind, M_bind, mret, M_ret, bind, ret, throw, try_catch, lift;
  cbn -[posts_getByCategory categories_getBySlug mock_category_by_slug
        mock_posts_by_category].

Section Facts.
Context {R : Type}.
Variable supabase : Store (R:=R).
Variable initialLimit : Z.

(** X18: [useCategoryPosts] looks a category up only while it holds none.
    (1) Once a category is loaded, a fetch for any slug, over any store,
    never replaces it and sends no category lookup of its own: the first
    page of the new slug is shown under the category loaded before.
    (2) With the gate closed and no category loaded, a fetch for a slug
    that no category of the fallback dataset has ends with the error
    ``Category not found'', the category null, both loading flags off and
    the list untouched; for a slug of the dataset it sets that category
    and replaces the list by the window of the fallback posts of the
    category, with the error state null. *)
Theorem useCategoryPosts_category_lookup (categorySlug : JsVal) (pageNum : Z)
    (st : CategoryPosts) (w : World R) :
  (truthy (category st) = true →
   ∃ st' w',
     fetchCategoryPosts supabase categorySlug initialLimit pageNum false st w =
       (Return st', w') ∧
     category st' = category st ∧
     (truthy categorySlug = true →
      posts_getByCategory supabase categorySlug initialLimit (pageNum * initialLimit) w =
        (Return (posts st'), w') ∧
      error st' = JNull ∧ loading st' = false)) ∧
  (truthy categorySlug = true → truthy (category st) = false → configured w = false →
   ∃ st',
     fetchCategoryPosts supabase categorySlug initialLimit pageNum false st w =
       (Return st', w) ∧
     loading st' = false ∧ loadingMore st' = false ∧
     category st' = mock_category_by_slug categorySlug ∧
     ((category st' = JNull ∧
       (∀ c, c ∈ mockCategories → field c "slug" ≠ categorySlug) ∧
       error st' = JStr "Category not found" ∧ posts st' = posts st) ∨
      (category st' ∈ mockCategories ∧
       field (category st') "slug" = categorySlug ∧
       error st' = JNull ∧
       posts st' =
         mock_posts_by_category categorySlug initialLimit (pageNum * initialLimit)))).
Proof.
  split.
  - intros Hloaded. unfold fetchCategoryPosts.
    destruct (truthy categorySlug) eqn:Hslug; cbn [negb]; [|by eexists _, _].
    destruct (getByCategory_truthy supabase categorySlug initialLimit
                (pageNum * initialLimit) w) as (v & w1 & Hrun & Hv & _).
    destruct (js_length_truthy v Hv) as (len & Hlen).
    run_category_hook. rewrite Hloaded. cbn. rewrite Hrun. cbn. rewrite Hlen. cbn.
    by eexists _, _.
  - intros Hslug Hnone Hconf. unfold fetchCategoryPosts. rewrite Hslug. cbn [negb].
    destruct (categories_getBySlug_run supabase categorySlug w)
      as (c & w0 & Hcat & Hmock).
    destruct (Hmock Hconf) as [-> ->]. clear Hmock.
    destruct (getByCategory_truthy supabase categorySlug initialLimit
                (pageNum * initialLimit) w) as (v & w1 & Hrun & Hv & Hposts).
    destruct (Hposts Hconf) as [-> ->]. clear Hposts.
    run_category_hook. rewrite Hnone. cbn -[mock_category_by_slug mock_posts_by_category].
    rewrite Hcat. cbn -[mock_category_by_slug mock_posts_by_category].
    destruct (mock_category_by_slug_spec categorySlug) as [[Hin Hfield]|[Hnull Habsent]].
    + assert (Hobj : truthy (mock_category_by_slug categorySlug) = true).
      { revert Hin. generalize (mock_category_by_slug categorySlug). intros c Hin.
        repeat (apply elem_of_cons in Hin as [-> | Hin]; [done|]).
        by apply elem_of_nil in Hin. }
      rewrite Hobj. cbn -[mock_category_by_slug mock_posts_by_category].
      rewrite Hrun. cbn -[mock_category_by_slug mock_posts_by_category].
      eexists. split; [reflexivity|]. cbn -[mock_category_by_slug mock_posts_by_category].
      repeat (split; [done|]). right. by eauto.
    + rewrite Hnull. cbn. eexists. split; [reflexivity|]. cbn.
      repeat (split; [done|]). left. by eauto.
Qed.

End Facts.

Definition no_category : CategoryPosts :=
  mkCategoryPosts (JArr []) JNull true false JNull true 0.

Lemma useCategoryPosts_category_lookup_witness :
  (∃ st' w',
     fetchCategoryPosts ReferenceStore.answer (JStr "travel") 6 0 false
       (setCategory (JObj [("slug", JStr "design")]) no_category) configured_world =
       (Return st', w') ∧
     category st' = JObj [("slug", JStr "design")]) ∧
  (∃ st',
     fetchCategoryPosts ReferenceStore.answer (JStr "cooking") 6 0 false no_category
       demo_world = (Return st', demo_world) ∧
     category st' = JNull ∧ error st' = JStr "Category not found").
Proof.
  split.
  - destruct (proj1 (useCategoryPosts_category_lookup ReferenceStore.answer 6
                       (JStr "travel") 0
                       (setCategory (JObj [("slug", JStr "design")]) no_category)
                       configured_world) eq_refl) as (st' & w' & Hrun & Hcat & _).
    by exists st', w'.
  - destruct (proj2 (useCategoryPosts_category_lookup ReferenceStore.answer 6
                       (JStr "cooking") 0 no_category demo_world)
                eq_refl eq_refl eq_refl) as (st' & Hrun & _ & _ & Hcat & Hcase).
    exists st'. split; [exact Hrun|].
    destruct Hcase as [(Hnull & _ & Herr & _)|(Hin & _)]; [done|].
    rewrite Hcat in Hin. vm_compute in Hin.
    repeat (apply elem_of_cons in Hin as [Heq | Hin]; [discriminate Heq|]).
    by apply elem_of_nil in Hin.
Defined.

End CategoryHook.

(** ** utils/helpers.js: [storageUtils] *)

Module StorageUtils.
Import Runtime EngagementFacts PostPageMore.

Section Utils.
Context {R : Type}.

(** [getViewedPosts()] *)
Definition getViewedPosts : M (R:=R) JsVal :=
  try_catch
    (item ← sessionStorage_getItem "viewedPosts";
     lift (parse_or_empty item))
    (λ _, mret (JArr [])).

(** [addViewedPost(postId)] *)
Definition addViewedPost (postId : JsVal) : M (R:=R) JsVal :=
  try_catch
    (viewed ← getViewedPosts;
     items ← lift (as_array viewed);
     if negb (includes items postId) then
       sessionStorage_setItem "viewedPosts" (JSON_stringify (JArr (push items postId)));;
       mret (JBool true)
     else mret (JBool false))
    (λ _, mret (JBool false)).

(** [hasViewedPost(postId)] *)
Definition hasViewedPost (postId : JsVal) : M (R:=R) JsVal :=
  viewed ← getViewedPosts;
  items ← lift (as_array viewed);
  mret (JBool (includes items postId)).

(** [getLikedPosts()] *)
Definition getLikedPosts : M (R:=R) JsVal :=
  try_catch
    (item ← localStorage_getItem "likedPosts";
     lift (parse_or_empty item))
    (λ _, mret (JArr [])).

(** [addLikedPost(postId)] *)
Definition addLikedPost (postId : JsVal) : M (R:=R) JsVal :=
  try_catch
    (liked ← getLikedPosts;
     items ← lift (as_array liked);
     if negb (includes items postId) then
       localStorage_setItem "likedPosts" (JSON_stringify (JArr (push items postId)));;
       mret (JBool true)
     else mret (JBool false))
    (λ _, mret (JBool false)).

(** [removeLikedPost(postId)] *)
Definition removeLikedPost (postId : JsVal) : M (R:=R) JsVal :=
  try_catch
    (liked ← getLikedPosts;
     items ← lift (as_array liked);
     let filtered := without items postId in
     localStorage_setItem "likedPosts" (JSON_stringify (JArr filtered));;
     mret (JBool true))
    (λ _, mret (JBool false)).

(** [hasLikedPost(postId)] *)
Definition hasLikedPost (postId : JsVal) : M (R:=R) JsVal :=
  liked ← getLikedPosts;
  items ← lift (as_array liked);
  mret (JBool (includes items postId)).

(** [toggleLikedPost(postId)] *)
Definition toggleLikedPost (postId : JsVal) : M (R:=R) JsVal :=
  has ← hasLikedPost postId;
  if truthy has then
    removeLikedPost postId;;
    mret (JBool false)
  else
    addLikedPost postId;;
    mret (JBool true).

End Utils.

Ltac run_storage :=
  unfold mbind, M_bind, mret, M_ret, bind, ret, throw, try_catch, lift,
    localStorage_getItem, localStorage_setItem, sessionStorage_getItem,
    sessionStorage_setItem;
  cbn -[JSON_stringify].

Lemma written_reads_back (l : list JsVal) :
  json_roundtrip (JArr l) = JArr l →
  parse_or_empty (Some (JSON_stringify (JArr l))) = Return (JArr l).
Proof. intros Hl. unfold JSON_stringify. by rewrite Hl. Qed.

Section Facts.
Context {R : Type}.

(** X19: the readers and writers of [storageUtils] that wrap their body in
    [try] never throw, whatever the two storages hold. [getViewedPosts] and
    [getLikedPosts] return what the stored item parses to, and the empty
    list when there is no item, when it is the empty string or when it
    does not parse; and they write nothing. [addViewedPost], [addLikedPost]
    and [removeLikedPost] return a boolean. *)
Theorem storage_accessors_never_throw (postId : JsVal) (w : World R) :
  getViewedPosts w =
    (Return (match parse_or_empty (sessionStorage w !! "viewedPosts") with
             | Return v => v
             | Throw _ => JArr []
             end), w) ∧
  getLikedPosts w =
    (Return (match parse_or_empty (localStorage w !! "likedPosts") with
             | Return v => v
             | Throw _ => JArr []
             end), w) ∧
  (∃ b w', addViewedPost postId w = (Return (JBool b), w')) ∧
  (∃ b w', addLikedPost postId w = (Return (JBool b), w')) ∧
  (∃ b w', removeLikedPost postId w = (Return (JBool b), w')).
Proof.
  split; [|split; [|split; [|split]]].
  - unfold getViewedPosts. run_storage. by destruct (parse_or_empty _).
  - unfold getLikedPosts. run_storage. by destruct (parse_or_empty _).
  - unfold addViewedPost, getViewedPosts. run_storage.
    destruct (parse_or_empty _) as [v|e]; cbn -[JSON_stringify].
    + destruct (as_array v) as [items|e]; cbn -[JSON_stringify]; [|by eauto].
      destruct (includes items postId); by eauto.
    + destruct (includes [] postId); by eauto.
  - unfold addLikedPost, getLikedPosts. run_storage.
    destruct (parse_or_empty _) as [v|e]; cbn -[JSON_stringify].
    + destruct (as_array v) as [items|e]; cbn -[JSON_stringify]; [|by eauto].
      destruct (includes items postId); by eauto.
    + destruct (includes [] postId); by eauto.
  - unfold removeLikedPost, getLikedPosts. run_storage.
    destruct (parse_or_empty _) as [v|e]; cbn -[JSON_stringify]; [|by eauto].
    destruct (as_array v) as [items|e]; by eauto.
Qed.

(** X20: [addViewedPost] marks a post once. For a readable list of viewed
    posts and a string id, the call returns true exactly when the id was
    not in the list, and afterwards [hasViewedPost] answers true; a second
    call returns false and changes nothing; the list read back is the old
    one, with the id appended when it was missing. Only the
    [viewedPosts] item of the session storage is written. *)
Theorem addViewedPost_marks_once (id : string) (w : World R) (l : list JsVal) :
  viewed_list w = Return (JArr l) →
  json_roundtrip (JArr l) = JArr l →
  ∃ w',
    addViewedPost (JStr id) w = (Return (JBool (negb (includes l (JStr id)))), w') ∧
    viewed_list w' =
      Return (JArr (if includes l (JStr id) then l else push l (JStr id))) ∧
    hasViewedPost (JStr id) w' = (Return (JBool true), w') ∧
    addViewedPost (JStr id) w' = (Return (JBool false), w') ∧
    localStorage w' = localStorage w ∧
    (∀ key, key ≠ "viewedPosts" → sessionStorage w' !! key = sessionStorage w !! key).
Proof.
  intros Hlist Hjson. unfold viewed_list in *.
  unfold addViewedPost, hasViewedPost, getViewedPosts. run_storage. rewrite Hlist.
  cbn -[JSON_stringify].
  destruct (includes l (JStr id)) eqn:Hin; cbn -[JSON_stringify].
  - exists w. rewrite Hlist. cbn -[JSON_stringify]. by rewrite Hin.
  - eexists. split; [reflexivity|]. cbn -[JSON_stringify].
    rewrite lookup_insert_eq, (written_reads_back (push l (JStr id)))
      by (by apply json_roundtrip_push).
    cbn -[JSON_stringify]. rewrite includes_push. cbn -[JSON_stringify].
    repeat (split; [done|]). intros key Hkey. by rewrite lookup_insert_ne.
Qed.

(** X21: [toggleLikedPost] returns the new state of the like and keeps the
    persistent list in step with it. For a readable list and a string id
    the call returns the negation of the id's membership, and the list
    read back holds the id exactly when the call returned true, with the
    membership of every other id unchanged. Starting from a list without
    the id, a second call returns false and the list read back is the
    original one. *)
Theorem toggleLikedPost_follows_list (id : string) (w : World R) (l : list JsVal) :
  liked_list w = Return (JArr l) →
  json_roundtrip (JArr l) = JArr l →
  ∃ w' l',
    toggleLikedPost (JStr id) w = (Return (JBool (negb (includes l (JStr id)))), w') ∧
    liked_list w' = Return (JArr l') ∧
    json_roundtrip (JArr l') = JArr l' ∧
    includes l' (JStr id) = negb (includes l (JStr id)) ∧
    (∀ x, strict_eq (JStr id) x = false → includes l' x = includes l x) ∧
    sessionStorage w' = sessionStorage w ∧
    (includes l (JStr id) = false →
     ∃ w'', toggleLikedPost (JStr id) w' = (Return (JBool false), w'') ∧
            liked_list w'' = Return (JArr l)).
Proof.
  intros Hlist Hjson. unfold liked_list in *.
  unfold toggleLikedPost, hasLikedPost, addLikedPost, removeLikedPost, getLikedPosts.
  run_storage. rewrite Hlist. cbn -[JSON_stringify].
  destruct (includes l (JStr id)) eqn:Hin; cbn -[JSON_stringify].
  - rewrite Hlist. cbn -[JSON_stringify].
    eexists _, (without l (JStr id)). split; [reflexivity|]. cbn -[JSON_stringify].
    rewrite lookup_insert_eq. split; [by apply written_reads_back, json_roundtrip_without|].
    split; [by apply json_roundtrip_without|].
    split; [apply includes_without_self|].
    split; [intros x Hx; by apply includes_without_other|]. done.
  - rewrite Hlist. cbn -[JSON_stringify]. rewrite Hin. cbn -[JSON_stringify].
    eexists _, (push l (JStr id)). split; [reflexivity|]. cbn -[JSON_stringify].
    rewrite lookup_insert_eq.
    rewrite (written_reads_back (push l (JStr id))) by (by apply json_roundtrip_push).
    split; [done|]. split; [by apply json_roundtrip_push|].
    split; [apply includes_push|].
    split; [intros x Hx; by apply includes_push_other|]. split; [done|].
    intros _. cbn -[JSON_stringify]. rewrite includes_push. cbn -[JSON_stringify].
    rewrite !lookup_insert_eq.
    rewrite !(written_reads_back (push l (JStr id))) by (by apply json_roundtrip_push).
    cbn -[JSON_stringify].
    eexists. split; [reflexivity|]. cbn -[JSON_stringify].
    rewrite lookup_insert_eq. rewrite without_push_absent; [|apply String.eqb_refl|done].
    by apply written_reads_back.
Qed.

End Facts.

Lemma addViewedPost_marks_once_witness :
  ∃ w',
    addViewedPost (JStr "1649b2bb-031b-416f-9277-a8ada9b1dfeb") demo_world =
      (Return (JBool true), w') ∧
    viewed_list w' = Return (JArr [JStr "1649b2bb-031b-416f-9277-a8ada9b1dfeb"]) ∧
    addViewedPost (JStr "1649b2bb-031b-416f-9277-a8ada9b1dfeb") w' =
      (Return (JBool false), w').
Proof.
  destruct (addViewedPost_marks_once "1649b2bb-031b-416f-9277-a8ada9b1dfeb"
              demo_world [] eq_refl eq_refl) as (w' & Hrun & Hlist & _ & Hagain & _).
  by exists w'.
Defined.

Lemma toggleLikedPost_follows_list_witness :
  ∃ w' l',
    toggleLikedPost (JStr "1649b2bb-031b-416f-9277-a8ada9b1dfeb") demo_world =
      (Return (JBool true), w') ∧
    liked_list w' = Return (JArr l') ∧
    includes l' (JStr "1649b2bb-031b-416f-9277-a8ada9b1dfeb") = true.
Proof.
  destruct (toggleLikedPost_follows_list "1649b2bb-031b-416f-9277-a8ada9b1dfeb"
              demo_world [] eq_refl eq_refl) as (w' & l' & Hrun & Hlist & _ & Hin & _).
  by exists w', l'.
Defined.

(** [hasLikedPost] and [toggleLikedPost] have no [try] of their own: a
    stored item that parses to null makes them throw. *)
Example toggleLikedPost_throws_on_null_item :
  let w := mkWorld JUndefined JUndefined (<["likedPosts" := JsonText JNull]> ∅) ∅
             tt [] [] [] [] in
  (∃ e, (toggleLikedPost (JStr "a") w).1 = Throw e) ∧
  (addLikedPost (JStr "a") w).1 = Return (JBool false).
Proof. split; [eexists|]; vm_compute; reflexivity. Qed.

End StorageUtils.

(** ** utils/colorUtils.js *)

Module ColorUtils.

Record Color : Type := mkColor {
  bg : string;
  text : string;
  border : string
}.

Definition categoryColors : list Color :=
  [ mkColor "bg-gray-900" "text-white" "border-gray-700";
    mkColor "bg-zinc-800" "text-white" "border-zinc-700";
    mkColor "bg-stone-800" "text-white" "border-stone-700";
    mkColor "bg-neutral-800" "text-white" "border-neutral-700";
    mkColor "bg-slate-800" "text-white" "border-slate-700";
    mkColor "bg-red-900" "text-white" "border-red-800";
    mkColor "bg-amber-900" "text-white" "border-amber-800";
    mkColor "bg-emerald-900" "text-white" "border-emerald-800";
    mkColor "bg-teal-900" "text-white" "border-teal-800";
    mkColor "bg-indigo-900" "text-white" "border-indigo-800" ].

(** A category name is a JavaScript string, given by its UTF-16 code
    units ([charCodeAt]), or it is missing (null or undefined). *)
Definition Name : Type := option (list N).

(** [categoryName.split('').reduce((acc, char) => acc + char.charCodeAt(0), 0)];
    the sum of the code units of a string stays far below 2^53, so the
    additions are exact. *)
Definition seed (codes : list N) : N :=
  foldl (λ acc char, acc + char)%N 0%N codes.

(** [getRandomCategoryColor(categoryName)]; indexing the array outside its
    bounds gives [undefined], here [None]. *)
Definition getRandomCategoryColor (categoryName : Name) : option Color :=
  match categoryName with
  | None | Some [] => categoryColors !! 0%nat
  | Some codes =>
      let index := (seed codes mod N.of_nat (length categoryColors))%N in
      categoryColors !! N.to_nat index
  end.

(** [getCategoryColorClasses(categoryName)]; destructuring [undefined]
    throws. *)
Definition getCategoryColorClasses (categoryName : Name) : Outcome string :=
  match getRandomCategoryColor categoryName with
  | None => Throw (TypeError "Cannot destructure property of undefined")
  | Some c => Return (bg c +:+ " " +:+ text c +:+ " " +:+ border c)
  end.

Definition hexColors : list (string * string) :=
  [ ("bg-gray-900", "#111827");
    ("bg-zinc-800", "#27272a");
    ("bg-stone-800", "#292524");
    ("bg-neutral-800", "#262626");
    ("bg-slate-800", "#1e293b");
    ("bg-red-900", "#7f1d1d");
    ("bg-amber-900", "#78350f");
    ("bg-emerald-900", "#064e3b");
    ("bg-teal-900", "#134e4a");
    ("bg-indigo-900", "#312e81") ].

Fixpoint own_property (k : string) (fields : list (string * string)) : option string :=
  match fields with
  | [] => None
  | (k', v) :: rest => if String.eqb k' k then Some v else own_property k rest
  end.

(** [getCategoryHexColor(categoryName)]: [hexColors[bg] || '#000000'] *)
Definition getCategoryHexColor (categoryName : Name) : Outcome string :=
  match getRandomCategoryColor categoryName with
  | None => Throw (TypeError "Cannot destructure property of undefined")
  | Some c =>
      match own_property (bg c) hexColors with
      | Some (String a rest) => Return (String a rest)
      | _ => Return "#000000"
      end
  end.

Lemma seed_from (acc : N) (codes : list N) :
  foldl (λ acc char, acc + char)%N acc codes = (acc + seed codes)%N.
Proof.
  unfold seed. revert acc. induction codes as [|c codes IH]; intros acc; simpl.
  - lia.
  - rewrite IH, (IH (0 + c)%N). lia.
Qed.

Lemma seed_cons (c : N) (codes : list N) : seed (c :: codes) = (c + seed codes)%N.
Proof. unfold seed at 1. simpl. by rewrite seed_from. Qed.

Lemma seed_perm (a b : list N) : a ≡ₚ b → seed a = seed b.
Proof.
  induction 1 as [|x a b _ IH|x y a|a b c _ IHab _ IHbc].
  - done.
  - by rewrite !seed_cons, IH.
  - rewrite !seed_cons. lia.
  - by rewrite IHab.
Qed.

Lemma palette_entry (i : nat) :
  (i < 10)%nat →
  ∃ c hex, categoryColors !! i = Some c ∧
           text c = "text-white" ∧
           own_property (bg c) hexColors = Some hex ∧
           hexColors !! i = Some (bg c, hex) ∧
           hex ≠ "#000000" ∧ hex ≠ "".
Proof.
  intros Hi.
  do 10 (destruct i as [|i]; [by eexists _, _|]). lia.
Qed.

Lemma color_index (categoryName : Name) :
  ∃ i, (i < 10)%nat ∧ getRandomCategoryColor categoryName = categoryColors !! i.
Proof.
  destruct categoryName as [[|c codes]|]; [by exists 0%nat; split; [lia|]| |by exists 0%nat; split; [lia|]].
  eexists. split; [|reflexivity].
  change (N.of_nat (length categoryColors)) with 10%N.
  pose proof (N.mod_upper_bound (seed (c :: codes)) 10). lia.
Qed.

(** X22: [getRandomCategoryColor] always returns one of the ten entries of
    the palette, never [undefined]: the index computed from the name is
    below the length of the palette; a missing or empty name gets the
    first entry. Hence [getCategoryColorClasses] never throws, and its
    classes are the background of the entry, ``text-white'' and the border
    of the entry, separated by single spaces. *)
Theorem category_color_is_from_palette (categoryName : Name) :
  ∃ c,
    getRandomCategoryColor categoryName = Some c ∧
    c ∈ categoryColors ∧
    getCategoryColorClasses categoryName =
      Return (bg c +:+ " text-white " +:+ border c) ∧
    (categoryName = None ∨ categoryName = Some [] →
     c = mkColor "bg-gray-900" "text-white" "border-gray-700").
Proof.
  destruct (color_index categoryName) as (i & Hi & Hcolor).
  destruct (palette_entry i Hi) as (c & hex & Hc & Htext & _).
  exists c. rewrite Hc in Hcolor. split; [done|].
  split; [by apply list_elem_of_lookup_2 in Hc|].
  split.
  - unfold getCategoryColorClasses. rewrite Hcolor, Htext. done.
  - intros [-> | ->]; simpl in Hcolor; by injection Hcolor as <-.
Qed.

(** X23: the colour of a non-empty name depends on the name only through
    the sum of its code units: two non-empty names made of the same
    characters in any order get the same colour, and so do two whose sums
    differ by a multiple of ten. *)
Theorem category_color_ignores_order (a b : list N) :
  a ≡ₚ b ∨ (seed a mod 10 = seed b mod 10)%N →
  a ≠ [] → b ≠ [] →
  getRandomCategoryColor (Some a) = getRandomCategoryColor (Some b).
Proof.
  intros Hsame Ha Hb.
  assert (Hseed : (seed a mod 10 = seed b mod 10)%N).
  { destruct Hsame as [Hperm|Hmod]; [by rewrite (seed_perm a b Hperm)|done]. }
  destruct a as [|x a]; [done|]. destruct b as [|y b]; [done|].
  unfold getRandomCategoryColor.
  change (N.of_nat (length categoryColors)) with 10%N. by rewrite Hseed.
Qed.

(** X24: [getCategoryHexColor] never throws and never falls back to
    ``#000000'': every background class of the palette has an entry in the
    table of hex colours, so the result is the hex colour listed for the
    background of the palette entry of the name. *)
Theorem hex_color_never_falls_back (categoryName : Name) :
  ∃ c hex,
    getRandomCategoryColor categoryName = Some c ∧
    getCategoryHexColor categoryName = Return hex ∧
    (bg c, hex) ∈ hexColors ∧
    hex ≠ "#000000".
Proof.
  destruct (color_index categoryName) as (i & Hi & Hcolor).
  destruct (palette_entry i Hi) as (c & hex & Hc & _ & Hhex & Hentry & Hblack & Hempty).
  exists c, hex. rewrite Hc in Hcolor. split; [done|].
  split; [|split; [by apply list_elem_of_lookup_2 in Hentry|done]].
  unfold getCategoryHexColor. rewrite Hcolor, Hhex. by destruct hex.
Qed.

(** ``Design'' and ``signDe'' have the same letters. *)
Lemma category_color_ignores_order_witness :
  getRandomCategoryColor (Some [68; 101; 115; 105; 103; 110]%N) =
  getRandomCategoryColor (Some [115; 105; 103; 110; 68; 101]%N).
Proof.
  apply category_color_ignores_order; [right; reflexivity|done|done].
Defined.

End ColorUtils.

(** ** utils/helpers.js: [textUtils] *)

Module TextUtils.

(** A JavaScript string, as its sequence of UTF-16 code units. *)
Definition Str : Type := list N.

(** What [\s] of a regular expression and [trim] treat as white space:
    the WhiteSpace and LineTerminator code points. *)
Definition is_space (c : N) : bool :=
  ((9 <=? c) && (c <=? 13) || (c =? 32) || (c =? 160) || (c =? 5760) ||
   (8192 <=? c) && (c <=? 8202) || (c =? 8232) || (c =? 8233) || (c =? 8239) ||
   (c =? 8287) || (c =? 12288) || (c =? 65279))%N.

(** [\w]: [A-Za-z0-9_] *)
Definition is_word (c : N) : bool :=
  ((48 <=? c) && (c <=? 57) || (65 <=? c) && (c <=? 90) || (c =? 95) ||
   (97 <=? c) && (c <=? 122))%N.

Definition hyphen : N := 45.
Definition is_hyphen (c : N) : bool := (c =? hyphen)%N.

Fixpoint trimStart (s : Str) : Str :=
  match s with
  | [] => []
  | c :: rest => if is_space c then trimStart rest else s
  end.

Definition trimEnd (s : Str) : Str := reverse (trimStart (reverse s)).

(** [s.trim()] *)
Definition trim (s : Str) : Str := trimEnd (trimStart s).

Definition ellipsis : Str := [46; 46; 46]%N.

(** [truncate(text, maxLength)] for a string [text] and an integer
    [maxLength]; [substring(0, maxLength)] takes a negative bound as 0. *)
Definition truncate (text : Str) (maxLength : Z) : Str :=
  if bool_decide (text = []) || (Z.of_nat (length text) <=? maxLength)%Z then text
  else trim (take (Z.to_nat maxLength) text) ++ ellipsis.

(** [s.replace(/p+/g, r)] for a class [p] of code units: every maximal
    run of [p] becomes one [r]. *)
Fixpoint replace_runs (p : N → bool) (r : N) (in_run : bool) (s : Str) : Str :=
  match s with
  | [] => []
  | c :: rest =>
      if p c then
        if in_run then replace_runs p r true rest
        else r :: replace_runs p r true rest
      else c :: replace_runs p r false rest
  end.

Section Slug.
(** [String.prototype.toLowerCase], which this code takes from the
    platform. *)
Variable toLowerCase : Str → Str.

(** [generateSlug(text)]. [trim] takes no argument: the ['-'] passed to it
    is ignored, and white space is what it strips. *)
Definition generateSlug (text : Str) : Str :=
  let lowered := toLowerCase text in
  let kept := List.filter (λ c, is_word c || is_space c || is_hyphen c) lowered in
  let hyphenated := replace_runs is_space hyphen false kept in
  let single := replace_runs is_hyphen hyphen false hyphenated in
  trim single.

End Slug.

(** No two neighbours of [s] are both hyphens. *)
Fixpoint single_hyphens (s : Str) : bool :=
  match s with
  | c :: ((d :: _) as rest) => negb (is_hyphen c && is_hyphen d) && single_hyphens rest
  | _ => true
  end.

Lemma trimStart_length (s : Str) : (length (trimStart s) ≤ length s)%nat.
Proof.
  induction s as [|c s IH]; simpl; [done|]. destruct (is_space c); simpl; lia.
Qed.

Lemma trim_length (s : Str) : (length (trim s) ≤ length s)%nat.
Proof.
  unfold trim, trimEnd. rewrite length_reverse.
  pose proof (trimStart_length (reverse (trimStart s))) as H1. rewrite length_reverse in H1.
  pose proof (trimStart_length s). lia.
Qed.

Lemma trimStart_no_space (s : Str) : Forall (λ c, is_space c = false) s → trimStart s = s.
Proof.
  destruct 1 as [|c s Hc _]; simpl; [done|]. by rewrite Hc.
Qed.

Lemma trim_no_space (s : Str) : Forall (λ c, is_space c = false) s → trim s = s.
Proof.
  intros Hs. unfold trim, trimEnd. rewrite (trimStart_no_space s Hs).
  rewrite trimStart_no_space; [apply reverse_involutive|]. by apply Forall_reverse.
Qed.

Lemma trimStart_head (s : Str) (c : N) (rest : Str) :
  trimStart s = c :: rest → is_space c = false.
Proof.
  induction s as [|d s IH]; simpl; [done|].
  destruct (is_space d) eqn:Hd; [done|]. by intros [= <- _].
Qed.

(** The last character of a trimmed string is no white space. *)
Lemma trim_last (s : Str) (c : N) : last (trim s) = Some c → is_space c = false.
Proof.
  unfold trim, trimEnd. rewrite last_reverse.
  destruct (trimStart (reverse (trimStart s))) as [|d rest] eqn:Htrim; [done|].
  simpl. intros [= <-]. by apply trimStart_head in Htrim.
Qed.

(** X25: for a non-negative [maxLength], [truncate] returns a text of at
    most [maxLength] characters as it is. A longer text becomes the trimmed first [maxLength] characters
    followed by three dots: at most [maxLength + 3] characters, with no
    white space before the dots; so it is not always shorter than the
    text: a text of [maxLength + 1] characters with no white space comes
    back two characters longer. *)
Theorem truncate_length (text : Str) (maxLength : Z) :
  (0 ≤ maxLength)%Z →
  ((Z.of_nat (length text) ≤ maxLength)%Z → truncate text maxLength = text) ∧
  ((maxLength < Z.of_nat (length text))%Z →
   ∃ kept,
     truncate text maxLength = kept ++ ellipsis ∧
     kept = trim (take (Z.to_nat maxLength) text) ∧
     (Z.of_nat (length kept) ≤ maxLength)%Z ∧
     (∀ c, last kept = Some c → is_space c = false) ∧
     (Forall (λ c, is_space c = false) text →
      Z.of_nat (length text) = (maxLength + 1)%Z →
      length (truncate text maxLength) = (length text + 2)%nat)).
Proof.
  intros Hmax. unfold truncate. split.
  - intros Hshort. apply Z.leb_le in Hshort. rewrite Hshort. by rewrite orb_true_r.
  - intros Hlong.
    assert (Hne : bool_decide (text = []) = false).
    { apply bool_decide_eq_false. intros ->. simpl in Hlong. lia. }
    assert (Hgt : (Z.of_nat (length text) <=? maxLength)%Z = false) by (apply Z.leb_gt; lia).
    rewrite Hne, Hgt. cbn [orb].
    exists (trim (take (Z.to_nat maxLength) text)). split; [done|]. split; [done|].
    pose proof (trim_length (take (Z.to_nat maxLength) text)) as Hlen.
    rewrite length_take in Hlen.
    split; [lia|]. split; [intros c; apply trim_last|].
    intros Hplain Hone. rewrite trim_no_space by (by apply Forall_take).
    rewrite length_app, length_take. simpl. lia.
Qed.

Lemma truncate_length_witness :
  truncate [104; 101; 108; 108; 111; 32; 119; 111; 114; 108; 100]%N 6 =
    [104; 101; 108; 108; 111; 46; 46; 46]%N.
Proof.
  destruct (truncate_length [104; 101; 108; 108; 111; 32; 119; 111; 114; 108; 100]%N 6
              ltac:(lia)) as [_ Hlong].
  destruct (Hlong ltac:(simpl; lia)) as (kept & Hrun & -> & _).
  exact Hrun.
Defined.

Lemma replace_runs_space_chars (in_run : bool) (s : Str) :
  Forall (λ c, is_word c || is_space c || is_hyphen c = true) s →
  Forall (λ c, is_word c || is_hyphen c = true) (replace_runs is_space hyphen in_run s).
Proof.
  intros Hs. revert in_run. induction Hs as [|c s Hc _ IH]; intros in_run; simpl; [done|].
  destruct (is_space c) eqn:Hspace.
  - destruct in_run; [apply IH|]. constructor; [done|apply IH].
  - constructor; [|apply IH]. by rewrite orb_false_r in Hc.
Qed.

Lemma replace_runs_hyphen_chars (in_run : bool) (s : Str) :
  Forall (λ c, is_word c || is_hyphen c = true) s →
  Forall (λ c, is_word c || is_hyphen c = true) (replace_runs is_hyphen hyphen in_run s).
Proof.
  intros Hs. revert in_run. induction Hs as [|c s Hc _ IH]; intros in_run; simpl; [done|].
  destruct (is_hyphen c) eqn:Hhyphen.
  - destruct in_run; [apply IH|]. constructor; [done|apply IH].
  - constructor; [by rewrite Hhyphen|apply IH].
Qed.

Lemma replace_runs_hyphen_head (s : Str) (c : N) (rest : Str) :
  replace_runs is_hyphen hyphen true s = c :: rest → is_hyphen c = false.
Proof.
  induction s as [|d s IH]; simpl; [done|].
  destruct (is_hyphen d) eqn:Hd; [done|]. by intros [= <- _].
Qed.

Lemma single_hyphens_cons (c d : N) (rest : Str) :
  single_hyphens (c :: d :: rest) =
    negb (is_hyphen c && is_hyphen d) && single_hyphens (d :: rest).
Proof. reflexivity. Qed.

Lemma replace_runs_single (in_run : bool) (s : Str) :
  single_hyphens (replace_runs is_hyphen hyphen in_run s) = true.
Proof.
  revert in_run. induction s as [|c s IH]; intros in_run; [done|].
  cbn [replace_runs]. destruct (is_hyphen c) eqn:Hc.
  - destruct in_run; [apply IH|].
    pose proof (IH true) as Hrest.
    destruct (replace_runs is_hyphen hyphen true s) as [|d rest] eqn:Hrun; [done|].
    rewrite single_hyphens_cons, Hrest.
    by rewrite (replace_runs_hyphen_head s d rest Hrun), andb_false_r.
  - pose proof (IH false) as Hrest.
    destruct (replace_runs is_hyphen hyphen false s) as [|d rest]; [done|].
    by rewrite single_hyphens_cons, Hc, Hrest.
Qed.

Lemma word_or_hyphen_no_space (c : N) :
  is_word c || is_hyphen c = true → is_space c = false.
Proof.
  unfold is_word, is_hyphen, is_space, hyphen. intros Hc.
  repeat (apply orb_false_intro); try apply andb_false_iff;
    rewrite ?N.leb_gt, ?N.eqb_neq;
    repeat (apply orb_true_iff in Hc as [Hc|Hc]);
    rewrite ?andb_true_iff, ?N.leb_le, ?N.eqb_eq in Hc; lia.
Qed.

Section SlugFacts.
Variable toLowerCase : Str → Str.

(** X26: whatever [toLowerCase] delivers, a slug made by [generateSlug]
    consists of word characters ([A-Za-z0-9_]) and hyphens only, and no
    two hyphens are adjacent. The final [trim('-')] removes nothing: no
    white space is left by then, and hyphens are not what [trim] strips,
    so a text that starts with white space gives a slug that starts with a
    hyphen. *)
Theorem generateSlug_shape (text : Str) :
  Forall (λ c, is_word c = true ∨ c = hyphen) (generateSlug toLowerCase text) ∧
  single_hyphens (generateSlug toLowerCase text) = true ∧
  generateSlug toLowerCase text =
    replace_runs is_hyphen hyphen false
      (replace_runs is_space hyphen false
         (List.filter (λ c, is_word c || is_space c || is_hyphen c) (toLowerCase text))) ∧
  (∀ c rest, toLowerCase text = c :: rest → is_space c = true →
             head (generateSlug toLowerCase text) = Some hyphen).
Proof.
  unfold generateSlug.
  set (kept := List.filter _ (toLowerCase text)).
  assert (Hkept : Forall (λ c, is_word c || is_space c || is_hyphen c = true) kept).
  { apply Forall_forall. intros c Hc. apply list_elem_of_In in Hc.
    unfold kept in Hc. by apply filter_In in Hc as [_ Hc]. }
  pose proof (replace_runs_hyphen_chars false _ (replace_runs_space_chars false _ Hkept))
    as Hchars.
  assert (Htrim : trim (replace_runs is_hyphen hyphen false
                          (replace_runs is_space hyphen false kept)) =
                  replace_runs is_hyphen hyphen false
                    (replace_runs is_space hyphen false kept)).
  { apply trim_no_space. eapply Forall_impl; [exact Hchars|].
    intros c Hc. by apply word_or_hyphen_no_space. }
  rewrite Htrim. split; [|split; [apply replace_runs_single|split; [done|]]].
  - eapply Forall_impl; [exact Hchars|]. intros c Hc.
    apply orb_true_iff in Hc as [Hc|Hc]; [by left|right]. by apply N.eqb_eq in Hc.
  - intros c rest Htext Hspace. unfold kept. rewrite Htext.
    cbn [List.filter]. rewrite Hspace, orb_true_r. simpl. by rewrite Hspace.
Qed.

End SlugFacts.

End TextUtils.

(** ** components/FeaturedPostsHighlight.jsx: the slider's index *)

Module Carousel.

(** [a % b] on integers: the remainder has the sign of the dividend. *)
Definition js_rem (a b : Z) : Z := Z.rem a b.

(** [nextSlide], and the tick of the auto-rotation, for [length] featured
    posts: [setActiveIndex(current => (current + 1) % length)]. *)
Definition nextSlide (length current : Z) : Z :=
  if (length >? 1)%Z then js_rem (current + 1) length else current.

(** [prevSlide] *)
Definition prevSlide (length current : Z) : Z :=
  if (length >? 1)%Z then js_rem (current - 1 + length) length else current.

(** [goToSlide(index)] *)
Definition goToSlide (index current : Z) : Z := index.

Lemma nextSlide_mod (length current : Z) :
  (1 < length)%Z → (0 ≤ current)%Z →
  nextSlide length current = ((current + 1) mod length)%Z.
Proof.
  intros Hlen Hcur. unfold nextSlide, js_rem.
  destruct (Z.gtb_spec length 1); [|lia]. apply Z.rem_mod_nonneg; lia.
Qed.

Lemma prevSlide_mod (length current : Z) :
  (1 < length)%Z → (0 ≤ current)%Z →
  prevSlide length current = ((current - 1 + length) mod length)%Z.
Proof.
  intros Hlen Hcur. unfold prevSlide, js_rem.
  destruct (Z.gtb_spec length 1); [|lia]. apply Z.rem_mod_nonneg; lia.
Qed.

Lemma ticks_mod (length current : Z) (n : nat) :
  (1 < length)%Z → (0 ≤ current < length)%Z →
  Nat.iter n (nextSlide length) current = ((current + Z.of_nat n) mod length)%Z.
Proof.
  intros Hlen Hcur. induction n as [|n IH].
  - simpl. rewrite Z.add_0_r. symmetry. by apply Z.mod_small.
  - rewrite Nat.iter_succ, IH. rewrite nextSlide_mod; [|done|].
    + rewrite Zplus_mod_idemp_l. f_equal. lia.
    + apply Z.mod_pos_bound. lia.
Qed.

(** X27: the slider's index stays on a slide. From an index from 0 up to
    the number of slides minus one, [nextSlide] and [prevSlide] give such
    an index again; they undo each other; and as many ticks of the
    auto-rotation as there are slides bring the slider back to the slide
    it started from. With a single slide neither moves the index. *)
Theorem slider_index_stays_in_range (length current : Z) :
  (0 ≤ current < length)%Z →
  (0 ≤ nextSlide length current < length)%Z ∧
  (0 ≤ prevSlide length current < length)%Z ∧
  prevSlide length (nextSlide length current) = current ∧
  nextSlide length (prevSlide length current) = current ∧
  Nat.iter (Z.to_nat length) (nextSlide length) current = current ∧
  (length = 1%Z → nextSlide length current = current ∧ prevSlide length current = current).
Proof.
  intros Hcur.
  destruct (decide (length = 1%Z)) as [->|Hone].
  - assert (current = 0%Z) as -> by lia. by vm_compute.
  - assert (Hlen : (1 < length)%Z) by lia.
    assert (Hnext : (0 ≤ (current + 1) mod length < length)%Z)
      by (apply Z.mod_pos_bound; lia).
    assert (Hprev : (0 ≤ (current - 1 + length) mod length < length)%Z)
      by (apply Z.mod_pos_bound; lia).
    rewrite ticks_mod by done.
    rewrite !(nextSlide_mod length current), !(prevSlide_mod length current) by lia.
    rewrite nextSlide_mod, prevSlide_mod by lia.
    split; [done|]. split; [done|]. split; [|split; [|split; [|done]]].
    + replace ((current + 1) mod length - 1 + length)%Z
        with ((current + 1) mod length + (length - 1))%Z by lia.
      rewrite Zplus_mod_idemp_l.
      replace (current + 1 + (length - 1))%Z with (current + 1 * length)%Z by lia.
      rewrite Z.mod_add by lia. apply Z.mod_small. lia.
    + rewrite Zplus_mod_idemp_l.
      replace (current - 1 + length + 1)%Z with (current + 1 * length)%Z by lia.
      rewrite Z.mod_add by lia. apply Z.mod_small. lia.
    + rewrite Z2Nat.id by lia.
      replace (current + length)%Z with (current + 1 * length)%Z by lia.
      rewrite Z.mod_add by lia. apply Z.mod_small. lia.
Qed.

Lemma slider_index_stays_in_range_witness :
  nextSlide 5 4 = 0%Z ∧ prevSlide 5 0 = 4%Z ∧
  prevSlide 5 (nextSlide 5 4) = 4%Z.
Proof.
  destruct (slider_index_stays_in_range 5 4 ltac:(lia)) as (_ & _ & Hback & _).
  split; [reflexivity|]. split; [reflexivity|]. exact Hback.
Defined.

End Carousel.

(** ** services/api.js: [postsService.getRelated] *)

Module RelatedPosts.
Import Runtime MockData Api ApiFacts.

Definition select_related (categoryId currentPostId : JsVal) (limit : Z) : Request :=
  ReqSelect "posts"
    (mkSelect "*, categories (*)" [Eq "category_id" categoryId; Neq "id" currentPostId]
       (Some ("published_at", false)) None (Some limit) Many false).

(** [post => post.category_id === categoryId && post.id !== currentPostId] *)
Definition related_to (categoryId currentPostId : JsVal) (post : JsVal) : bool :=
  strict_eq (field post "category_id") categoryId &&
  negb (strict_eq (field post "id") currentPostId).

Section Service.
Context {R : Type}.
Variable supabase : Store (R:=R).

(** [relatedPosts.sort(() => Math.random() - 0.5)]: with a comparator
    that is not consistent the order of the result is up to the platform;
    the result holds the same elements. *)
Variable sort_at_random : list JsVal → list JsVal.

(** [postsService.getRelated(categoryId, currentPostId, limit)] *)
Definition posts_getRelated (categoryId currentPostId : JsVal) (limit : Z) : M (R:=R) JsVal :=
  w ← get_world;
  if negb (configured w) then
    let relatedPosts := List.filter (related_to categoryId currentPostId) mockPosts in
    mret (JArr (js_slice (sort_at_random relatedPosts) 0 limit))
  else
    try_catch
      (r ← await_request supabase (select_related categoryId currentPostId limit);
       if truthy (error r) then throw (error r)
       else mret (js_or (data r) (JArr [])))
      (λ _, mret (JArr [])).

End Service.

Lemma limited_subset (n : option Z) (l : list JsVal) (x : JsVal) :
  x ∈ ReferenceStore.limited n l → x ∈ l.
Proof.
  destruct n as [k|]; simpl; [|done]. intros Hx. by apply subseteq_take in Hx.
Qed.

Lemma select_related_answer (db : ReferenceStore.Db) (categoryId currentPostId : JsVal)
    (limit : Z) :
  ReferenceStore.select db "posts"
    (mkSelect "*, categories (*)" [Eq "category_id" categoryId; Neq "id" currentPostId]
       (Some ("published_at", false)) None (Some limit) Many false) =
  mkResponse
    (JArr (map (with_category db)
             (take (Z.to_nat limit)
                (ReferenceStore.sort_rows (ReferenceStore.before "published_at" false)
                   (List.filter
                      (λ row, strict_eq (field row "category_id") categoryId &&
                              (negb (strict_eq (field row "id") currentPostId) && true))
                      (List.filter (ReferenceStore.posts_policy db) (ReferenceStore.posts db)))))))
    JNull JNull.
Proof. reflexivity. Qed.

Section Facts.
Context {R : Type}.
Variable supabase : Store (R:=R).
Variable sort_at_random : list JsVal → list JsVal.
Hypothesis sort_at_random_perm : ∀ l, sort_at_random l ≡ₚ l.

(** X28: [posts.getRelated] never throws. With the gate closed, for a
    non-negative limit and a random sort that returns the elements it was
    given in some order, it resolves to at most [limit] posts of the
    fallback dataset, each of the requested category and none with the id
    of the current post, and sends nothing.
    With the gate open and a request that fails it resolves to the empty
    list: unlike the other readers of posts, it does not fall back to the
    dataset. *)
Theorem getRelated_excludes_current (categoryId currentPostId : JsVal) (limit : Z)
    (w : World R) :
  (0 ≤ limit)%Z →
  (∃ v w', posts_getRelated supabase sort_at_random categoryId currentPostId limit w =
             (Return v, w')) ∧
  (configured w = false →
   ∃ related,
     posts_getRelated supabase sort_at_random categoryId currentPostId limit w =
       (Return (JArr related), w) ∧
     (Z.of_nat (length related) ≤ limit)%Z ∧
     Forall (λ p, p ∈ mockPosts ∧
                  field p "category_id" = categoryId ∧
                  strict_eq (field p "id") currentPostId = false) related) ∧
  (configured w = true →
   request_fails supabase (select_related categoryId currentPostId limit) (remote w) →
   (posts_getRelated supabase sort_at_random categoryId currentPostId limit w).1 =
     Return (JArr [])).
Proof.
  intros Hlimit. split; [|split].
  - unfold posts_getRelated. run_service.
    destruct (configured w); simpl; [|by eauto].
    destruct (supabase _ (remote w)) as [[r|e] s']; simpl; [|by eauto].
    destruct (truthy (error r)); by eauto.
  - intros Hconf.
    exists (window 0 limit
              (sort_at_random (List.filter (related_to categoryId currentPostId) mockPosts))).
    split; [|split].
    + unfold posts_getRelated, mbind, M_bind, mret, M_ret, bind, ret, get_world.
      cbv beta iota. rewrite Hconf. cbn [negb].
      by rewrite (js_slice_window 0 limit) by lia.
    + unfold window. rewrite length_take. lia.
    + apply Forall_forall. intros p Hp. apply window_subset in Hp.
      rewrite sort_at_random_perm in Hp.
      apply list_elem_of_In, filter_In in Hp as [Hin Hrel].
      apply list_elem_of_In in Hin. unfold related_to in Hrel.
      apply andb_true_iff in Hrel as [Hcat Hid]. apply strict_eq_true in Hcat.
      by apply negb_true_iff in Hid.
  - intros Hconf Hfails. unfold posts_getRelated. run_service. rewrite Hconf. simpl.
    unfold request_fails in Hfails.
    destruct (supabase _ (remote w)) as [[r|e] s']; simpl; [|done].
    by rewrite Hfails.
Qed.

End Facts.

(** X29: over the reference store, with the gate open, [posts.getRelated]
    resolves to at most [limit] rows, newest first, each a row that the
    store's policy exposes, of the requested category and with an id other
    than the current post's. *)
Theorem getRelated_remote (sort_at_random : list JsVal → list JsVal)
    (categoryId currentPostId : JsVal) (limit : Z) (w : World ReferenceStore.Db) :
  (0 ≤ limit)%Z →
  configured w = true → ReferenceStore.online (remote w) = true →
  ∃ rows,
    (posts_getRelated ReferenceStore.answer sort_at_random categoryId currentPostId limit w).1 =
      Return (JArr rows) ∧
    (Z.of_nat (length rows) ≤ limit)%Z ∧
    Forall (λ p, field p "category_id" = categoryId ∧
                 strict_eq (field p "id") currentPostId = false ∧
                 ∃ row, row ∈ ReferenceStore.posts (remote w) ∧
                        ReferenceStore.posts_policy (remote w) row = true ∧
                        p = with_category (remote w) row) rows ∧
    newest_first rows.
Proof.
  intros Hlimit Hconf Honline. eexists. split; [|split; [|split]].
  - unfold posts_getRelated. run_service. rewrite Hconf. simpl.
    unfold ReferenceStore.answer, select_related. rewrite Honline. simpl negb. cbv iota.
    rewrite select_related_answer. reflexivity.
  - rewrite length_map, length_take. lia.
  - apply Forall_map, Forall_forall. intros row Hrow. apply subseteq_take in Hrow.
    rewrite (sort_rows_perm _ _) in Hrow.
    apply list_elem_of_In, filter_In in Hrow as [Hrow Hmatch].
    apply filter_In in Hrow as [Hin Hpolicy]. apply list_elem_of_In in Hin.
    rewrite andb_true_r in Hmatch. apply andb_true_iff in Hmatch as [Hcat Hid].
    apply strict_eq_true in Hcat. apply negb_true_iff in Hid.
    unfold with_category. rewrite !field_with_field_ne by done.
    split; [done|]. split; [done|]. by exists row.
  - unfold newest_first. rewrite sortedb_map.
    + apply (sortedb_window _ 0 limit), sort_rows_sorted, before_total.
    + intros a b. unfold ReferenceStore.before, with_category.
      by rewrite !field_with_field_ne.
Qed.

Lemma getRelated_excludes_current_witness :
  ∃ related,
    posts_getRelated ReferenceStore.answer id
      (JStr "1649b2bb-031b-416f-9277-a8ada9b1dfea")
      (JStr "1649b2bb-031b-416f-9277-a8ada9b1dfeb") 3
      (world JUndefined JUndefined (seeded published_only mockPosts true)) =
      (Return (JArr related),
       world JUndefined JUndefined (seeded published_only mockPosts true)) ∧
    Forall (λ p, strict_eq (field p "id") (JStr "1649b2bb-031b-416f-9277-a8ada9b1dfeb") = false)
      related.
Proof.
  destruct (getRelated_excludes_current ReferenceStore.answer id (λ l, reflexivity _)
              (JStr "1649b2bb-031b-416f-9277-a8ada9b1dfea")
              (JStr "1649b2bb-031b-416f-9277-a8ada9b1dfeb") 3
              (world JUndefined JUndefined (seeded published_only mockPosts true))
              ltac:(lia)) as (_ & Hclosed & _).
  destruct (Hclosed eq_refl) as (related & Hrun & _ & Hrel).
  exists related. split; [exact Hrun|].
  eapply Forall_impl; [exact Hrel|]. by intros p (_ & _ & Hid).
Defined.

Lemma getRelated_remote_witness :
  ∃ rows,
    (posts_getRelated ReferenceStore.answer id
       (JStr "1649b2bb-031b-416f-9277-a8ada9b1dfea")
       (JStr "1649b2bb-031b-416f-9277-a8ada9b1dfeb") 3
       (world url anon_key (seeded published_only (draft :: mockPosts) true))).1 =
      Return (JArr rows) ∧
    (Z.of_nat (length rows) ≤ 3)%Z.
Proof.
  destruct (getRelated_remote id
              (JStr "1649b2bb-031b-416f-9277-a8ada9b1dfea")
              (JStr "1649b2bb-031b-416f-9277-a8ada9b1dfeb") 3
              (world url anon_key (seeded published_only (draft :: mockPosts) true))
              ltac:(lia) eq_refl eq_refl) as (rows & Hrun & Hlen & _).
  by exists rows.
Defined.

End RelatedPosts.
